(** * Robco voice robot: a shallow embedding of the orchestration code

    The embedding follows the Python sources module by module:

    - [Py]          exceptions, results and the Python values tools exchange;
    - [Hardware]    src/hardware/interfaces.py (microphone, speaker, display);
    - [Tools]       src/tools/server.py (registry, declarations, execution);
    - [Session]     src/gemini/session.py (remote session client);
    - [Playback]    src/audio/playback.py (queue, drain task, flush, stop);
    - [Capture]     src/audio/capture.py (microphone to session);
    - [WakeWord]    src/wake_word/detector.py (start and stop of the listener);
    - [Personality] src/personality/manager.py (lookup);
    - [Controller]  src/core/controller.py (states, handlers, main loop);
    - [Iteration]   the receive generator of src/gemini/session.py driven
                    to its end, and the calls a client makes on a session;
    - [Detection]   src/wake_word/detector.py (detection loop, pause, resume);
    - [PlayFile]    src/audio/playback.py (play_file);
    - [Stubs]       src/hardware/stubs.py (desktop microphone);
    - [Voices]      src/personality/voices.py (catalog and lookup).

    [Spec] and [Spec2] hold the vocabulary of the properties, [Samples]
    and [Samples2] the concrete inputs they are run on; the properties
    follow, one section per component.

    Coroutines are modelled by explicit state passing.  A coroutine that
    can suspend is a step function over a schedule: the schedule lists
    what the event loop and the environment do, one entry per step, and a
    run that uses up its schedule while still suspended is reported as
    such, never as a result. *)

From stdpp Require Import gmap strings list.
From Stdlib Require Import ZArith Ascii DecimalString.
From Stdlib.Strings Require Import Byte.

Open Scope string_scope.
Open Scope list_scope.
Open Scope nat_scope.

(* ================================================================== *)
(** * Python values, exceptions and outcomes                           *)
(* ================================================================== *)

Module Py.

(** A PCM frame, Python [bytes]. *)
Definition bytes := list byte.

(** Total payload of a list of frames, [len(b''.join(chunks))]. *)
Definition total_bytes (chunks : list bytes) : nat :=
  foldr (fun c n => length c + n) 0 chunks.

(** The exceptions the modelled code raises or catches.  [CancelledError]
    derives from BaseException: an [except Exception] clause lets it
    through. *)
Inductive exn :=
| RuntimeError (msg : string)
| AttributeError (msg : string)
| KeyError (msg : string)
| OtherError (msg : string)
| CancelledError.

Definition is_Exception (e : exn) : bool :=
  match e with CancelledError => false | _ => true end.

(** [str(e)]. *)
Definition exn_str (e : exn) : string :=
  match e with
  | RuntimeError m | AttributeError m | KeyError m | OtherError m => m
  | CancelledError => ""
  end.

(** A call either returns or raises. *)
Inductive result (A : Type) :=
| Ok (a : A)
| Raise (e : exn).
Arguments Ok {A} a.
Arguments Raise {A} e.

(** The non-dict values a tool handler may hand back, and the values
    stored in argument and result dicts. *)
Inductive pyval :=
| PNone
| PBool (b : bool)
| PInt (z : Z)
| PStr (s : string).

(** [str(v)]. *)
Definition py_str (v : pyval) : string :=
  match v with
  | PNone => "None"
  | PBool true => "True"
  | PBool false => "False"
  | PInt z => NilZero.string_of_int (Z.to_int z)
  | PStr s => s
  end.

(** [dict[str, Any]] restricted to scalar values. *)
Abbreviation dict := (gmap string pyval).

Definition ascii_upper (c : ascii) : ascii :=
  let n := N_of_ascii c in
  if ((97 <=? n) && (n <=? 122))%N then ascii_of_N (n - 32) else c.

Definition ascii_lower (c : ascii) : ascii :=
  let n := N_of_ascii c in
  if ((65 <=? n) && (n <=? 90))%N then ascii_of_N (n + 32) else c.

(** [s.upper()] and [s.lower()] on ASCII text. *)
Fixpoint upper (s : string) : string :=
  match s with
  | EmptyString => EmptyString
  | String c s' => String (ascii_upper c) (upper s')
  end.

Fixpoint lower (s : string) : string :=
  match s with
  | EmptyString => EmptyString
  | String c s' => String (ascii_lower c) (lower s')
  end.

(** [sep.join(parts)]. *)
Fixpoint join (sep : string) (parts : list string) : string :=
  match parts with
  | [] => ""
  | [p] => p
  | p :: rest => p +:+ sep +:+ join sep rest
  end.

End Py.

(* ================================================================== *)
(** * Hardware interfaces (src/hardware/interfaces.py)                 *)
(* ================================================================== *)

Module Hardware.
Import Py.

(** [AudioInput]: the open flag is all the pipelines inspect. *)
Record AudioInput := { in_open : bool }.

Definition in_is_open (mic : AudioInput) : bool := in_open mic.
Definition in_open_stream (mic : AudioInput) : AudioInput := {| in_open := true |}.
Definition in_close_stream (mic : AudioInput) : AudioInput := {| in_open := false |}.

(** [read_chunk]: the frame itself comes from the environment; reading a
    closed stream raises. *)
Definition read_chunk (frame : bytes) (mic : AudioInput) : result bytes :=
  if in_open mic then Ok frame
  else Raise (RuntimeError "Audio input stream is not open.").

(** [AudioOutput]: [written] logs every frame [write_chunk] accepted, in
    order, over the life of the object. *)
Record AudioOutput := { out_open : bool; written : list bytes }.

Definition out_is_open (spk : AudioOutput) : bool := out_open spk.
Definition out_open_stream (spk : AudioOutput) : AudioOutput :=
  {| out_open := true; written := written spk |}.
Definition out_stop (spk : AudioOutput) : AudioOutput :=
  {| out_open := false; written := written spk |}.

Definition write_chunk (data : bytes) (spk : AudioOutput) : result AudioOutput :=
  if out_open spk
  then Ok {| out_open := true; written := written spk ++ [data] |}
  else Raise (RuntimeError "Audio output stream is not open.").

(** [DisplayOutput], as the stub records it. *)
Record Display := { last_text : string; last_status : string }.

Definition show_text (text : string) (d : Display) : Display :=
  {| last_text := text; last_status := last_status d |}.
Definition show_status (status : string) (d : Display) : Display :=
  {| last_text := last_text d; last_status := status |}.
Definition clear (d : Display) : Display :=
  {| last_text := ""; last_status := "" |}.

End Hardware.

(* ================================================================== *)
(** * Tool dispatcher (src/tools/server.py)                            *)
(* ================================================================== *)

Module Tools.
Import Py.

Record ToolParam := {
  type : string;
  param_description : string;
  required : bool
}.

(** What calling (and, for an awaitable, awaiting) a handler yields. *)
Inductive HandlerOutcome :=
| ReturnsDict (d : dict)
| ReturnsOther (v : pyval)
| Raises (e : exn).

Record ToolDefinition := {
  name : string;
  description : string;
  parameters : gmap string ToolParam;
  handler : dict -> HandlerOutcome
}.

Record ToolServer := { tools : gmap string ToolDefinition }.

Definition new_server : ToolServer := {| tools := ∅ |}.

(** [self._tools[tool.name] = tool] *)
Definition register_tool (tool : ToolDefinition) (srv : ToolServer) : ToolServer :=
  {| tools := <[name tool := tool]> (tools srv) |}.

Definition registered_tools (srv : ToolServer) : list string :=
  (map_to_list (tools srv)).*1.

(** One entry of ["properties"]. *)
Record PropertySchema := { prop_type : string; prop_description : string }.

(** The ["parameters"] object of a declaration. *)
Record ParametersSchema := {
  schema_type : string;
  properties : gmap string PropertySchema;
  schema_required : list string
}.

Record FunctionDeclaration := {
  decl_name : string;
  decl_description : string;
  decl_parameters : option ParametersSchema
}.

(** The loop over [tool.parameters.items()]. *)
Definition parameters_schema (params : gmap string ToolParam) : ParametersSchema :=
  {| schema_type := "OBJECT";
     properties :=
       (fun p => {| prop_type := upper (type p);
                    prop_description := param_description p |}) <$> params;
     schema_required :=
       (filter (fun kv => required kv.2 = true) (map_to_list params)).*1 |}.

(** The body of the loop over [self._tools.values()]. *)
Definition declare (tool : ToolDefinition) : FunctionDeclaration :=
  {| decl_name := name tool;
     decl_description := description tool;
     decl_parameters :=
       if decide (parameters tool = ∅) then None
       else Some (parameters_schema (parameters tool)) |}.

(** A dict [{"function_declarations": declarations}]. *)
Record ToolBlock := { function_declarations : list FunctionDeclaration }.

Definition get_tool_declarations (srv : ToolServer) : option (list ToolBlock) :=
  if decide (tools srv = ∅) then None
  else Some [ {| function_declarations := declare <$> (map_to_list (tools srv)).*2 |} ].

(** The names a declaration lists as required; none when it carries no
    ["parameters"] object. *)
Definition declared_required (d : FunctionDeclaration) : list string :=
  match decl_parameters d with
  | None => []
  | Some s => schema_required s
  end.

(** [execute_tool]: a [CancelledError] out of the handler is not an
    [Exception] and passes through. *)
Definition execute_tool (srv : ToolServer) (nm : string) (args : dict) : result dict :=
  match tools srv !! nm with
  | None => Ok {[ "error" := PStr ("Unknown tool: " +:+ nm) ]}
  | Some tool =>
      match handler tool args with
      | ReturnsDict d => Ok d
      | ReturnsOther v => Ok {[ "result" := PStr (py_str v) ]}
      | Raises e =>
          if is_Exception e
          then Ok {[ "error" := PStr ("Tool execution failed: " +:+ exn_str e) ]}
          else Raise e
      end
  end.

(** Every key of the registry is the name of the tool stored under it:
    [register_tool] is the only writer. *)
Definition registry_wf (srv : ToolServer) : Prop :=
  ∀ k t, tools srv !! k = Some t → name t = k.

End Tools.

(* ================================================================== *)
(** * Remote session client (src/gemini/session.py)                    *)
(* ================================================================== *)

Module Session.
Import Py.

Record GeminiSessionConfig := {
  model : string;
  voice : string;
  system_prompt : string;
  config_tools : list Tools.ToolBlock;
  vad_sensitivity : string
}.

(** The values of [ServerMessage.type]. *)
Inductive MessageType :=
| SetupComplete
| Audio
| Transcription
| InputTranscription
| ToolCall
| TurnComplete
| Interrupted
| ToolCallCancellation
| GoAway
| Error.

Definition type_name (t : MessageType) : string :=
  match t with
  | SetupComplete => "setup_complete"
  | Audio => "audio"
  | Transcription => "transcription"
  | InputTranscription => "input_transcription"
  | ToolCall => "tool_call"
  | TurnComplete => "turn_complete"
  | Interrupted => "interrupted"
  | ToolCallCancellation => "tool_call_cancellation"
  | GoAway => "go_away"
  | Error => "error"
  end.

Record ServerMessage := {
  msg_type : MessageType;
  audio_data : bytes;
  text : string;
  tool_call_id : string;
  tool_name : string;
  tool_args : dict
}.

(** [ServerMessage(type=t)] with the dataclass defaults. *)
Definition message (t : MessageType) : ServerMessage :=
  {| msg_type := t; audio_data := []; text := ""; tool_call_id := "";
     tool_name := ""; tool_args := ∅ |}.

Definition audio_message (data : bytes) : ServerMessage :=
  {| msg_type := Audio; audio_data := data; text := ""; tool_call_id := "";
     tool_name := ""; tool_args := ∅ |}.

Definition text_message (t : MessageType) (s : string) : ServerMessage :=
  {| msg_type := t; audio_data := []; text := s; tool_call_id := "";
     tool_name := ""; tool_args := ∅ |}.

Definition tool_call_message (id nm : string) (args : dict) : ServerMessage :=
  {| msg_type := ToolCall; audio_data := []; text := ""; tool_call_id := id;
     tool_name := nm; tool_args := args |}.

(** The provider's message, as far as [_parse_message] reads it.  [None]
    stands for an absent (falsy) attribute. *)
Record Part := { inline_data : option bytes; part_text : option string }.

Record ServerContent := {
  model_turn : option (list Part);
  output_transcription : option string;
  sc_input_transcription : option string;
  sc_interrupted : bool;
  sc_turn_complete : bool
}.

Record FunctionCall := {
  fc_id : option string;
  fc_name : option string;
  fc_args : option dict
}.

Record LiveServerMessage := {
  lsm_setup_complete : bool;
  server_content : option ServerContent;
  lsm_tool_call : option (list FunctionCall);
  lsm_tool_call_cancellation : option (list string);
  lsm_go_away : bool
}.

(** Truthiness of an optional [bytes] or [str]: present and not empty. *)
Definition nonempty_bytes (o : option bytes) : option bytes :=
  match o with Some (b :: bs) => Some (b :: bs) | _ => None end.

Definition nonempty_text (o : option string) : option string :=
  match o with Some (String c s) => Some (String c s) | _ => None end.

Definition parse_part (p : Part) : list ServerMessage :=
  match nonempty_bytes (inline_data p) with
  | Some data => [audio_message data]
  | None => []
  end ++
  match nonempty_text (part_text p) with
  | Some t => [text_message Transcription t]
  | None => []
  end.

Definition parse_server_content (sc : ServerContent) : list ServerMessage :=
  match model_turn sc with
  | Some parts => concat (parse_part <$> parts)
  | None => []
  end ++
  match nonempty_text (output_transcription sc) with
  | Some t => [text_message Transcription t]
  | None => []
  end ++
  match nonempty_text (sc_input_transcription sc) with
  | Some t => [text_message InputTranscription t]
  | None => []
  end ++
  (if sc_interrupted sc then [message Interrupted] else []) ++
  (if sc_turn_complete sc then [message TurnComplete] else []).

(** The loop over [message.tool_call.function_calls]: each call is
    recorded in [_tool_call_names] and becomes one message. *)
Fixpoint parse_function_calls (fcs : list FunctionCall) (names : gmap string string)
  : list ServerMessage * gmap string string :=
  match fcs with
  | [] => ([], names)
  | fc :: rest =>
      let call_id := default "" (fc_id fc) in
      let nm := default "" (fc_name fc) in
      let '(msgs, names') := parse_function_calls rest (<[call_id := nm]> names) in
      (tool_call_message call_id nm (default ∅ (fc_args fc)) :: msgs, names')
  end.

Definition _parse_message (m : LiveServerMessage) (names : gmap string string)
  : list ServerMessage * gmap string string :=
  let setup := if lsm_setup_complete m then [message SetupComplete] else [] in
  let content :=
    match server_content m with
    | Some sc => parse_server_content sc
    | None => []
    end in
  let '(calls, names') :=
    match lsm_tool_call m with
    | Some fcs => parse_function_calls fcs names
    | None => ([], names)
    end in
  let cancel :=
    match lsm_tool_call_cancellation m with
    | Some ids => [text_message ToolCallCancellation (join "," ids)]
    | None => []
    end in
  let away := if lsm_go_away m then [message GoAway] else [] in
  (setup ++ content ++ calls ++ cancel ++ away, names').

(** [types.FunctionResponse(id=..., name=..., response=...)]. *)
Record FunctionResponse := {
  fr_id : string;
  fr_name : string;
  fr_response : dict
}.

(** [GeminiSession].  [sdk_session] and [session_cm] say whether the
    attribute holds an object; [sent_audio] and [sent_tool_responses] log
    the calls made on the provider's session, in order. *)
Record GeminiSession := {
  api_key : string;
  config : GeminiSessionConfig;
  client : bool;
  sdk_session : bool;
  session_cm : bool;
  connected : bool;
  tool_call_names : gmap string string;
  sent_audio : list bytes;
  sent_tool_responses : list FunctionResponse
}.

Definition new_session (key : string) (cfg : GeminiSessionConfig) : GeminiSession :=
  {| api_key := key; config := cfg; client := false; sdk_session := false;
     session_cm := false; connected := false; tool_call_names := ∅;
     sent_audio := []; sent_tool_responses := [] |}.

Definition is_connected (s : GeminiSession) : bool := connected s.

(** What the provider does when [connect] reaches it. *)
Inductive ConnectOutcome :=
| Connects
| ClientRaises (e : exn)
| EnterRaises (e : exn).

(** [connect]: the session after the call, and the exception that
    escaped, if any. *)
Definition connect (o : ConnectOutcome) (s : GeminiSession) : GeminiSession * option exn :=
  match o with
  | ClientRaises e => (s, Some e)
  | EnterRaises e =>
      ({| api_key := api_key s; config := config s; client := true;
          sdk_session := sdk_session s; session_cm := true;
          connected := connected s; tool_call_names := tool_call_names s;
          sent_audio := sent_audio s;
          sent_tool_responses := sent_tool_responses s |}, Some e)
  | Connects =>
      ({| api_key := api_key s; config := config s; client := true;
          sdk_session := true; session_cm := true;
          connected := true; tool_call_names := tool_call_names s;
          sent_audio := sent_audio s;
          sent_tool_responses := sent_tool_responses s |}, None)
  end.

Definition not_connected_error : exn :=
  RuntimeError "Gemini session is not connected.".

(** The guard that opens [send_audio], [receive] and
    [send_tool_response]: [not self._connected or self._session is None]. *)
Definition unusable (s : GeminiSession) : bool :=
  negb (connected s) || negb (sdk_session s).

Definition send_audio (chunk : bytes) (s : GeminiSession) : result GeminiSession :=
  if unusable s then Raise not_connected_error
  else Ok {| api_key := api_key s; config := config s; client := client s;
             sdk_session := sdk_session s; session_cm := session_cm s;
             connected := connected s; tool_call_names := tool_call_names s;
             sent_audio := sent_audio s ++ [chunk];
             sent_tool_responses := sent_tool_responses s |}.

Definition send_tool_response (call_id : string) (res : dict) (s : GeminiSession)
  : result GeminiSession :=
  if unusable s then Raise not_connected_error
  else
    let nm := default "" (tool_call_names s !! call_id) in
    Ok {| api_key := api_key s; config := config s; client := client s;
          sdk_session := sdk_session s; session_cm := session_cm s;
          connected := connected s;
          tool_call_names := delete call_id (tool_call_names s);
          sent_audio := sent_audio s;
          sent_tool_responses :=
            sent_tool_responses s ++
            [{| fr_id := call_id; fr_name := nm; fr_response := res |}] |}.

(** [close]: an [Exception] out of the provider's exit is caught and
    logged, and the [finally] block resets the session whether or not one
    occurred, so the call returns the same session either way. *)
Definition close (s : GeminiSession) : GeminiSession :=
  if session_cm s
  then {| api_key := api_key s; config := config s; client := client s;
          sdk_session := false; session_cm := false; connected := false;
          tool_call_names := ∅; sent_audio := sent_audio s;
          sent_tool_responses := sent_tool_responses s |}
  else s.

Definition set_connected (b : bool) (s : GeminiSession) : GeminiSession :=
  {| api_key := api_key s; config := config s; client := client s;
     sdk_session := sdk_session s; session_cm := session_cm s;
     connected := b; tool_call_names := tool_call_names s;
     sent_audio := sent_audio s; sent_tool_responses := sent_tool_responses s |}.

Definition set_tool_call_names (names : gmap string string) (s : GeminiSession)
  : GeminiSession :=
  {| api_key := api_key s; config := config s; client := client s;
     sdk_session := sdk_session s; session_cm := session_cm s;
     connected := connected s; tool_call_names := names;
     sent_audio := sent_audio s; sent_tool_responses := sent_tool_responses s |}.

(** What the provider's own [receive()] iterator does next. *)
Inductive StreamItem :=
| SdkMessage (m : LiveServerMessage)
| SdkRaises (e : exn)
| SdkEnds.

(** The state of one [receive()] generator: whether its body has begun,
    the messages of the current provider message not yet yielded, whether
    it is suspended at the [yield] of the error message, and whether it
    has returned. *)
Record Receiver := {
  started : bool;
  buffered : list ServerMessage;
  at_error_yield : bool;
  exhausted : bool
}.

Definition new_receiver : Receiver :=
  {| started := false; buffered := []; at_error_yield := false; exhausted := false |}.

Definition finished_receiver : Receiver :=
  {| started := true; buffered := []; at_error_yield := false; exhausted := true |}.

(** One [__anext__] on the generator. *)
Inductive Next :=
| Yields (m : ServerMessage)
| StopAsyncIteration
| Throws (e : exn)
| Suspended.

(** Pull provider items until one produces a message to yield. *)
Fixpoint pull (stream : list StreamItem) (s : GeminiSession)
  : Next * (Receiver * GeminiSession * list StreamItem) :=
  match stream with
  | [] => (Suspended, ({| started := true; buffered := []; at_error_yield := false;
                          exhausted := false |}, s, []))
  | SdkEnds :: rest => (StopAsyncIteration, (finished_receiver, s, rest))
  | SdkRaises e :: rest =>
      if is_Exception e
      then (Yields (text_message Error (exn_str e)),
            ({| started := true; buffered := []; at_error_yield := true;
                exhausted := false |}, s, rest))
      else (Throws e, (finished_receiver, s, rest))
  | SdkMessage m :: rest =>
      let '(msgs, names) := _parse_message m (tool_call_names s) in
      let s' := set_tool_call_names names s in
      match msgs with
      | [] => pull rest s'
      | msg :: more =>
          (Yields msg, ({| started := true; buffered := more; at_error_yield := false;
                           exhausted := false |}, s', rest))
      end
  end.

Definition anext (g : Receiver) (s : GeminiSession) (stream : list StreamItem)
  : Next * (Receiver * GeminiSession * list StreamItem) :=
  if exhausted g then (StopAsyncIteration, (g, s, stream))
  else if negb (started g) && unusable s
  then (Throws not_connected_error, (finished_receiver, s, stream))
  else if at_error_yield g
  then (StopAsyncIteration, (finished_receiver, set_connected false s, stream))
  else
    match buffered g with
    | msg :: more =>
        (Yields msg, ({| started := true; buffered := more; at_error_yield := false;
                         exhausted := false |}, s, stream))
    | [] => pull stream s
    end.

End Session.

(* ================================================================== *)
(** * Playback pipeline (src/audio/playback.py)                        *)
(* ================================================================== *)

Module Playback.
Import Py Hardware.

(** Where the coroutine [_drain_loop] is suspended. *)
Inductive DrainPhase :=
| Buffering (todo : nat) (initial : list bytes)
    (* phase 1, [todo] rounds of the [for] loop left *)
| PlayingInitial (rest : list bytes)
    (* phase 2, [rest] still to write *)
| Draining
    (* phase 3, at the head of the [while] loop *)
| Holding (chunk : bytes).
    (* phase 3, [chunk] taken from the queue and not yet written *)

(** An [asyncio.Task] running [_drain_loop]. *)
Inductive DrainTask :=
| Running (p : DrainPhase)
| Finished
| Cancelled.

Definition done (t : DrainTask) : bool :=
  match t with Running _ => false | _ => true end.

(** [AudioPlaybackStream]; [None] in the queue is the flush sentinel. *)
Record AudioPlaybackStream := {
  sample_rate : Z;
  buffer_chunks : Z;
  queue : list (option bytes);
  playing : bool;
  task : option DrainTask
}.

Definition new_playback (rate chunks : Z) : AudioPlaybackStream :=
  {| sample_rate := rate; buffer_chunks := chunks; queue := [];
     playing := false; task := None |}.

Definition is_playing (pb : AudioPlaybackStream) : bool := playing pb.

Definition set_queue (q : list (option bytes)) (pb : AudioPlaybackStream) :=
  {| sample_rate := sample_rate pb; buffer_chunks := buffer_chunks pb;
     queue := q; playing := playing pb; task := task pb |}.

Definition set_task (t : option DrainTask) (pb : AudioPlaybackStream) :=
  {| sample_rate := sample_rate pb; buffer_chunks := buffer_chunks pb;
     queue := queue pb; playing := playing pb; task := t |}.

Definition set_playing (b : bool) (pb : AudioPlaybackStream) :=
  {| sample_rate := sample_rate pb; buffer_chunks := buffer_chunks pb;
     queue := queue pb; playing := b; task := task pb |}.

(** The pipeline and the speaker it was handed. *)
Definition state : Type := AudioPlaybackStream * AudioOutput.

(** [play_chunk]: the queue is unbounded, so [put] does not suspend. *)
Definition play_chunk (data : bytes) (st : state) : state :=
  let '(pb, spk) := st in
  let '(pb1, spk1) :=
    if playing pb then (pb, spk)
    else
      (set_task (Some (Running (Buffering (Z.to_nat (buffer_chunks pb)) [])))
         (set_playing true pb),
       if out_is_open spk then spk else out_open_stream spk) in
  (set_queue (queue pb1 ++ [Some data]) pb1, spk1).

(** Whether [flush] has a task to wait for. *)
Definition flush_waits (pb : AudioPlaybackStream) : bool :=
  match task pb with
  | Some t => negb (done t)
  | None => false
  end.

(** [flush] up to its [await self._task]: the sentinel is queued when a
    live task exists; otherwise the call returns at once. *)
Definition flush_begin (st : state) : state :=
  let '(pb, spk) := st in
  if flush_waits pb then (set_queue (queue pb ++ [None]) pb, spk) else st.

(** [stop]. *)
Definition stop (st : state) : state :=
  let '(pb, spk) := st in
  (set_task None (set_queue [] (set_playing false pb)),
   if out_is_open spk then out_stop spk else spk).

(** The drain task ends: its [finally] clears the flag. *)
Definition finish (pb : AudioPlaybackStream) : AudioPlaybackStream :=
  set_task (Some Finished) (set_playing false pb).

(** A [CancelledError] reaches the drain task at its pending [await]:
    it re-raises, and its [finally] clears the flag. *)
Definition cancel_task (pb : AudioPlaybackStream) : AudioPlaybackStream :=
  match task pb with
  | Some (Running _) => set_task (Some Cancelled) (set_playing false pb)
  | _ => pb
  end.

Definition set_phase (p : DrainPhase) (pb : AudioPlaybackStream) :=
  set_task (Some (Running p)) pb.

(** [if not self._playing: return], then the write; an [Exception] out of
    the write is logged and ends the task.  The write is one step: the
    call handed to the executor is not split into its start and its end,
    so a frame counts as written from the moment the write is issued. *)
Definition write_or_finish (chunk : bytes) (next : DrainPhase) (st : state) : state :=
  let '(pb, spk) := st in
  if negb (playing pb) then (finish pb, spk)
  else
    match write_chunk chunk spk with
    | Ok spk' => (set_phase next pb, spk')
    | Raise _ => (finish pb, spk)
    end.

(** One step of [_drain_loop].  [expired] says whether the timer of a
    pending [wait_for] has run out; it matters only while the queue is
    empty. *)
Definition drain_step (expired : bool) (st : state) : state :=
  let '(pb, spk) := st in
  match task pb with
  | Some (Running (Buffering 0 initial)) =>
      (set_phase (PlayingInitial initial) pb, spk)
  | Some (Running (Buffering (S k) initial)) =>
      match queue pb with
      | [] => if expired then (set_phase (PlayingInitial initial) pb, spk) else st
      | None :: q => (set_phase (PlayingInitial initial) (set_queue q pb), spk)
      | Some chunk :: q =>
          (set_phase (Buffering k (initial ++ [chunk])) (set_queue q pb), spk)
      end
  | Some (Running (PlayingInitial [])) => (set_phase Draining pb, spk)
  | Some (Running (PlayingInitial (chunk :: rest))) =>
      write_or_finish chunk (PlayingInitial rest) st
  | Some (Running Draining) =>
      if negb (playing pb) then (finish pb, spk)
      else
        match queue pb with
        | [] => if expired then (finish pb, spk) else st
        | None :: q => (finish (set_queue q pb), spk)
        | Some chunk :: q => (set_phase (Holding chunk) (set_queue q pb), spk)
        end
  | Some (Running (Holding chunk)) => write_or_finish chunk Draining st
  | _ => st
  end.

(** What can happen to a pipeline, one entry per step of a trace. *)
Inductive Op :=
| PlayChunk (data : bytes)
| Flush
| Stop
| Drain (expired : bool)
| Cancel.

Definition apply (st : state) (op : Op) : state :=
  match op with
  | PlayChunk data => play_chunk data st
  | Flush => flush_begin st
  | Stop => stop st
  | Drain expired => drain_step expired st
  | Cancel => (cancel_task st.1, st.2)
  end.

Definition run (ops : list Op) (st : state) : state := foldl apply st ops.


(** The frames a pipeline still holds: those the drain task has taken
    and not yet written, then the queue. *)
Definition held (t : option DrainTask) : list bytes :=
  match t with
  | Some (Running (Buffering _ initial)) => initial
  | Some (Running (PlayingInitial rest)) => rest
  | Some (Running (Holding chunk)) => [chunk]
  | _ => []
  end.

Definition pending (pb : AudioPlaybackStream) : list bytes :=
  held (task pb) ++ omap id (queue pb).

(** An upper bound on the drain steps a task still needs once timers
    fire. *)
Definition remaining_steps (pb : AudioPlaybackStream) : nat :=
  match task pb with
  | Some (Running (Buffering _ initial)) => 2 * length (queue pb) + length initial + 3
  | Some (Running (PlayingInitial rest)) => 2 * length (queue pb) + length rest + 2
  | Some (Running Draining) => 2 * length (queue pb) + 1
  | Some (Running (Holding _)) => 2 * length (queue pb) + 2
  | _ => 0
  end.

End Playback.

(* ================================================================== *)
(** * Capture pipeline (src/audio/capture.py)                          *)
(* ================================================================== *)

Module Capture.
Import Py Hardware.

(** An [asyncio.Task] running [_capture_loop]. *)
Inductive CaptureTask :=
| Running
| Finished.

Record AudioCaptureStream := {
  sample_rate : Z;
  chunk_size : Z;
  streaming : bool;
  task : option CaptureTask
}.

Definition new_capture (rate size : Z) : AudioCaptureStream :=
  {| sample_rate := rate; chunk_size := size; streaming := false; task := None |}.

Definition is_streaming (cap : AudioCaptureStream) : bool := streaming cap.

Definition set_streaming (b : bool) (cap : AudioCaptureStream) :=
  {| sample_rate := sample_rate cap; chunk_size := chunk_size cap;
     streaming := b; task := task cap |}.

Definition set_task (t : option CaptureTask) (cap : AudioCaptureStream) :=
  {| sample_rate := sample_rate cap; chunk_size := chunk_size cap;
     streaming := streaming cap; task := t |}.

(** [start]. *)
Definition start (st : AudioCaptureStream * AudioInput) : AudioCaptureStream * AudioInput :=
  let '(cap, mic) := st in
  if streaming cap then st
  else
    (set_task (Some Running) (set_streaming true cap),
     if in_is_open mic then mic else in_open_stream mic).

(** [stop]: the task is cancelled and awaited, then the microphone is
    closed whenever it is open. *)
Definition stop (st : AudioCaptureStream * AudioInput) : AudioCaptureStream * AudioInput :=
  let '(cap, mic) := st in
  (set_task None (set_streaming false cap),
   if in_is_open mic then in_close_stream mic else mic).

(** One round of [_capture_loop]: [frame] is what the microphone
    delivers.  An [Exception] out of the read or the send is logged and
    ends streaming. *)
Definition capture_step (frame : bytes)
    (st : AudioCaptureStream * AudioInput * Session.GeminiSession)
  : AudioCaptureStream * AudioInput * Session.GeminiSession :=
  let '(cap, mic, sess) := st in
  match task cap with
  | Some Running =>
      if negb (streaming cap) then (set_task (Some Finished) cap, mic, sess)
      else
        match read_chunk frame mic with
        | Raise _ => (set_task (Some Finished) (set_streaming false cap), mic, sess)
        | Ok chunk =>
            if streaming cap && Session.is_connected sess
            then
              match Session.send_audio chunk sess with
              | Ok sess' => (cap, mic, sess')
              | Raise _ =>
                  (set_task (Some Finished) (set_streaming false cap), mic, sess)
              end
            else st
        end
  | _ => st
  end.

End Capture.

(* ================================================================== *)
(** * Wake-word monitor (src/wake_word/detector.py)                    *)
(* ================================================================== *)

Module WakeWord.
Import Hardware.

(** [WakeWordDetector]: [has_task] and [has_model] say whether the
    attribute holds an object. *)
Record WakeWordDetector := {
  listening : bool;
  paused : bool;
  has_task : bool;
  has_model : bool
}.

Definition new_detector : WakeWordDetector :=
  {| listening := false; paused := false; has_task := false; has_model := false |}.

Definition start (st : WakeWordDetector * AudioInput) : WakeWordDetector * AudioInput :=
  let '(det, mic) := st in
  if listening det then st
  else
    ({| listening := true; paused := false; has_task := true; has_model := true |},
     if in_is_open mic then mic else in_open_stream mic).

Definition stop (st : WakeWordDetector * AudioInput) : WakeWordDetector * AudioInput :=
  let '(det, mic) := st in
  ({| listening := false; paused := paused det; has_task := false; has_model := false |},
   if in_is_open mic then in_close_stream mic else mic).

Definition is_listening (det : WakeWordDetector) : bool :=
  listening det && negb (paused det).

End WakeWord.

(* ================================================================== *)
(** * Personalities (src/personality/manager.py)                       *)
(* ================================================================== *)

Module Personality.
Import Py.

Record PersonalityConfig := {
  name : string;
  voice : string;
  system_prompt : string;
  description : string;
  conversation_timeout_seconds : Z;
  vad_sensitivity : string
}.

(** [PersonalityManager._personalities], keyed by lower-case file stem. *)
Record PersonalityManager := { personalities : gmap string PersonalityConfig }.

Definition get_personality (nm : string) (pm : PersonalityManager)
  : result PersonalityConfig :=
  match personalities pm !! lower nm with
  | Some p => Ok p
  | None => Raise (KeyError ("Personality '" +:+ nm +:+ "' not found."))
  end.

Definition get_default (pm : PersonalityManager) : result PersonalityConfig :=
  get_personality "friendly" pm.

End Personality.

(* ================================================================== *)
(** * Controller (src/core/state_machine.py, src/core/controller.py)   *)
(* ================================================================== *)

Module Controller.
Import Py Hardware.

Inductive RobotState :=
| IDLE
| CONNECTING
| CONVERSATION
| SHUTTING_DOWN.

Global Instance RobotState_eq_dec : EqDecision RobotState.
Proof. solve_decision. Defined.

(** The fields of [Settings] the controller reads. *)
Record Settings := {
  gemini_api_key : string;
  gemini_model : string;
  input_sample_rate : Z;
  output_sample_rate : Z;
  audio_chunk_size : Z;
  default_personality : string;
  settings_conversation_timeout : Z
}.

(** [RobotController].  The hardware objects are the controller's own
    references; the pipelines and the detector work on the same objects.
    [stop_event] is [None] until [start] creates the event, then holds
    whether it is set.  Times are in milliseconds, except the timeout,
    which is in seconds as the personality gives it. *)
Record RobotController := {
  settings : Settings;
  audio_input : AudioInput;
  audio_output : AudioOutput;
  display : option Display;
  state : RobotState;
  running : bool;
  stop_event : option bool;
  personality_manager : Personality.PersonalityManager;
  wake_detector : WakeWord.WakeWordDetector;
  tool_server : Tools.ToolServer;
  session : option Session.GeminiSession;
  last_activity : Z;
  conversation_timeout : Z
}.

(** [__init__], given the collaborators it builds. *)
Definition new_controller (cfg : Settings) (mic : AudioInput) (spk : AudioOutput)
    (disp : option Display) (pm : Personality.PersonalityManager)
    (srv : Tools.ToolServer) : RobotController :=
  {| settings := cfg; audio_input := mic; audio_output := spk; display := disp;
     state := IDLE; running := false; stop_event := None;
     personality_manager := pm; wake_detector := WakeWord.new_detector;
     tool_server := srv; session := None; last_activity := 0;
     conversation_timeout := settings_conversation_timeout cfg |}.

Definition set_audio_input (x : AudioInput) (c : RobotController) :=
  {| settings := settings c; audio_input := x; audio_output := audio_output c;
     display := display c; state := state c; running := running c;
     stop_event := stop_event c; personality_manager := personality_manager c;
     wake_detector := wake_detector c; tool_server := tool_server c;
     session := session c; last_activity := last_activity c;
     conversation_timeout := conversation_timeout c |}.

Definition set_audio_output (x : AudioOutput) (c : RobotController) :=
  {| settings := settings c; audio_input := audio_input c; audio_output := x;
     display := display c; state := state c; running := running c;
     stop_event := stop_event c; personality_manager := personality_manager c;
     wake_detector := wake_detector c; tool_server := tool_server c;
     session := session c; last_activity := last_activity c;
     conversation_timeout := conversation_timeout c |}.

Definition set_display (x : option Display) (c : RobotController) :=
  {| settings := settings c; audio_input := audio_input c;
     audio_output := audio_output c; display := x; state := state c;
     running := running c; stop_event := stop_event c;
     personality_manager := personality_manager c;
     wake_detector := wake_detector c; tool_server := tool_server c;
     session := session c; last_activity := last_activity c;
     conversation_timeout := conversation_timeout c |}.

Definition set_state (x : RobotState) (c : RobotController) :=
  {| settings := settings c; audio_input := audio_input c;
     audio_output := audio_output c; display := display c; state := x;
     running := running c; stop_event := stop_event c;
     personality_manager := personality_manager c;
     wake_detector := wake_detector c; tool_server := tool_server c;
     session := session c; last_activity := last_activity c;
     conversation_timeout := conversation_timeout c |}.

Definition set_running (x : bool) (c : RobotController) :=
  {| settings := settings c; audio_input := audio_input c;
     audio_output := audio_output c; display := display c; state := state c;
     running := x; stop_event := stop_event c;
     personality_manager := personality_manager c;
     wake_detector := wake_detector c; tool_server := tool_server c;
     session := session c; last_activity := last_activity c;
     conversation_timeout := conversation_timeout c |}.

Definition set_stop_event (x : option bool) (c : RobotController) :=
  {| settings := settings c; audio_input := audio_input c;
     audio_output := audio_output c; display := display c; state := state c;
     running := running c; stop_event := x;
     personality_manager := personality_manager c;
     wake_detector := wake_detector c; tool_server := tool_server c;
     session := session c; last_activity := last_activity c;
     conversation_timeout := conversation_timeout c |}.

Definition set_wake_detector (x : WakeWord.WakeWordDetector) (c : RobotController) :=
  {| settings := settings c; audio_input := audio_input c;
     audio_output := audio_output c; display := display c; state := state c;
     running := running c; stop_event := stop_event c;
     personality_manager := personality_manager c; wake_detector := x;
     tool_server := tool_server c; session := session c;
     last_activity := last_activity c;
     conversation_timeout := conversation_timeout c |}.

Definition set_session (x : option Session.GeminiSession) (c : RobotController) :=
  {| settings := settings c; audio_input := audio_input c;
     audio_output := audio_output c; display := display c; state := state c;
     running := running c; stop_event := stop_event c;
     personality_manager := personality_manager c;
     wake_detector := wake_detector c; tool_server := tool_server c;
     session := x; last_activity := last_activity c;
     conversation_timeout := conversation_timeout c |}.

Definition set_last_activity (x : Z) (c : RobotController) :=
  {| settings := settings c; audio_input := audio_input c;
     audio_output := audio_output c; display := display c; state := state c;
     running := running c; stop_event := stop_event c;
     personality_manager := personality_manager c;
     wake_detector := wake_detector c; tool_server := tool_server c;
     session := session c; last_activity := x;
     conversation_timeout := conversation_timeout c |}.

Definition set_conversation_timeout (x : Z) (c : RobotController) :=
  {| settings := settings c; audio_input := audio_input c;
     audio_output := audio_output c; display := display c; state := state c;
     running := running c; stop_event := stop_event c;
     personality_manager := personality_manager c;
     wake_detector := wake_detector c; tool_server := tool_server c;
     session := session c; last_activity := last_activity c;
     conversation_timeout := x |}.

(** [if self._display: self._display.f(...)]. *)
Definition on_display (f : Display -> Display) (c : RobotController) :=
  set_display (f <$> display c) c.

(** [self._wake_detector.stop()] on the controller's microphone. *)
Definition stop_detector (c : RobotController) : RobotController :=
  let '(det, mic) := WakeWord.stop (wake_detector c, audio_input c) in
  set_audio_input mic (set_wake_detector det c).

Definition start_detector (c : RobotController) : RobotController :=
  let '(det, mic) := WakeWord.start (wake_detector c, audio_input c) in
  set_audio_input mic (set_wake_detector det c).

(** [if self._session and self._session.is_connected: await self._session.close()] *)
Definition close_session (c : RobotController) : RobotController :=
  match session c with
  | Some s =>
      if Session.is_connected s then set_session (Some (Session.close s)) c else c
  | None => c
  end.

(** [stop]. *)
Definition stop (c : RobotController) : RobotController :=
  let c1 := set_running false c in
  let c2 :=
    match stop_event c1 with
    | Some _ => set_stop_event (Some true) c1
    | None => c1
    end in
  close_session (stop_detector c2).

(** [_cleanup]. *)
Definition _cleanup (c : RobotController) : RobotController :=
  let c1 := close_session (stop_detector c) in
  let c2 :=
    if in_is_open (audio_input c1)
    then set_audio_input (in_close_stream (audio_input c1)) c1 else c1 in
  let c3 :=
    if out_is_open (audio_output c2)
    then set_audio_output (out_stop (audio_output c2)) c2 else c2 in
  on_display clear c3.

(** How the run of a coroutine against a finite schedule ends: it
    returned, an exception escaped it, or the schedule ran out while it
    was still suspended.  Each carries the state reached. *)
Inductive outcome (A : Type) :=
| Returned (a : A)
| Raised (e : exn) (a : A)
| Suspended (a : A).
Arguments Returned {A} a.
Arguments Raised {A} e a.
Arguments Suspended {A} a.

(** One turn of the event loop while the IDLE handler waits: whether the
    wake callback sets the wake event, and whether [stop] is called. *)
Record IdleTick := { wake_fires : bool; stop_called : bool }.

Definition stop_is_set (c : RobotController) : bool :=
  default false (stop_event c).

(** The race of [asyncio.wait] with [FIRST_COMPLETED]: it returns at the
    first turn after which one of the events is set, and [done] holds
    every task whose event is set by then. *)
Fixpoint wait_first (wake_set : bool) (sched : list IdleTick) (c : RobotController)
  : outcome (bool * RobotController) :=
  if wake_set || stop_is_set c then Returned (wake_set, c)
  else
    match sched with
    | [] => Suspended (wake_set, c)
    | t :: rest =>
        wait_first (wake_set || wake_fires t) rest
                   (if stop_called t then stop c else c)
    end.

(** [_wait_for_event_or_stop]: the result is [event_task in done]. *)
Definition _wait_for_event_or_stop (wake_set : bool) (sched : list IdleTick)
    (c : RobotController) : outcome (bool * RobotController) :=
  match stop_event c with
  | None =>
      Raised (AttributeError "'NoneType' object has no attribute 'wait'") (wake_set, c)
  | Some _ => wait_first wake_set sched c
  end.

(** The tail of [_run_idle], after the wait. *)
Definition idle_exit (woke : bool) (c : RobotController) : RobotController :=
  let c1 := stop_detector c in
  if woke && running c1 then set_state CONNECTING c1 else c1.

(** [_run_idle]. *)
Definition _run_idle (sched : list IdleTick) (c : RobotController)
  : outcome RobotController :=
  let c1 := start_detector (on_display (show_status "listening") c) in
  match _wait_for_event_or_stop false sched c1 with
  | Returned (woke, c2) => Returned (idle_exit woke c2)
  | Raised e (_, c2) => Raised e c2
  | Suspended (_, c2) => Suspended c2
  end.

(** The personality [_run_connecting] settles on: the configured one,
    else "friendly", else none. *)
Definition resolve_personality (c : RobotController)
  : option Personality.PersonalityConfig :=
  match Personality.get_personality (default_personality (settings c))
                                    (personality_manager c) with
  | Ok p => Some p
  | Raise _ =>
      match Personality.get_default (personality_manager c) with
      | Ok p => Some p
      | Raise _ => None
      end
  end.

Definition session_config (c : RobotController) (p : Personality.PersonalityConfig)
  : Session.GeminiSessionConfig :=
  {| Session.model := gemini_model (settings c);
     Session.voice := Personality.voice p;
     Session.system_prompt := Personality.system_prompt p;
     Session.config_tools :=
       default [] (Tools.get_tool_declarations (tool_server c));
     Session.vad_sensitivity := Personality.vad_sensitivity p |}.

(** [_run_connecting]; [o] is what the provider does with the connection
    attempt. *)
Definition _run_connecting (o : Session.ConnectOutcome) (c : RobotController)
  : outcome RobotController :=
  let c1 := on_display (show_status "connecting") c in
  match resolve_personality c1 with
  | None => Returned (set_state IDLE c1)
  | Some p =>
      let s := Session.new_session (gemini_api_key (settings c1)) (session_config c1 p) in
      let c2 :=
        set_conversation_timeout (Personality.conversation_timeout_seconds p)
          (set_session (Some s) c1) in
      match Session.connect o s with
      | (s', None) => Returned (set_state CONVERSATION (set_session (Some s') c2))
      | (s', Some e) =>
          if is_Exception e
          then Returned (set_state IDLE (set_session None c2))
          else Raised e (set_session (Some s') c2)
      end
  end.

(** ** The CONVERSATION handler *)

(** How [_handle_message] leaves the receive loop: the message is dealt
    with, the loop is suspended in [playback.flush()] on a live drain
    task, or an exception escaped. *)
Inductive Handling :=
| Handled
| AwaitingFlush
| Escaped (e : exn).

(** [_handle_message]; [now] is what [time.monotonic()] reads.  Tool
    handlers are pure here: what a handler does to the display is not
    tracked. *)
Definition _handle_message (now : Z) (msg : Session.ServerMessage)
    (c : RobotController) (pb : Playback.AudioPlaybackStream)
  : RobotController * Playback.AudioPlaybackStream * Handling :=
  match Session.msg_type msg with
  | Session.Audio =>
      let '(pb', spk') := Playback.play_chunk (Session.audio_data msg) (pb, audio_output c) in
      (set_audio_output spk' c, pb', Handled)
  | Session.Transcription =>
      (on_display (show_text (Session.text msg)) c, pb, Handled)
  | Session.InputTranscription =>
      (on_display (show_text ("> " +:+ Session.text msg)) (set_last_activity now c),
       pb, Handled)
  | Session.TurnComplete =>
      let c1 := set_last_activity now c in
      let '(pb', spk') := Playback.flush_begin (pb, audio_output c1) in
      (set_audio_output spk' c1, pb',
       if Playback.flush_waits pb then AwaitingFlush else Handled)
  | Session.Interrupted =>
      let '(pb', spk') := Playback.stop (pb, audio_output c) in
      (set_last_activity now (set_audio_output spk' c), pb', Handled)
  | Session.ToolCall =>
      match Tools.execute_tool (tool_server c) (Session.tool_name msg)
                               (Session.tool_args msg) with
      | Raise e => (c, pb, Escaped e)
      | Ok res =>
          let c1 := set_last_activity now c in
          match session c1 with
          | Some s =>
              if Session.is_connected s
              then
                match Session.send_tool_response (Session.tool_call_id msg) res s with
                | Ok s' => (set_session (Some s') c1, pb, Handled)
                | Raise e => (c1, pb, Escaped e)
                end
              else (c1, pb, Handled)
          | None => (c1, pb, Handled)
          end
      end
  | _ => (c, pb, Handled)
  end.

(** The task running [_receive_loop]. *)
Inductive ReceiveTask :=
| Receiving
    (* created, or suspended in [async for] waiting for a message *)
| InFlush
    (* suspended in [playback.flush()], inside [_handle_message] *)
| ReceiveDone
    (* returned, or ended by an exception *)
| ReceiveCancelled.

(** The task running [_timeout_monitor]. *)
Inductive MonitorTask :=
| MonitorCreated
| Sleeping (until : Z)
| MonitorDone
| MonitorCancelled.

(** One conversation in progress: the controller, the two pipelines
    [_run_conversation] created, its two tasks, the generator the receive
    loop iterates with what the provider will still deliver, the clock,
    and whether [asyncio.wait] has returned. *)
Record Conversation := {
  ctl : RobotController;
  capture : Capture.AudioCaptureStream;
  playback : Playback.AudioPlaybackStream;
  generator : Session.Receiver;
  stream : list Session.StreamItem;
  receive_task : ReceiveTask;
  timeout_task : MonitorTask;
  now : Z;
  raced : bool
}.

Definition set_ctl (x : RobotController) (v : Conversation) :=
  {| ctl := x; capture := capture v; playback := playback v;
     generator := generator v; stream := stream v;
     receive_task := receive_task v; timeout_task := timeout_task v;
     now := now v; raced := raced v |}.

Definition set_capture (x : Capture.AudioCaptureStream) (v : Conversation) :=
  {| ctl := ctl v; capture := x; playback := playback v;
     generator := generator v; stream := stream v;
     receive_task := receive_task v; timeout_task := timeout_task v;
     now := now v; raced := raced v |}.

Definition set_playback (x : Playback.AudioPlaybackStream) (v : Conversation) :=
  {| ctl := ctl v; capture := capture v; playback := x;
     generator := generator v; stream := stream v;
     receive_task := receive_task v; timeout_task := timeout_task v;
     now := now v; raced := raced v |}.

Definition set_source (g : Session.Receiver) (st : list Session.StreamItem)
    (v : Conversation) :=
  {| ctl := ctl v; capture := capture v; playback := playback v;
     generator := g; stream := st;
     receive_task := receive_task v; timeout_task := timeout_task v;
     now := now v; raced := raced v |}.

Definition set_receive_task (x : ReceiveTask) (v : Conversation) :=
  {| ctl := ctl v; capture := capture v; playback := playback v;
     generator := generator v; stream := stream v;
     receive_task := x; timeout_task := timeout_task v;
     now := now v; raced := raced v |}.

Definition set_timeout_task (x : MonitorTask) (v : Conversation) :=
  {| ctl := ctl v; capture := capture v; playback := playback v;
     generator := generator v; stream := stream v;
     receive_task := receive_task v; timeout_task := x;
     now := now v; raced := raced v |}.

Definition set_now (x : Z) (v : Conversation) :=
  {| ctl := ctl v; capture := capture v; playback := playback v;
     generator := generator v; stream := stream v;
     receive_task := receive_task v; timeout_task := timeout_task v;
     now := x; raced := raced v |}.

Definition set_raced (x : bool) (v : Conversation) :=
  {| ctl := ctl v; capture := capture v; playback := playback v;
     generator := generator v; stream := stream v;
     receive_task := receive_task v; timeout_task := timeout_task v;
     now := now v; raced := x |}.

(** What the event loop and the environment can do next. *)
Inductive Event :=
| Elapse (ms : N)              (* time passes *)
| RunReceive                   (* the receive task is resumed *)
| RunDrain (expired : bool)    (* the playback drain task is resumed *)
| RunMonitor                   (* the timeout monitor is resumed *)
| RunCapture (frame : bytes)   (* the capture task is resumed *)
| CallStop.                    (* someone calls [stop] *)

(** The body of [_receive_loop] for one message the generator yielded. *)
Definition receive_one (msg : Session.ServerMessage) (v : Conversation) : Conversation :=
  if negb (running (ctl v)) then set_receive_task ReceiveDone v
  else
    let '(c', pb', h) := _handle_message (now v) msg (ctl v) (playback v) in
    let v' := set_playback pb' (set_ctl c' v) in
    match h with
    | Escaped _ => set_receive_task ReceiveDone v'
    | AwaitingFlush => set_receive_task InFlush v'
    | Handled =>
        match Session.msg_type msg with
        | Session.Error | Session.GoAway => set_receive_task ReceiveDone v'
        | _ => v'
        end
    end.

(** The receive task is resumed. *)
Definition receive_step (v : Conversation) : Conversation :=
  match receive_task v with
  | Receiving =>
      match session (ctl v) with
      | None => set_receive_task ReceiveDone v
      | Some s =>
          let '(next, (g', s', rest)) := Session.anext (generator v) s (stream v) in
          let v' := set_source g' rest (set_ctl (set_session (Some s') (ctl v)) v) in
          match next with
          | Session.Yields msg => receive_one msg v'
          | Session.Suspended => v'
          | Session.StopAsyncIteration | Session.Throws _ =>
              set_receive_task ReceiveDone v'
          end
      end
  | InFlush =>
      if Playback.flush_waits (playback v) then v else set_receive_task Receiving v
  | _ => v
  end.

(** The condition of the [while] loop of [_timeout_monitor]. *)
Definition monitoring (c : RobotController) : bool :=
  running c && bool_decide (state c = CONVERSATION).

(** [elapsed >= self._conversation_timeout]. *)
Definition timed_out (t : Z) (c : RobotController) : bool :=
  (1000 * conversation_timeout c <=? t - last_activity c)%Z.

(** The timeout monitor is resumed; a sleeper whose second has not
    passed stays asleep. *)
Definition monitor_step (v : Conversation) : Conversation :=
  match timeout_task v with
  | MonitorCreated =>
      set_timeout_task
        (if monitoring (ctl v) then Sleeping (now v + 1000) else MonitorDone) v
  | Sleeping until =>
      if (now v <? until)%Z then v
      else if timed_out (now v) (ctl v) then set_timeout_task MonitorDone v
      else
        set_timeout_task
          (if monitoring (ctl v) then Sleeping (now v + 1000) else MonitorDone) v
  | _ => v
  end.

Definition capture_step (frame : bytes) (v : Conversation) : Conversation :=
  match session (ctl v) with
  | Some s =>
      let '(cap, mic, s') :=
        Capture.capture_step frame (capture v, audio_input (ctl v), s) in
      set_capture cap (set_ctl (set_session (Some s') (set_audio_input mic (ctl v))) v)
  | None =>
      (* [self._session.is_connected] on [None]: logged, streaming ends *)
      match Capture.task (capture v) with
      | Some Capture.Running =>
          set_capture (Capture.set_task (Some Capture.Finished)
                         (Capture.set_streaming false (capture v))) v
      | _ => v
      end
  end.

Definition drain_step (expired : bool) (v : Conversation) : Conversation :=
  let '(pb, spk) := Playback.drain_step expired (playback v, audio_output (ctl v)) in
  set_playback pb (set_ctl (set_audio_output spk (ctl v)) v).

Definition step (e : Event) (v : Conversation) : Conversation :=
  match e with
  | Elapse ms => set_now (now v + Z.of_N ms) v
  | RunReceive => receive_step v
  | RunDrain expired => drain_step expired v
  | RunMonitor => monitor_step v
  | RunCapture frame => capture_step frame v
  | CallStop => set_ctl (stop (ctl v)) v
  end.

Definition receive_done (v : Conversation) : bool :=
  match receive_task v with ReceiveDone | ReceiveCancelled => true | _ => false end.

Definition monitor_done (v : Conversation) : bool :=
  match timeout_task v with MonitorDone | MonitorCancelled => true | _ => false end.

(** [asyncio.wait(..., FIRST_COMPLETED)] returns once a task is done and
    the handler cancels the other.  A monitor is cancelled in its sleep.
    A receive task waiting for a message is cancelled there.  A receive
    task inside [flush] is awaiting the drain task: the cancellation is
    passed on to the drain task, comes back as the [CancelledError] of
    [await self._task], and is caught by the [except] clause of [flush];
    the receive loop goes on to its next message. *)
Definition race (v : Conversation) : Conversation :=
  if raced v then v
  else if receive_done v || monitor_done v then
    let v1 :=
      match timeout_task v with
      | MonitorCreated | Sleeping _ => set_timeout_task MonitorCancelled v
      | _ => v
      end in
    let v2 :=
      match receive_task v1 with
      | Receiving => set_receive_task ReceiveCancelled v1
      | InFlush =>
          set_receive_task Receiving
            (set_playback (Playback.cancel_task (playback v1)) v1)
      | _ => v1
      end in
    set_raced true v2
  else v.

(** The handler reaches its [finally] block once the race is over and
    every cancelled task has been awaited to its end. *)
Definition joined (v : Conversation) : bool :=
  raced v && receive_done v && monitor_done v.

(** The [finally] block of [_run_conversation]. *)
Definition conversation_exit (v : Conversation) : RobotController :=
  let '(_, mic) := Capture.stop (capture v, audio_input (ctl v)) in
  let '(_, spk) := Playback.stop (playback v, audio_output (ctl v)) in
  let c1 := set_audio_output spk (set_audio_input mic (ctl v)) in
  set_state IDLE (set_session None (close_session c1)).

(** [_run_conversation] up to the race: the pipelines are created, the
    capture is started, the clock is read and the two tasks are created. *)
Definition conversation_enter (t0 : Z) (source : list Session.StreamItem)
    (c : RobotController) : Conversation :=
  let c1 := on_display (show_status "conversation") c in
  let '(cap, mic) :=
    Capture.start (Capture.new_capture (input_sample_rate (settings c1))
                                       (audio_chunk_size (settings c1)),
                   audio_input c1) in
  {| ctl := set_last_activity t0 (set_audio_input mic c1);
     capture := cap;
     playback := Playback.new_playback (output_sample_rate (settings c1)) 3;
     generator := Session.new_receiver;
     stream := source;
     receive_task := Receiving;
     timeout_task := MonitorCreated;
     now := t0;
     raced := false |}.

Fixpoint converse (sched : list Event) (v : Conversation) : outcome RobotController :=
  if joined v then Returned (conversation_exit v)
  else
    match sched with
    | [] => Suspended (ctl v)
    | e :: rest => converse rest (race (step e v))
    end.

(** The state a schedule leads to, the race included. *)
Definition advance (sched : list Event) (v : Conversation) : Conversation :=
  foldl (fun v e => race (step e v)) v sched.

(** [_run_conversation]: [t0] is the clock on entry, [source] what the
    provider delivers, [sched] what the event loop does. *)
Definition _run_conversation (t0 : Z) (source : list Session.StreamItem)
    (sched : list Event) (c : RobotController) : outcome RobotController :=
  converse sched (conversation_enter t0 source c).

(** ** The main loop *)

(** What the environment does during one pass of the main loop. *)
Record Round := {
  idle_sched : list IdleTick;
  connect_outcome : Session.ConnectOutcome;
  conversation_t0 : Z;
  conversation_source : list Session.StreamItem;
  conversation_sched : list Event
}.

(** The [while self._running] loop of [start]. *)
Fixpoint main_loop (rounds : list Round) (c : RobotController) : outcome RobotController :=
  if negb (running c) then Returned c
  else
    match state c with
    | SHUTTING_DOWN => Returned c
    | st =>
        match rounds with
        | [] => Suspended c
        | r :: rest =>
            let handled :=
              match st with
              | IDLE => _run_idle (idle_sched r) c
              | CONNECTING => _run_connecting (connect_outcome r) c
              | _ => _run_conversation (conversation_t0 r) (conversation_source r)
                                       (conversation_sched r) c
              end in
            match handled with
            | Returned c' => main_loop rest c'
            | other => other
            end
        end
    end.

(** The [finally] block of [start]. *)
Definition shut_down (c : RobotController) : RobotController :=
  _cleanup (set_state SHUTTING_DOWN c).

(** The first three statements of [start]. *)
Definition start_enter (c : RobotController) : RobotController :=
  set_state IDLE (set_stop_event (Some false) (set_running true c)).

(** [start]: a [CancelledError] is caught and logged; any other exception
    leaves through the [finally] block. *)
Definition start (rounds : list Round) (c : RobotController) : outcome RobotController :=
  match main_loop rounds (start_enter c) with
  | Returned c' => Returned (shut_down c')
  | Raised e c' =>
      if is_Exception e then Raised e (shut_down c') else Returned (shut_down c')
  | Suspended c' => Suspended c'
  end.

End Controller.

(* ================================================================== *)
(** * Vocabulary of the properties                                     *)
(* ================================================================== *)

Module Spec.
Import Py Hardware.

(** ** Playback traces *)

(** No frame is queued behind a flush sentinel. *)
Fixpoint sentinel_last (q : list (option bytes)) : bool :=
  match q with
  | [] => true
  | Some _ :: q' => sentinel_last q'
  | None :: q' => bool_decide (omap id q' = [])
  end.

(** The state of a pipeline that was handed the single frame [d] when
    the speaker had written [w0]: while the drain task runs, [d] is
    either still held or already written, and nothing else is; once the
    task has finished, [d] has been written. *)
Definition carries (d : bytes) (w0 : list bytes) (st : Playback.state) : Prop :=
  match Playback.task st.1 with
  | Some (Playback.Running _) =>
      Playback.playing st.1 = true ∧ out_open st.2 = true
      ∧ sentinel_last (Playback.queue st.1) = true
      ∧ ∃ w, written st.2 = w0 ++ w ∧ w ++ Playback.pending st.1 = [d]
  | Some Playback.Finished => written st.2 = w0 ++ [d]
  | _ => False
  end.

(** How often a timer runs out along a list of drain steps. *)
Definition expiries (ds : list bool) : nat :=
  length (filter (fun b => b = true) ds).

(** ** The IDLE race *)

(** The first turn in which the wake event or the stop signal fires. *)
Definition first_fire (sched : list Controller.IdleTick) : option Controller.IdleTick :=
  head (filter (fun t => Controller.wake_fires t || Controller.stop_called t = true) sched).

(** The wake event fires in some turn, and [stop] is called neither
    before that turn nor in it. *)
Definition wake_before_stop (sched : list Controller.IdleTick) : Prop :=
  ∃ (i : nat) t,
    sched !! i = Some t ∧ Controller.wake_fires t = true
    ∧ ∀ (j : nat) t', j ≤ i → sched !! j = Some t' → Controller.stop_called t' = false.

(** ** Connection attempts *)

(** The session open succeeds. *)
Definition succeeds (o : Session.ConnectOutcome) : bool :=
  match o with Session.Connects => true | _ => false end.

(** The session open fails: the provider raises an [Exception]. *)
Definition fails (o : Session.ConnectOutcome) : bool :=
  match o with
  | Session.ClientRaises e | Session.EnterRaises e => is_Exception e
  | Session.Connects => false
  end.

(** ** Conversations *)

(** The session the controller holds is open for sending. *)
Definition session_usable (c : Controller.RobotController) : Prop :=
  ∃ s, Controller.session c = Some s ∧ Session.unusable s = false.

(** While the controller runs, a generator that has passed its guard and
    has not returned reads from a usable session. *)
Definition receiving_ok (v : Controller.Conversation) : Prop :=
  Session.started (Controller.generator v) = true →
  Session.exhausted (Controller.generator v) = false →
  Controller.running (Controller.ctl v) = true →
  session_usable (Controller.ctl v).

(** The handler is awaiting a receive task that survived its
    cancellation, and the provider has nothing more to deliver. *)
Definition stuck (v : Controller.Conversation) : Prop :=
  Controller.raced v = true
  ∧ Controller.receive_task v = Controller.Receiving
  ∧ Controller.stream v = []
  ∧ Session.started (Controller.generator v) = true
  ∧ Session.buffered (Controller.generator v) = []
  ∧ Session.at_error_yield (Controller.generator v) = false
  ∧ Session.exhausted (Controller.generator v) = false
  ∧ is_Some (Controller.session (Controller.ctl v))
  ∧ Controller.state (Controller.ctl v) = Controller.CONVERSATION.

(** A pipeline's life: [start], some rounds of the capture loop, [stop]. *)
Definition capture_session (frames : list bytes)
    (st : Capture.AudioCaptureStream * AudioInput * Session.GeminiSession)
  : Capture.AudioCaptureStream * AudioInput :=
  let '(cap, mic, sess) := st in
  let '(cap1, mic1) := Capture.start (cap, mic) in
  let '(cap2, mic2, _) :=
    foldl (fun st frame => Capture.capture_step frame st) (cap1, mic1, sess) frames in
  Capture.stop (cap2, mic2).

End Spec.

(* ================================================================== *)
(** * Sample inputs                                                    *)
(* ================================================================== *)

Module Samples.
Import Py Hardware.

(** A tool with one required and one optional parameter, and a tool
    without parameters whose handler returns a string. *)
Definition greet_tool : Tools.ToolDefinition :=
  {| Tools.name := "greet"; Tools.description := "Say hello";
     Tools.parameters :=
       {[ "name" := {| Tools.type := "string";
                       Tools.param_description := "Person name";
                       Tools.required := true |};
          "title" := {| Tools.type := "string";
                        Tools.param_description := "Form of address";
                        Tools.required := false |} ]};
     Tools.handler :=
       fun args => Tools.ReturnsDict {[ "greeting" := default PNone (args !! "name") ]} |}.

Definition ping_tool : Tools.ToolDefinition :=
  {| Tools.name := "ping"; Tools.description := "Ping"; Tools.parameters := ∅;
     Tools.handler := fun _ => Tools.ReturnsOther (PStr "pong") |}.

Definition tool_server : Tools.ToolServer :=
  Tools.register_tool greet_tool (Tools.register_tool ping_tool Tools.new_server).

Definition session_config : Session.GeminiSessionConfig :=
  {| Session.model := "test-model"; Session.voice := "Kore";
     Session.system_prompt := "Be brief."; Session.config_tools := [];
     Session.vad_sensitivity := "MEDIUM" |}.

(** A session that was connected and then closed. *)
Definition closed_session : Session.GeminiSession :=
  Session.close (Session.connect Session.Connects
                   (Session.new_session "test-key" session_config)).1.

Definition open_session : Session.GeminiSession :=
  (Session.connect Session.Connects (Session.new_session "test-key" session_config)).1.

Definition personality (nm vc : string) (seconds : Z) : Personality.PersonalityConfig :=
  {| Personality.name := nm; Personality.voice := vc;
     Personality.system_prompt := "You are a helpful robot.";
     Personality.description := "";
     Personality.conversation_timeout_seconds := seconds;
     Personality.vad_sensitivity := "MEDIUM" |}.

Definition personalities : Personality.PersonalityManager :=
  {| Personality.personalities :=
       {[ "friendly" := (personality "Friendly" "Puck" 30);
          "professional" := (personality "Professional" "Kore" 30);
          "terse" := (personality "Terse" "Charon" 1) ]} |}.

Definition settings (default_name : string) : Controller.Settings :=
  {| Controller.gemini_api_key := "test-key";
     Controller.gemini_model := "test-model";
     Controller.input_sample_rate := 16000;
     Controller.output_sample_rate := 24000;
     Controller.audio_chunk_size := 1024;
     Controller.default_personality := default_name;
     Controller.settings_conversation_timeout := 30 |}.

(** A controller as [__init__] leaves it. *)
Definition controller (default_name : string) : Controller.RobotController :=
  Controller.new_controller (settings default_name)
    {| in_open := false |} {| out_open := false; written := [] |}
    (Some {| last_text := ""; last_status := "" |}) personalities tool_server.

(** The controller at the head of the main loop, in CONNECTING, and in
    CONVERSATION with an open session. *)
Definition idle_controller (default_name : string) : Controller.RobotController :=
  Controller.start_enter (controller default_name).

Definition connecting_controller (default_name : string) : Controller.RobotController :=
  Controller.set_state Controller.CONNECTING (idle_controller default_name).

Definition conversing_controller (default_name : string) : Controller.RobotController :=
  match Controller._run_connecting Session.Connects (connecting_controller default_name) with
  | Controller.Returned c | Controller.Raised _ c | Controller.Suspended c => c
  end.

Definition conversing_session (default_name : string) : Session.GeminiSession :=
  default open_session (Controller.session (conversing_controller default_name)).

(** A round of the main loop in which [stop] is called while the
    controller waits in IDLE. *)
Definition stop_while_idle : Controller.Round :=
  {| Controller.idle_sched :=
       [ {| Controller.wake_fires := false; Controller.stop_called := false |};
         {| Controller.wake_fires := false; Controller.stop_called := true |} ];
     Controller.connect_outcome := Session.Connects;
     Controller.conversation_t0 := 0;
     Controller.conversation_source := [];
     Controller.conversation_sched := [] |}.

(** A provider message that carries one audio part and ends the turn. *)
Definition reply (data : bytes) : Session.LiveServerMessage :=
  {| Session.lsm_setup_complete := false;
     Session.server_content :=
       Some {| Session.model_turn :=
                 Some [{| Session.inline_data := Some data;
                          Session.part_text := None |}];
               Session.output_transcription := None;
               Session.sc_input_transcription := None;
               Session.sc_interrupted := false;
               Session.sc_turn_complete := true |};
     Session.lsm_tool_call := None;
     Session.lsm_tool_call_cancellation := None;
     Session.lsm_go_away := false |}.

(** A provider message that calls a tool nobody registered. *)
Definition unknown_call : Session.LiveServerMessage :=
  {| Session.lsm_setup_complete := false;
     Session.server_content := None;
     Session.lsm_tool_call :=
       Some [{| Session.fc_id := Some "c1";
                Session.fc_name := Some "nonexistent_tool";
                Session.fc_args := Some {[ "text" := PStr "hi" ]} |}];
     Session.lsm_tool_call_cancellation := None;
     Session.lsm_go_away := false |}.

(** The conversation that has just begun with [unknown_call] on its way,
    and what the generator's first step yields from it. *)
Definition call_conversation : Controller.Conversation :=
  Controller.conversation_enter 0 [Session.SdkMessage unknown_call]
    (conversing_controller "professional").

Definition call_pull
  : Session.Next * (Session.Receiver * Session.GeminiSession * list Session.StreamItem) :=
  Session.anext Session.new_receiver (conversing_session "professional")
                [Session.SdkMessage unknown_call].

(** A short reply under a one-second silence timeout.  The reply arrives
    40 ms into the conversation; the drain task takes the frame and the
    sentinel, writes the frame, and then waits on the empty queue for its
    two-second timer; the monitor polls at 1000 ms (960 ms of silence) and
    at 2000 ms (1960 ms of silence). *)
Definition short_reply_source : list Session.StreamItem :=
  [Session.SdkMessage (reply [x01; x02; x03; x04])].

Definition short_reply_schedule : list Controller.Event :=
  [ Controller.RunMonitor; Controller.Elapse 40;
    Controller.RunReceive; Controller.RunReceive;
    Controller.RunDrain false; Controller.RunDrain false;
    Controller.RunDrain false; Controller.RunDrain false;
    Controller.RunDrain false;
    Controller.Elapse 960; Controller.RunMonitor;
    Controller.RunDrain false;
    Controller.Elapse 1000; Controller.RunMonitor ].

End Samples.

(* ================================================================== *)
(** * Using the remote session client over time                        *)
(* ================================================================== *)

Module Iteration.
Import Py Session.

Global Instance MessageType_eq_dec : EqDecision MessageType.
Proof. solve_decision. Defined.

(** [async for msg in session.receive()] for at most [fuel] steps of the
    generator: the messages yielded and, unless the fuel ran out first,
    how the step that yielded none ended. *)
Fixpoint collect (fuel : nat) (g : Receiver) (s : GeminiSession)
    (stream : list StreamItem)
  : list ServerMessage * option (Next * (Receiver * GeminiSession * list StreamItem)) :=
  match fuel with
  | 0 => ([], None)
  | S fuel' =>
      match anext g s stream with
      | (Yields msg, (g', s', rest)) =>
          let '(msgs, final) := collect fuel' g' s' rest in (msg :: msgs, final)
      | other => ([], Some other)
      end
  end.

(** A generator that has passed its guard and waits for the provider. *)
Definition waiting_receiver : Receiver :=
  {| started := true; buffered := []; at_error_yield := false; exhausted := false |}.

(** What the client's caller can do with a session. *)
Inductive Call :=
| CallConnect (o : ConnectOutcome)
| CallSendAudio (chunk : bytes)
| CallSendToolResponse (call_id : string) (res : dict)
| CallNext (g : Receiver) (stream : list StreamItem)
    (* one step of a [receive()] generator in state [g] *)
| CallClose.

(** The session after a call; a call that raises leaves it as it was. *)
Definition call (s : GeminiSession) (c : Call) : GeminiSession :=
  match c with
  | CallConnect o => (connect o s).1
  | CallSendAudio chunk =>
      match send_audio chunk s with Ok s' => s' | Raise _ => s end
  | CallSendToolResponse call_id res =>
      match send_tool_response call_id res s with Ok s' => s' | Raise _ => s end
  | CallNext g stream => (anext g s stream).2.1.2
  | CallClose => close s
  end.

Definition calls (cs : list Call) (s : GeminiSession) : GeminiSession :=
  foldl call s cs.

End Iteration.

(* ================================================================== *)
(** * Vocabulary of the further properties                             *)
(* ================================================================== *)

Module Spec2.
Import Py Hardware.

(** The messages a run of provider messages parses to, in order, with
    the call names threaded through. *)
Fixpoint parse_all (ms : list Session.LiveServerMessage) (names : gmap string string)
  : list Session.ServerMessage * gmap string string :=
  match ms with
  | [] => ([], names)
  | m :: rest =>
      let '(msgs, names') := Session._parse_message m names in
      let '(more, names'') := parse_all rest names' in
      (msgs ++ more, names'')
  end.

(** The ids of the function calls a provider message carries. *)
Definition call_ids (m : Session.LiveServerMessage) : list string :=
  match Session.lsm_tool_call m with
  | Some fcs => (fun fc => default "" (Session.fc_id fc)) <$> fcs
  | None => []
  end.

(** The audio payloads of a provider message's parts, empty ones
    dropped. *)
Definition audio_parts (m : Session.LiveServerMessage) : list bytes :=
  match Session.server_content m with
  | Some sc =>
      match Session.model_turn sc with
      | Some parts => omap (fun p => Session.nonempty_bytes (Session.inline_data p)) parts
      | None => []
      end
  | None => []
  end.

(** The capture loop over the frames the microphone delivers, one round
    per frame. *)
Definition capture_rounds (frames : list bytes)
    (st : Capture.AudioCaptureStream * AudioInput * Session.GeminiSession)
  : Capture.AudioCaptureStream * AudioInput * Session.GeminiSession :=
  foldl (fun st frame => Capture.capture_step frame st) st frames.

(** What ends the receive loop when the generator is stepped: a
    go_away or error message, the end of the generator, or an exception
    out of it. *)
Definition ends_the_loop (next : Session.Next) : Prop :=
  match next with
  | Session.Yields msg =>
      Session.msg_type msg = Session.GoAway ∨ Session.msg_type msg = Session.Error
  | Session.StopAsyncIteration | Session.Throws _ => True
  | Session.Suspended => False
  end.

(** The controller's session is connected only while it holds the
    provider's context manager, as every session made by
    [_run_connecting] is. *)
Definition session_wf (c : Controller.RobotController) : Prop :=
  ∀ s, Controller.session c = Some s →
       Session.connected s = true → Session.session_cm s = true.

(** After [stop]: the controller does not run, and its session, if it
    has one, cannot send and has sent the audio [sent] lists. *)
Definition stopped (sent : option (list bytes)) (c : Controller.RobotController) : Prop :=
  Controller.running c = false
  ∧ Session.sent_audio <$> Controller.session c = sent
  ∧ ∀ s, Controller.session c = Some s → Session.unusable s = true.

(** ** Playback of a whole turn *)





(** ** What counts as activity *)

(** The kinds of message at which [_handle_message] reads the clock
    into [_last_activity]. *)
Definition refreshes (t : Session.MessageType) : bool :=
  match t with
  | Session.InputTranscription | Session.TurnComplete
  | Session.Interrupted | Session.ToolCall => true
  | _ => false
  end.

(** A provider item none of whose messages is of such a kind: audio and
    output transcriptions, setup, cancellation and go_away notices, an
    exception, the end of the stream. *)
Definition quiet_item (i : Session.StreamItem) : Prop :=
  match i with
  | Session.SdkMessage m =>
      ∀ names, Forall (fun x => refreshes (Session.msg_type x) = false)
                      (Session._parse_message m names).1
  | _ => True
  end.

End Spec2.

(* ================================================================== *)
(** * The detection loop (src/wake_word/detector.py)                   *)
(* ================================================================== *)

Module Detection.
Import Py Hardware.

(** OpenWakeWord takes frames of 1280 samples of two bytes. *)
Definition _OWW_FRAME_BYTES : nat := 1280 * 2.

(** [pause] and [resume]; resetting the model leaves no trace here. *)
Definition pause (det : WakeWord.WakeWordDetector) : WakeWord.WakeWordDetector :=
  {| WakeWord.listening := WakeWord.listening det; WakeWord.paused := true;
     WakeWord.has_task := WakeWord.has_task det;
     WakeWord.has_model := WakeWord.has_model det |}.

Definition resume (det : WakeWord.WakeWordDetector) : WakeWord.WakeWordDetector :=
  {| WakeWord.listening := WakeWord.listening det; WakeWord.paused := false;
     WakeWord.has_task := WakeWord.has_task det;
     WakeWord.has_model := WakeWord.has_model det |}.

Definition set_listening (b : bool) (det : WakeWord.WakeWordDetector)
  : WakeWord.WakeWordDetector :=
  {| WakeWord.listening := b; WakeWord.paused := WakeWord.paused det;
     WakeWord.has_task := WakeWord.has_task det;
     WakeWord.has_model := WakeWord.has_model det |}.

(** The task running [_detection_loop]: its local [audio_buffer], the
    frames it has handed to the model and the number of times it has
    called [on_detected], in order, and whether it has ended. *)
Record Loop := {
  audio_buffer : bytes;
  fed : list bytes;
  detections : nat;
  ended : bool
}.

Definition new_loop : Loop :=
  {| audio_buffer := []; fed := []; detections := 0; ended := false |}.

(** What the model does with a frame: it returns scores, of which one
    reaches the sensitivity ([hit]) or none does, or it raises. *)
Inductive Predict :=
| Scores (hit : bool)
| PredictRaises (e : exn).

(** What the environment contributes to one round of the loop: the
    chunk the microphone delivers, and the model's answer should a frame
    be complete. *)
Record Round := { chunk : bytes; prediction : Predict }.

(** The loop's [finally]: the flag is cleared and the task is over. *)
Definition finish (det : WakeWord.WakeWordDetector) (lp : Loop)
  : WakeWord.WakeWordDetector * Loop :=
  (set_listening false det,
   {| audio_buffer := audio_buffer lp; fed := fed lp;
      detections := detections lp; ended := true |}).

(** One round of [while self._listening]. *)
Definition round (r : Round) (st : WakeWord.WakeWordDetector * Loop * AudioInput)
  : WakeWord.WakeWordDetector * Loop * AudioInput :=
  let '(det, lp, mic) := st in
  if ended lp then st
  else if negb (WakeWord.listening det) then (finish det lp, mic)
  else
    match read_chunk (chunk r) mic with
    | Raise _ => (finish det lp, mic)
    | Ok data =>
        if WakeWord.paused det then st
        else
          let buf := audio_buffer lp ++ data in
          if length buf <? _OWW_FRAME_BYTES
          then (det, {| audio_buffer := buf; fed := fed lp;
                        detections := detections lp; ended := false |}, mic)
          else
            let frame_data := take _OWW_FRAME_BYTES buf in
            let rest := drop _OWW_FRAME_BYTES buf in
            match prediction r with
            | PredictRaises _ =>
                (finish det {| audio_buffer := rest; fed := fed lp ++ [frame_data];
                               detections := detections lp; ended := false |}, mic)
            | Scores true =>
                (det, {| audio_buffer := []; fed := fed lp ++ [frame_data];
                         detections := S (detections lp); ended := false |}, mic)
            | Scores false =>
                (det, {| audio_buffer := rest; fed := fed lp ++ [frame_data];
                         detections := detections lp; ended := false |}, mic)
            end
    end.

Definition rounds (rs : list Round) (st : WakeWord.WakeWordDetector * Loop * AudioInput)
  : WakeWord.WakeWordDetector * Loop * AudioInput :=
  foldl (fun st r => round r st) st rs.

End Detection.

(* ================================================================== *)
(** * Playing a file (src/audio/playback.py, play_file)                *)
(* ================================================================== *)

Module PlayFile.
Import Py Hardware Playback.







End PlayFile.

(* ================================================================== *)
(** * The desktop microphone (src/hardware/stubs.py, StubAudioInput)   *)
(* ================================================================== *)

Module Stubs.
Import Py.

(** Where a slice bound [i] falls in a sequence of length [n]: negative
    bounds count from the end, and every bound is clamped to the
    sequence. *)
Definition bound (i : Z) (n : nat) : nat :=
  Z.to_nat (if (i <? 0)%Z then Z.max (i + Z.of_nat n) 0 else Z.min i (Z.of_nat n)).

(** [s[lo:hi]], [s[lo:]] and [s[:hi]]. *)
Definition slice {A} (lo hi : Z) (s : list A) : list A :=
  take (bound hi (length s) - bound lo (length s)) (drop (bound lo (length s)) s).

Definition slice_from {A} (lo : Z) (s : list A) : list A :=
  drop (bound lo (length s)) s.

Definition slice_to {A} (hi : Z) (s : list A) : list A :=
  take (bound hi (length s)) s.

Record StubAudioInput := {
  stream_open : bool;
  sample_rate : Z;
  channels : Z;
  chunk_size : Z;
  pcm_data : bytes;
  read_pos : Z
}.

(** [__init__]. *)
Definition new_input : StubAudioInput :=
  {| stream_open := false; sample_rate := 16000; channels := 1;
     chunk_size := 1024; pcm_data := []; read_pos := 0 |}.

(** What [open_stream] finds at [wav_path]: no path or no file, a file
    [wave.open] rejects, or a WAV file with its frames. *)
Inductive WavSource :=
| NoWav
| BadWav (e : exn)
| WavFrames (frames : bytes).

(** [open_stream]: the stub after the call, and the exception that
    escaped, if any.  A second of silence is [sample_rate] samples of
    two zero bytes; [struct.pack] rejects a negative count. *)
Definition open_stream (rate chans size : Z) (src : WavSource) (a : StubAudioInput)
  : StubAudioInput * option exn :=
  let a1 := {| stream_open := stream_open a; sample_rate := rate; channels := chans;
               chunk_size := size; pcm_data := pcm_data a; read_pos := 0 |} in
  let opened (data : bytes) :=
    {| stream_open := true; sample_rate := rate; channels := chans;
       chunk_size := size; pcm_data := data; read_pos := 0 |} in
  match src with
  | WavFrames frames => (opened frames, None)
  | BadWav e => (a1, Some e)
  | NoWav =>
      if (rate <? 0)%Z then (a1, Some (OtherError "bad char in struct format"))
      else (opened (replicate (2 * Z.to_nat rate) x00), None)
  end.

Definition set_read_pos (p : Z) (a : StubAudioInput) : StubAudioInput :=
  {| stream_open := stream_open a; sample_rate := sample_rate a;
     channels := channels a; chunk_size := chunk_size a;
     pcm_data := pcm_data a; read_pos := p |}.

(** [read_chunk]. *)
Definition read_chunk (a : StubAudioInput) : result (bytes * StubAudioInput) :=
  if negb (stream_open a) then Raise (RuntimeError "Audio input stream is not open.")
  else
    let end_ := (read_pos a + chunk_size a)%Z in
    if (end_ <=? Z.of_nat (length (pcm_data a)))%Z
    then Ok (slice (read_pos a) end_ (pcm_data a), set_read_pos end_ a)
    else
      let chunk := slice_from (read_pos a) (pcm_data a) in
      let remaining := (chunk_size a - Z.of_nat (length chunk))%Z in
      Ok (chunk ++ slice_to remaining (pcm_data a), set_read_pos remaining a).

(** [n] reads in a row, as long as none raises. *)
Fixpoint read_chunks (n : nat) (a : StubAudioInput) : result (list bytes * StubAudioInput) :=
  match n with
  | 0 => Ok ([], a)
  | S n' =>
      match read_chunk a with
      | Raise e => Raise e
      | Ok (chunk, a') =>
          match read_chunks n' a' with
          | Raise e => Raise e
          | Ok (chunks, a'') => Ok (chunk :: chunks, a'')
          end
      end
  end.

(** [close_stream]. *)
Definition close_stream (a : StubAudioInput) : StubAudioInput :=
  {| stream_open := false; sample_rate := sample_rate a; channels := channels a;
     chunk_size := chunk_size a; pcm_data := pcm_data a; read_pos := 0 |}.

Definition is_open (a : StubAudioInput) : bool := stream_open a.

End Stubs.

(* ================================================================== *)
(** * The voice catalog (src/personality/voices.py)                    *)
(* ================================================================== *)

Module Voices.
Import Py.

Record VoiceInfo := {
  voice_name : string;
  voice_description : string;
  personality_fit : string
}.

Definition entry (nm descr fit : string) : string * VoiceInfo :=
  (nm, {| voice_name := nm; voice_description := descr; personality_fit := fit |}).

(** [VOICE_CATALOG], in the order of the source. *)
Definition VOICE_CATALOG : list (string * VoiceInfo) :=
  [ entry "Achird" "Friendly" "Default warm assistant";
    entry "Sulafat" "Warm" "Caring, empathetic";
    entry "Puck" "Upbeat" "Energetic, fun";
    entry "Zephyr" "Bright" "Cheerful, positive";
    entry "Kore" "Firm" "Professional, authoritative";
    entry "Charon" "Informative" "Educational, factual";
    entry "Fenrir" "Excitable" "Enthusiastic, animated";
    entry "Leda" "Youthful" "Young, casual";
    entry "Aoede" "Breezy" "Relaxed, easy-going";
    entry "Gacrux" "Mature" "Serious, experienced";
    entry "Sadaltager" "Knowledgeable" "Expert, teacher-like";
    entry "Vindemiatrix" "Gentle" "Soft, calming";
    entry "Sadachbia" "Lively" "Spirited, engaging";
    entry "Zubenelgenubi" "Casual" "Laid-back, informal";
    entry "Pulcherrima" "Forward" "Direct, confident";
    entry "Solaria" "Crisp" "Clear, articulate";
    entry "Umbriel" "Easy-going" "Relaxed, approachable";
    entry "Algieba" "Smooth" "Polished, refined";
    entry "Despina" "Smooth" "Polished, pleasant";
    entry "Erinome" "Clear" "Precise, well-spoken";
    entry "Algenib" "Gravelly" "Rugged, distinctive";
    entry "Rasalgethi" "Informative" "Thoughtful, measured";
    entry "Laomedeia" "Upbeat" "Positive, cheerful";
    entry "Achernar" "Soft" "Gentle, soothing";
    entry "Enceladus" "Breathy" "Intimate, quiet";
    entry "Iapetus" "Clear" "Bright, transparent";
    entry "Callirrhoe" "Easy-going" "Calm, comfortable";
    entry "Autonoe" "Bright" "Vivid, engaging";
    entry "Orus" "Firm" "Strong, decisive";
    entry "Schedar" "Even" "Balanced, steady" ].

(** The first entry of the catalog whose key satisfies [p]. *)
Definition first_voice (p : string -> bool) : option VoiceInfo :=
  snd <$> find (fun kv => p kv.1) VOICE_CATALOG.

(** [get_voice], on ASCII names: the exact key first, then the first key
    that is equal in lower case. *)
Definition get_voice (nm : string) : result VoiceInfo :=
  match first_voice (fun k => bool_decide (k = nm)) with
  | Some v => Ok v
  | None =>
      match first_voice (fun k => bool_decide (lower k = lower nm)) with
      | Some v => Ok v
      | None =>
          Raise (KeyError ("Voice '" +:+ nm +:+ "' not found. Available voices: "
                           +:+ join ", " VOICE_CATALOG.*1))
      end
  end.

Definition list_voices : list VoiceInfo := VOICE_CATALOG.*2.

(** Text without a byte outside ASCII, where [lower] is [str.lower]. *)
Fixpoint ascii_text (s : string) : bool :=
  match s with
  | EmptyString => true
  | String c s' => (N_of_ascii c <? 128)%N && ascii_text s'
  end.

End Voices.

(* ================================================================== *)
(** * Further sample inputs                                            *)
(* ================================================================== *)

Module Samples2.
Import Py Hardware.

(** What a run ended with, whichever way it ended. *)
Definition reached {A} (o : Controller.outcome A) : A :=
  match o with
  | Controller.Returned a | Controller.Raised _ a | Controller.Suspended a => a
  end.

(** Three microphone frames. *)
Definition frames : list bytes := [[x01; x02]; [x03; x04]; [x05; x06]].

(** A capture pipeline that has been started on a closed microphone. *)
Definition capturing : Capture.AudioCaptureStream * AudioInput :=
  Capture.start (Capture.new_capture 16000 1024, {| in_open := false |}).

(** A provider message with two audio parts, the second one empty, and
    no end of turn. *)
Definition audio_only : Session.LiveServerMessage :=
  {| Session.lsm_setup_complete := false;
     Session.server_content :=
       Some {| Session.model_turn :=
                 Some [{| Session.inline_data := Some [x0a; x0b];
                          Session.part_text := None |};
                       {| Session.inline_data := Some [];
                          Session.part_text := Some "hello" |}];
               Session.output_transcription := None;
               Session.sc_input_transcription := None;
               Session.sc_interrupted := false;
               Session.sc_turn_complete := false |};
     Session.lsm_tool_call := None;
     Session.lsm_tool_call_cancellation := None;
     Session.lsm_go_away := false |}.

(** A conversation that the provider ends at once. *)
Definition ended_by_provider : Controller.outcome Controller.RobotController :=
  Controller._run_conversation 0 [Session.SdkEnds] [Controller.RunReceive]
    (Samples.conversing_controller "professional").

(** A conversation that has just begun, the provider about to say
    go_away. *)
Definition go_away : Session.LiveServerMessage :=
  {| Session.lsm_setup_complete := false; Session.server_content := None;
     Session.lsm_tool_call := None; Session.lsm_tool_call_cancellation := None;
     Session.lsm_go_away := true |}.

Definition leaving : Controller.Conversation :=
  Controller.conversation_enter 0 [Session.SdkMessage go_away]
    (Samples.conversing_controller "professional").

(** The wake word fires, the connection succeeds, one frame is captured
    and the provider says go_away. *)
Definition wake_talk_leave : Controller.Round :=
  {| Controller.idle_sched :=
       [ {| Controller.wake_fires := true; Controller.stop_called := false |} ];
     Controller.connect_outcome := Session.Connects;
     Controller.conversation_t0 := 0;
     Controller.conversation_source := [Session.SdkMessage go_away];
     Controller.conversation_sched :=
       [Controller.RunCapture [x01; x02]; Controller.RunReceive] |}.

(** Four passes of the main loop, each using its part of a round: idle
    until the wake word, connecting, a conversation, idle until stop. *)
Definition whole_run : list Controller.Round :=
  [wake_talk_leave; wake_talk_leave; wake_talk_leave; Samples.stop_while_idle].

(** A conversation in which two frames have been captured. *)
Definition talking : Controller.Conversation :=
  Controller.advance
    [Controller.RunCapture [x01; x02]; Controller.RunCapture [x03; x04]]
    (Controller.conversation_enter 0 [] (Samples.conversing_controller "professional")).

(** A detector that listens on a microphone it has opened. *)
Definition listening : WakeWord.WakeWordDetector * AudioInput :=
  WakeWord.start (WakeWord.new_detector, {| in_open := false |}).

(** Rounds of the detection loop with chunks of 2048 bytes and no wake
    word. *)
Definition uneventful : list Detection.Round :=
  [ {| Detection.chunk := replicate 2048 x01; Detection.prediction := Detection.Scores false |};
    {| Detection.chunk := replicate 2048 x02; Detection.prediction := Detection.Scores false |};
    {| Detection.chunk := replicate 2048 x03; Detection.prediction := Detection.Scores false |} ].


(** A stub microphone opened on ten bytes, read in chunks of four. *)
Definition stub : Stubs.StubAudioInput :=
  (Stubs.open_stream 16000 1 4
     (Stubs.WavFrames [x00; x01; x02; x03; x04; x05; x06; x07; x08; x09])
     Stubs.new_input).1.

End Samples2.

(* ================================================================== *)
(** * Properties of the tool dispatcher                                *)
(* ================================================================== *)

Section ToolDispatcher.
Import Py Tools.

Lemma registry_wf_new : registry_wf new_server.
Proof. intros k t H. cbn in H. by rewrite lookup_empty in H. Qed.

Lemma registry_wf_register tool srv :
  registry_wf srv → registry_wf (register_tool tool srv).
Proof.
  intros Hwf k t. cbn. rewrite lookup_insert.
  case_decide as Hk; [intros [= <-]; done | apply Hwf].
Qed.

(** The required list of a declaration holds exactly the parameters
    registered with the required flag. *)
Lemma declared_required_spec tool p :
  p ∈ declared_required (declare tool) ↔
  ∃ prm, parameters tool !! p = Some prm ∧ required prm = true.
Proof.
  unfold declared_required, declare. cbn.
  case_decide as He; cbn.
  - rewrite He. split.
    + intros H. by apply not_elem_of_nil in H.
    + intros (prm & H & _). by rewrite lookup_empty in H.
  - rewrite list_elem_of_fmap. split.
    + intros ([k prm] & -> & Hin). apply list_elem_of_filter in Hin as [Hreq Hin].
      apply elem_of_map_to_list in Hin. eauto.
    + intros (prm & Hl & Hreq). exists (p, prm). split; [done|].
      apply list_elem_of_filter. split; [done|]. by apply elem_of_map_to_list.
Qed.

(** C8.  Round trip: after a tool is registered, the declaration list is
    one block that holds exactly one declaration under the tool's name,
    and that declaration carries the tool's name, its description, and as
    required parameters exactly the parameters registered as required. *)
Theorem register_then_declare_roundtrip (srv : ToolServer) (tool : ToolDefinition) :
  registry_wf srv →
  ∃ decls d,
    get_tool_declarations (register_tool tool srv)
      = Some [ {| function_declarations := decls |} ]
    ∧ d ∈ decls
    ∧ (∀ d', d' ∈ decls → decl_name d' = name tool → d' = d)
    ∧ decl_name d = name tool
    ∧ decl_description d = description tool
    ∧ (∀ p, p ∈ declared_required d ↔
            ∃ prm, parameters tool !! p = Some prm ∧ required prm = true).
Proof.
  intros Hwf.
  eexists _, (declare tool). split.
  { unfold get_tool_declarations. case_decide as He; [|reflexivity].
    cbn in He. by apply insert_non_empty in He. }
  split.
  { apply list_elem_of_fmap. exists tool. split; [done|].
    apply list_elem_of_fmap. exists (name tool, tool). split; [done|].
    apply elem_of_map_to_list. cbn. apply lookup_insert_eq. }
  split.
  { intros d' Hd' Hname.
    apply list_elem_of_fmap in Hd' as (t & -> & Ht).
    apply list_elem_of_fmap in Ht as ([k t'] & -> & Hkt).
    apply elem_of_map_to_list in Hkt. cbn in *.
    pose proof (registry_wf_register tool srv Hwf k t' Hkt) as Hk. cbn in Hk.
    rewrite Hname in Hk. subst k. rewrite lookup_insert_eq in Hkt.
    by injection Hkt as ->. }
  split; [done|]. split; [done|].
  apply declared_required_spec.
Qed.

Lemma register_then_declare_roundtrip_witness :
  ∃ decls d,
    get_tool_declarations
      (register_tool Samples.greet_tool (register_tool Samples.ping_tool new_server))
      = Some [ {| function_declarations := decls |} ]
    ∧ d ∈ decls
    ∧ (∀ d', d' ∈ decls → decl_name d' = name Samples.greet_tool → d' = d)
    ∧ decl_name d = name Samples.greet_tool
    ∧ decl_description d = description Samples.greet_tool
    ∧ (∀ p, p ∈ declared_required d ↔
            ∃ prm, parameters Samples.greet_tool !! p = Some prm ∧ required prm = true).
Proof.
  apply (register_then_declare_roundtrip
           (register_tool Samples.ping_tool new_server) Samples.greet_tool).
  apply registry_wf_register, registry_wf_new.
Defined.

(** What [execute_tool] returns for a name that is not registered, for a
    handler that raises, and for a handler that returns something other
    than a dict. *)
Lemma execute_unknown srv nm args :
  tools srv !! nm = None →
  execute_tool srv nm args = Ok {[ "error" := PStr ("Unknown tool: " +:+ nm) ]}.
Proof. unfold execute_tool. by intros ->. Qed.

Lemma execute_raising srv nm args tool e :
  tools srv !! nm = Some tool → handler tool args = Raises e →
  is_Exception e = true →
  execute_tool srv nm args
    = Ok {[ "error" := PStr ("Tool execution failed: " +:+ exn_str e) ]}.
Proof. unfold execute_tool. by intros -> -> ->. Qed.

Lemma execute_non_dict srv nm args tool x :
  tools srv !! nm = Some tool → handler tool args = ReturnsOther x →
  execute_tool srv nm args = Ok {[ "result" := PStr (py_str x) ]}.
Proof. unfold execute_tool. by intros -> ->. Qed.

End ToolDispatcher.

(* ================================================================== *)
(** * Properties of the remote session client                          *)
(* ================================================================== *)

Section RemoteSession.
Import Py Session.

(** A session that was never connected, and one that was closed after a
    connection attempt, are not connected. *)
Lemma fresh_or_closed_is_disconnected key cfg o :
  is_connected (new_session key cfg) = false
  ∧ is_connected (close (connect o (new_session key cfg)).1) = false.
Proof. split; [reflexivity|]. by destruct o. Qed.

(** C10.  On a session that is not connected, [send_audio] and
    [send_tool_response] raise RuntimeError, and so does the first step of
    iterating [receive]; none of them returns silently. *)
Theorem disconnected_session_raises (s : GeminiSession) (chunk : bytes)
    (call_id : string) (res : dict) (stream : list StreamItem) :
  is_connected s = false →
  send_audio chunk s = Raise (RuntimeError "Gemini session is not connected.")
  ∧ send_tool_response call_id res s
      = Raise (RuntimeError "Gemini session is not connected.")
  ∧ (anext new_receiver s stream).1
      = Throws (RuntimeError "Gemini session is not connected.").
Proof.
  unfold is_connected. intros Hc.
  assert (Hu : unusable s = true) by (unfold unusable; by rewrite Hc).
  unfold send_audio, send_tool_response, anext. cbn. by rewrite Hu.
Qed.

Lemma disconnected_session_raises_witness :
  send_audio [x00; x01] Samples.closed_session
    = Raise (RuntimeError "Gemini session is not connected.")
  ∧ send_tool_response "id" ∅ Samples.closed_session
      = Raise (RuntimeError "Gemini session is not connected.")
  ∧ (anext new_receiver Samples.closed_session [SdkEnds]).1
      = Throws (RuntimeError "Gemini session is not connected.").
Proof.
  apply (disconnected_session_raises Samples.closed_session [x00; x01] "id" ∅ [SdkEnds]).
  reflexivity.
Defined.

(** What the generator's steps do to the session: they leave untouched
    whether it can send and what it has sent. *)
Lemma pull_session stream s next g' s' rest :
  pull stream s = (next, (g', s', rest)) →
  unusable s' = unusable s
  ∧ sent_tool_responses s' = sent_tool_responses s
  ∧ (exhausted g' = false → started g' = true).
Proof.
  revert s. induction stream as [|[m|e|] stream IH]; intros s; cbn.
  - intros [= <- <- <- <-]. done.
  - destruct (_parse_message m (tool_call_names s)) as [[|msg more] names].
    + intros H. apply IH in H as (Hu & Hr & Hs). done.
    + intros [= <- <- <- <-]. done.
  - destruct (is_Exception e); intros [= <- <- <- <-]; done.
  - intros [= <- <- <- <-]. done.
Qed.

Lemma pull_yields stream s msg g' s' rest :
  pull stream s = (Yields msg, (g', s', rest)) → exhausted g' = false.
Proof.
  revert s. induction stream as [|[m|e|] stream IH]; intros s; cbn.
  - done.
  - destruct (_parse_message m (tool_call_names s)) as [[|msg' more] names].
    + apply IH.
    + intros [= <- <- <- <-]. done.
  - destruct (is_Exception e); [|done]. intros [= <- <- <- <-]. done.
  - done.
Qed.

Lemma anext_yields g s stream msg g' s' rest :
  anext g s stream = (Yields msg, (g', s', rest)) → exhausted g' = false.
Proof.
  unfold anext.
  destruct (exhausted g); [done|].
  destruct (negb (started g) && unusable s); [done|].
  destruct (at_error_yield g); [done|].
  destruct (buffered g) as [|msg' more].
  - apply pull_yields.
  - intros [= <- <- <- <-]. done.
Qed.

Lemma anext_session g s stream next g' s' rest :
  anext g s stream = (next, (g', s', rest)) →
  exhausted g' = false →
  exhausted g = false
  ∧ (started g = true ∨ unusable s = false)
  ∧ started g' = true
  ∧ unusable s' = unusable s
  ∧ sent_tool_responses s' = sent_tool_responses s.
Proof.
  unfold anext.
  destruct (exhausted g) eqn:Hex; [intros [= <- <- <- <-]; congruence|].
  destruct (negb (started g) && unusable s) eqn:Hguard;
    [intros [= <- <- <- <-]; done|].
  destruct (at_error_yield g); [intros [= <- <- <- <-]; done|].
  assert (Hor : started g = true ∨ unusable s = false).
  { destruct (started g), (unusable s); auto. }
  destruct (buffered g) as [|msg more].
  - intros H Hg'. apply pull_session in H as (Hu & Hr & Hs). auto.
  - intros [= <- <- <- <-]. auto.
Qed.

Lemma send_tool_response_session id res s s' :
  send_tool_response id res s = Ok s' →
  unusable s' = unusable s
  ∧ sent_tool_responses s' =
      sent_tool_responses s ++
      [{| fr_id := id; fr_name := default "" (tool_call_names s !! id);
          fr_response := res |}].
Proof.
  unfold send_tool_response. destruct (unusable s) eqn:Hu; [done|].
  intros [= <-]. done.
Qed.

End RemoteSession.

(* ================================================================== *)
(** * Properties of the capture pipeline                               *)
(* ================================================================== *)

Section CapturePipeline.
Import Py Hardware Capture Spec.

Lemma capture_step_session frame cap mic s cap' mic' s' :
  capture_step frame (cap, mic, s) = (cap', mic', s') →
  Session.unusable s' = Session.unusable s.
Proof.
  unfold capture_step, Session.send_audio.
  repeat case_match; intros; simplify_eq; done.
Qed.

(** C9, as the code has it.  [stop] leaves the microphone closed whether
    or not it was open before [start]: the pipeline keeps no record of
    who opened it.  [stop] also ends streaming and drops the task. *)
Theorem capture_stop_closes_microphone (frames : list bytes)
    (cap : AudioCaptureStream) (mic : AudioInput) (sess : Session.GeminiSession) :
  let '(cap', mic') := capture_session frames (cap, mic, sess) in
  in_is_open mic' = false ∧ is_streaming cap' = false ∧ task cap' = None.
Proof.
  unfold capture_session.
  destruct (start (cap, mic)) as [cap1 mic1].
  destruct (foldl _ _ frames) as [[cap2 mic2] sess2].
  unfold stop, in_is_open. by destruct mic2 as [[]].
Qed.

(** C9, as the claim has it, fails: a microphone opened before the
    pipeline started is closed once the pipeline has stopped. *)
Lemma microphone_opened_elsewhere_is_closed :
  let mic := in_open_stream {| in_open := false |} in
  in_is_open mic = true
  ∧ in_is_open
      (capture_session [[x00; x01]] (new_capture 16000 1024, mic, Samples.open_session)).2
    = false.
Proof. split; reflexivity. Qed.

End CapturePipeline.

(* ================================================================== *)
(** * Properties of the playback pipeline                              *)
(* ================================================================== *)

Section PlaybackPipeline.
Import Py Hardware Playback Spec.


Lemma total_bytes_snoc (l : list bytes) (d : bytes) :
  total_bytes (l ++ [d]) = total_bytes l + length d.
Proof. induction l as [|x l IH]; unfold total_bytes in *; cbn in *; lia. Qed.








(** ** A single frame, then a flush *)

Lemma sentinel_last_no_chunks (q : list (option bytes)) :
  omap id q = [] → sentinel_last q = true.
Proof.
  induction q as [|[c|] q IH]; cbn; [done|done|].
  intros H. by apply bool_decide_eq_true.
Qed.

Lemma sentinel_last_flush (q : list (option bytes)) :
  sentinel_last q = true → sentinel_last (q ++ [None]) = true.
Proof.
  induction q as [|[c|] q IH]; cbn; [done|done|].
  intros H. apply bool_decide_eq_true in H. apply bool_decide_eq_true.
  rewrite omap_app, H. done.
Qed.

Lemma carries_play_chunk d rate chunks spk :
  carries d (written spk) (play_chunk d (new_playback rate chunks, spk)).
Proof.
  unfold carries, play_chunk, out_is_open. cbn.
  destruct (out_open spk) eqn:Ho; cbn; rewrite ?Ho;
    (do 3 (split; [done|])); exists []; by rewrite app_nil_r.
Qed.

Lemma carries_flush d w0 st : carries d w0 st → carries d w0 (flush_begin st).
Proof.
  destruct st as [pb spk]. unfold carries, flush_begin, flush_waits. cbn.
  destruct (task pb) as [[ph| |]|] eqn:Ht; cbn; rewrite ?Ht; try done.
  intros (Hp & Ho & Hs & w & Hw & Hc). do 2 (split; [done|]).
  split; [by apply sentinel_last_flush|]. exists w. split; [done|].
  unfold pending in *. cbn. rewrite Ht in *. rewrite omap_app. cbn.
  by rewrite app_nil_r.
Qed.

Lemma carries_drain d w0 e st : carries d w0 st → carries d w0 (drain_step e st).
Proof.
  destruct st as [pb spk].
  unfold carries, drain_step, write_or_finish, write_chunk, pending. cbn.
  destruct (task pb) as [[[[|k] initial|[|c rest]| |c]| |]|] eqn:Ht;
    try done; try (by cbn; rewrite Ht);
    intros (Hp & Ho & Hs & w & Hw & Hc);
    destruct (queue pb) as [|[c'|] q] eqn:Hq; destruct e;
      cbn; rewrite ?Hp, ?Ho; cbn; rewrite ?Ht, ?Hq; cbn; cbn in Hs, Hc.
  all: try (apply bool_decide_eq_true in Hs).
  all: rewrite ?Hs, ?app_nil_r in Hc.
  all: try by (do 3 (split; [done || (by apply sentinel_last_no_chunks)
                                  || (by apply bool_decide_eq_true)|]);
               exists w; rewrite <- ?app_assoc; cbn; rewrite ?Hs, ?app_nil_r).
  all: try by (do 3 (split; [done || (by apply sentinel_last_no_chunks)
                                  || (by apply bool_decide_eq_true)|]);
               eexists (w ++ [_]);
               rewrite Hw, <- !app_assoc; cbn; rewrite ?Hs, ?app_nil_r).
  all: try by (subst w; rewrite Hw).
  all: try by (rewrite Hw, <- Hc).
Qed.

Lemma carries_run d w0 ops st :
  Forall (fun op => op = Flush ∨ ∃ e, op = Drain e) ops →
  carries d w0 st → carries d w0 (run ops st).
Proof.
  intros Hops. revert st.
  induction Hops as [|op ops [->|[e ->]] _ IH]; intros st Hc.
  - done.
  - apply IH. by apply carries_flush.
  - apply IH. by apply carries_drain.
Qed.

Lemma carries_done d w0 st :
  carries d w0 st → flush_waits st.1 = false → written st.2 = w0 ++ [d].
Proof. unfold carries, flush_waits. by destruct (task st.1) as [[]|]. Qed.

Lemma remaining_steps_waits pb : flush_waits pb = false ↔ remaining_steps pb = 0.
Proof.
  unfold flush_waits, remaining_steps.
  destruct (task pb) as [[[]| |]|]; cbn; split; (done || lia).
Qed.

(** A drain step never adds work, and one whose timer has run out always
    makes progress. *)
Lemma drain_step_remaining e st :
  remaining_steps (drain_step e st).1 ≤ remaining_steps st.1
  ∧ (e = true → remaining_steps st.1 ≠ 0 →
     remaining_steps (drain_step e st).1 < remaining_steps st.1).
Proof.
  destruct st as [pb spk].
  unfold drain_step, write_or_finish, write_chunk, remaining_steps. cbn.
  destruct (task pb) as [[[[|k] initial|[|c rest]| |c]| |]|] eqn:Ht;
    destruct (queue pb) as [|[c'|] q] eqn:Hq;
    destruct (playing pb) eqn:Hp; destruct (out_open spk) eqn:Ho; destruct e;
    cbn; rewrite ?Ht, ?Hq; cbn; rewrite ?length_app; cbn; split; (lia || done).
Qed.

Lemma run_drains_remaining ds st :
  remaining_steps (run (Drain <$> ds) st).1 ≤ remaining_steps st.1 - expiries ds.
Proof.
  revert st. induction ds as [|e ds IH]; intros st.
  - cbn. lia.
  - change (run (Drain <$> e :: ds) st) with (run (Drain <$> ds) (drain_step e st)).
    specialize (IH (drain_step e st)).
    destruct (drain_step_remaining e st) as [Hle Hlt].
    unfold expiries in *. rewrite filter_cons.
    destruct e; [rewrite decide_True by done|rewrite decide_False by done];
      cbn [length].
    + destruct (decide (remaining_steps st.1 = 0)) as [H0|H0]; [lia|].
      specialize (Hlt eq_refl H0). lia.
    + lia.
Qed.

Lemma play_chunk_remaining d rate chunks spk :
  remaining_steps (play_chunk d (new_playback rate chunks, spk)).1 = 5.
Proof. reflexivity. Qed.

Lemma flush_begin_remaining st :
  remaining_steps (flush_begin st).1 ≤ remaining_steps st.1 + 2.
Proof.
  destruct st as [pb spk]. unfold flush_begin, flush_waits, remaining_steps.
  destruct (task pb) as [[[]| |]|] eqn:Ht; cbn; rewrite ?Ht, ?length_app; cbn; lia.
Qed.

End PlaybackPipeline.

Section PlaybackInConversation.
Import Py Hardware Playback Controller Spec.


(** C6.  A fresh pipeline is handed an audio message of N bytes, the
    drain task takes any number of steps, the turn_complete message
    starts the flush, and the drain task steps on.  Once the flush has
    nothing left to wait for, the speaker has written that one frame and
    nothing else, N bytes; and the flush does get there once the drain
    task's timers have run out seven times. *)
Theorem audio_then_turn_complete_writes_all
    (d : bytes) (ds1 ds2 : list bool) (rate chunks now1 now2 : Z) (c : RobotController) :
  let '(c1, pb1, _) :=
    _handle_message now1 (Session.audio_message d) c (new_playback rate chunks) in
  let '(pb2, spk2) := run (Drain <$> ds1) (pb1, audio_output c1) in
  let '(c3, pb3, _) :=
    _handle_message now2 (Session.message Session.TurnComplete)
                    (set_audio_output spk2 c1) pb2 in
  let '(pb4, spk4) := run (Drain <$> ds2) (pb3, audio_output c3) in
  (flush_waits pb4 = false →
     written spk4 = written (audio_output c) ++ [d]
     ∧ total_bytes (written spk4) = total_bytes (written (audio_output c)) + length d)
  ∧ (7 ≤ expiries ds2 → flush_waits pb4 = false).
Proof.
  unfold _handle_message.
  cbn [Session.audio_message Session.message Session.msg_type Session.audio_data].
  pose proof (carries_play_chunk d rate chunks (audio_output c)) as H1.
  pose proof (play_chunk_remaining d rate chunks (audio_output c)) as R1.
  destruct (play_chunk d (new_playback rate chunks, audio_output c)) as [pb1 spk1].
  change (audio_output (set_audio_output spk1 c)) with spk1.
  assert (Hd : ∀ ds, Forall (fun op => op = Flush ∨ ∃ e, op = Drain e) (Drain <$> ds)).
  { intros ds. apply Forall_fmap, Forall_forall. intros e _. right. by exists e. }
  pose proof (carries_run d _ _ _ (Hd ds1) H1) as H2.
  pose proof (run_drains_remaining ds1 (pb1, spk1)) as R2.
  destruct (run (Drain <$> ds1) (pb1, spk1)) as [pb2 spk2].
  change (audio_output (set_last_activity now2
            (set_audio_output spk2 (set_audio_output spk1 c)))) with spk2.
  pose proof (carries_flush d _ _ H2) as H3.
  pose proof (flush_begin_remaining (pb2, spk2)) as R3.
  destruct (flush_begin (pb2, spk2)) as [pb3 spk3].
  change (audio_output (set_audio_output spk3 (set_last_activity now2
            (set_audio_output spk2 (set_audio_output spk1 c))))) with spk3.
  pose proof (carries_run d _ _ _ (Hd ds2) H3) as H4.
  pose proof (run_drains_remaining ds2 (pb3, spk3)) as R4.
  destruct (run (Drain <$> ds2) (pb3, spk3)) as [pb4 spk4].
  cbn in R1, R2, R3, R4. split.
  - intros Hw. pose proof (carries_done d _ _ H4 Hw) as Hwr. cbn in Hwr.
    split; [done|]. rewrite Hwr. apply total_bytes_snoc.
  - intros H7. apply remaining_steps_waits. lia.
Qed.

Lemma audio_then_turn_complete_writes_all_witness :
  let d := [x01; x02; x03; x04] in
  let ds2 := [true; true; true; true; true; true; true] in
  let c := Samples.conversing_controller "professional" in
  let r1 := _handle_message 10 (Session.audio_message d) c (new_playback 24000 3) in
  let st2 := run (Drain <$> [false; false]) (r1.1.2, audio_output r1.1.1) in
  let r3 :=
    _handle_message 20 (Session.message Session.TurnComplete)
                    (set_audio_output st2.2 r1.1.1) st2.1 in
  let st4 := run (Drain <$> ds2) (r3.1.2, audio_output r3.1.1) in
  7 ≤ expiries ds2
  ∧ flush_waits st4.1 = false
  ∧ written st4.2 = written (audio_output c) ++ [d]
  ∧ total_bytes (written st4.2) = total_bytes (written (audio_output c)) + 4.
Proof.
  pose proof (audio_then_turn_complete_writes_all [x01; x02; x03; x04] [false; false]
                [true; true; true; true; true; true; true] 24000 3 10 20
                (Samples.conversing_controller "professional")) as H.
  cbv zeta. vm_compute in H. vm_compute.
  destruct H as [H1 H2].
  assert (H7 : 7 ≤ 7) by lia.
  split; [exact H7|]. split; [exact (H2 H7)|]. exact (H1 (H2 H7)).
Defined.

End PlaybackInConversation.

(* ================================================================== *)
(** * Properties of the controller's states                            *)
(* ================================================================== *)

Section Stop.
Import Py Hardware Controller.

Ltac stop_cases :=
  unfold stop, close_session, stop_detector; cbn; repeat case_match; cbn.

Lemma stop_running c : running (stop c) = false.
Proof. stop_cases; done. Qed.

Lemma stop_state c : state (stop c) = state c.
Proof. stop_cases; done. Qed.

Lemma stop_stop_event c : stop_event (stop c) = (fun _ => true) <$> stop_event c.
Proof. stop_cases; done. Qed.


Lemma start_detector_fields c :
  state (start_detector c) = state c ∧ running (start_detector c) = running c
  ∧ stop_event (start_detector c) = stop_event c.
Proof. unfold start_detector, WakeWord.start. by repeat case_match. Qed.

Lemma stop_detector_fields c :
  state (stop_detector c) = state c ∧ running (stop_detector c) = running c
  ∧ stop_event (stop_detector c) = stop_event c ∧ session (stop_detector c) = session c.
Proof. unfold stop_detector, WakeWord.stop. by repeat case_match. Qed.

End Stop.

Section IdleRace.
Import Py Hardware Controller Spec.

Lemma wait_first_woken sched c : wait_first true sched c = Returned (true, c).
Proof. by destruct sched. Qed.

(** The wait ends in the first turn in which either event fires. *)
Lemma wait_first_spec sched c :
  stop_event c = Some false →
  wait_first false sched c =
    match first_fire sched with
    | None => Suspended (false, c)
    | Some t => Returned (wake_fires t, if stop_called t then stop c else c)
    end.
Proof.
  intros Hev. induction sched as [|t rest IH]; cbn.
  - unfold stop_is_set. rewrite Hev. done.
  - unfold stop_is_set at 1. rewrite Hev. cbn.
    unfold first_fire. rewrite filter_cons.
    destruct (wake_fires t) eqn:Hw; cbn.
    + rewrite decide_True by done. cbn. rewrite Hw. apply wait_first_woken.
    + destruct (stop_called t) eqn:Hs; cbn.
      * rewrite decide_True by done. cbn. rewrite Hw, Hs.
        destruct rest; cbn; unfold stop_is_set; rewrite stop_stop_event, Hev; done.
      * rewrite decide_False by done. apply IH.
Qed.

Lemma wake_before_stop_spec sched :
  wake_before_stop sched ↔
  ∃ t, first_fire sched = Some t ∧ wake_fires t = true ∧ stop_called t = false.
Proof.
  unfold wake_before_stop, first_fire. induction sched as [|t rest IH].
  - split.
    + intros (i & t & H & _). by rewrite lookup_nil in H.
    + intros (t & H & _). done.
  - rewrite filter_cons. destruct (wake_fires t) eqn:Hw; cbn.
    + rewrite decide_True by done. cbn. split.
      * intros (i & t' & Hi & Hwt & Hno). exists t. split; [done|]. split; [done|].
        apply (Hno 0 t); [lia|done].
      * intros (t' & [= <-] & _ & Hs). exists 0, t. split; [done|]. split; [done|].
        intros j t' Hj. assert (j = 0) as -> by lia. by intros [= <-].
    + destruct (stop_called t) eqn:Hs; cbn.
      * rewrite decide_True by done. cbn. split.
        -- intros (i & t' & Hi & Hwt & Hno).
           specialize (Hno 0 t ltac:(lia) eq_refl). congruence.
        -- intros (t' & [= <-] & Hwt & _). congruence.
      * rewrite decide_False by done. rewrite <- IH. split.
        -- intros (i & t' & Hi & Hwt & Hno). destruct i as [|i].
           { cbn in Hi. injection Hi as <-. congruence. }
           exists i, t'. split; [done|]. split; [done|].
           intros j t'' Hj Hl. apply (Hno (S j) t''); [lia|done].
        -- intros (i & t' & Hi & Hwt & Hno). exists (S i), t'.
           split; [done|]. split; [done|].
           intros [|j] t'' Hj Hl; cbn in Hl; [by injection Hl as <-|].
           apply (Hno j t''); [lia|done].
Qed.

Lemma idle_exit_state woke c :
  state c = IDLE →
  (state (idle_exit woke c) = CONNECTING ↔ woke = true ∧ running c = true)
  ∧ (state (idle_exit woke c) = CONNECTING ∨ state (idle_exit woke c) = IDLE)
  ∧ running (idle_exit woke c) = running c.
Proof.
  intros Hst. unfold idle_exit.
  destruct (stop_detector_fields c) as (Hs & Hr & _).
  rewrite Hr. destruct woke, (running c); cbn; rewrite ?Hs, ?Hr, ?Hst;
    intuition congruence.
Qed.

Lemma run_idle_spec sched c :
  stop_event c = Some false →
  let c1 := start_detector (on_display (show_status "listening") c) in
  _run_idle sched c =
    match first_fire sched with
    | None => Suspended c1
    | Some t => Returned (idle_exit (wake_fires t) (if stop_called t then stop c1 else c1))
    end.
Proof.
  intros Hev c1. unfold _run_idle, _wait_for_event_or_stop. fold c1.
  assert (He1 : stop_event c1 = Some false).
  { subst c1. by rewrite (proj2 (proj2 (start_detector_fields _))). }
  rewrite He1, wait_first_spec by done. by destruct (first_fire sched).
Qed.

(** C1.  The controller is in IDLE, running, with its stop event clear,
    and [_run_idle] waits through the turns of [sched].  If it returns,
    the state is CONNECTING exactly when the wake event fired before any
    call of [stop], and IDLE otherwise; it never raises, and it stays
    suspended only as long as neither event has fired.  The transition
    at the end of [_run_idle] is taken exactly when the wait reports the
    wake event and the controller is still running. *)
Theorem idle_connects_iff_wake_first (sched : list IdleTick) (c : RobotController) :
  state c = IDLE → running c = true → stop_event c = Some false →
  match _run_idle sched c with
  | Returned c' =>
      (state c' = CONNECTING ↔ wake_before_stop sched)
      ∧ (¬ wake_before_stop sched → state c' = IDLE)
  | Raised _ _ => False
  | Suspended _ => first_fire sched = None
  end
  ∧ (∀ woke c2, state c2 = IDLE →
       state (idle_exit woke c2) = CONNECTING ↔ woke = true ∧ running c2 = true).
Proof.
  intros Hst Hrun Hev. split; [|intros; by apply idle_exit_state].
  rewrite run_idle_spec by done. cbv zeta.
  destruct (start_detector_fields (on_display (show_status "listening") c))
    as (Hs1 & Hr1 & _).
  set (c1 := start_detector (on_display (show_status "listening") c)) in *.
  cbn in Hs1, Hr1. clearbody c1.
  pose proof (wake_before_stop_spec sched) as Hspec.
  destruct (first_fire sched) as [t|]; [|done]. rewrite Hspec.
  set (c2 := if stop_called t then stop c1 else c1).
  assert (Hs2 : state c2 = IDLE).
  { subst c2. destruct (stop_called t); rewrite ?stop_state; congruence. }
  assert (Hr2 : running c2 = negb (stop_called t)).
  { subst c2. destruct (stop_called t); rewrite ?stop_running; cbn; congruence. }
  destruct (idle_exit_state (wake_fires t) c2 Hs2) as (Hiff & Hor & _).
  rewrite Hiff, Hr2. split.
  - split.
    + intros [Hw Hs]. exists t. by destruct (stop_called t).
    + intros (t' & [= <-] & Hw & Hs). by rewrite Hs.
  - intros Hno. destruct Hor as [Hc|]; [|done]. exfalso. apply Hno.
    apply Hiff in Hc as [Hw Hs]. rewrite Hr2 in Hs. exists t.
    by destruct (stop_called t).
Qed.

Lemma idle_connects_iff_wake_first_witness :
  let sched := [ {| wake_fires := false; stop_called := false |};
                 {| wake_fires := true; stop_called := false |};
                 {| wake_fires := false; stop_called := true |} ] in
  let c := Samples.idle_controller "professional" in
  (state c = IDLE ∧ running c = true ∧ stop_event c = Some false)
  ∧ ∃ c', _run_idle sched c = Returned c'
          ∧ (state c' = CONNECTING ↔ wake_before_stop sched).
Proof.
  cbv zeta. split; [by vm_compute|].
  pose proof (idle_connects_iff_wake_first
                [ {| wake_fires := false; stop_called := false |};
                  {| wake_fires := true; stop_called := false |};
                  {| wake_fires := false; stop_called := true |} ]
                (Samples.idle_controller "professional")
                eq_refl eq_refl eq_refl) as [H _].
  destruct (_run_idle _ _) as [c'|e c'|c'].
  - exists c'. split; [reflexivity|apply H].
  - destruct H.
  - vm_compute in H. discriminate H.
Defined.

End IdleRace.

Section Shutdown.
Import Py Hardware Controller Spec.


Lemma cleanup_state c : state (_cleanup c) = state c.
Proof.
  unfold _cleanup, on_display, close_session, stop_detector, WakeWord.stop.
  by repeat case_match.
Qed.

Lemma shut_down_state c : state (shut_down c) = SHUTTING_DOWN.
Proof. unfold shut_down. by rewrite cleanup_state. Qed.




End Shutdown.

Section Connecting.
Import Py Hardware Controller Spec.

(** C4.  The controller is in CONNECTING and a personality is found, so
    that [_run_connecting] attempts a connection.  When it returns, the
    state is CONVERSATION exactly when the session open succeeded and
    IDLE exactly when it failed; after a failure no session is stored,
    after a success the stored session is connected.  Something other
    than an [Exception] raised by the provider (a cancellation) is
    neither: it passes through and the state stays CONNECTING. *)
Theorem connecting_follows_session_open (o : Session.ConnectOutcome)
    (c : RobotController) (p : Personality.PersonalityConfig) :
  state c = CONNECTING →
  resolve_personality c = Some p →
  match _run_connecting o c with
  | Returned c' =>
      (state c' = CONVERSATION ↔ succeeds o = true)
      ∧ (state c' = IDLE ↔ fails o = true)
      ∧ (fails o = true → session c' = None)
      ∧ (succeeds o = true →
         ∃ s, session c' = Some s ∧ Session.is_connected s = true)
  | Raised _ c' => succeeds o = false ∧ fails o = false ∧ state c' = CONNECTING
  | Suspended _ => False
  end.
Proof.
  intros Hst Hp. unfold _run_connecting.
  replace (resolve_personality (on_display (show_status "connecting") c))
    with (resolve_personality c) by reflexivity.
  rewrite Hp. destruct o as [|e|e]; cbn; [|destruct (is_Exception e) eqn:He; cbn..];
    rewrite ?He; intuition (eauto; congruence).
Qed.

Lemma connecting_follows_session_open_witness :
  let c := Samples.connecting_controller "professional" in
  let refused := Session.EnterRaises (OtherError "connection refused") in
  (state c = CONNECTING
   ∧ resolve_personality c = Some (Samples.personality "Professional" "Kore" 30))
  ∧ (∃ c', _run_connecting Session.Connects c = Returned c'
           ∧ state c' = CONVERSATION)
  ∧ (∃ c', _run_connecting refused c = Returned c'
           ∧ state c' = IDLE ∧ session c' = None).
Proof.
  cbv zeta. split; [by vm_compute|]. split.
  - pose proof (connecting_follows_session_open Session.Connects
                  (Samples.connecting_controller "professional")
                  (Samples.personality "Professional" "Kore" 30)
                  eq_refl eq_refl) as H.
    destruct (_run_connecting _ _) as [c'|e c'|c'].
    + exists c'. split; [reflexivity|]. by apply H.
    + by destruct H as [H _].
    + destruct H.
  - pose proof (connecting_follows_session_open
                  (Session.EnterRaises (OtherError "connection refused"))
                  (Samples.connecting_controller "professional")
                  (Samples.personality "Professional" "Kore" 30)
                  eq_refl eq_refl) as H.
    destruct (_run_connecting _ _) as [c'|e c'|c'].
    + exists c'. split; [reflexivity|].
      destruct H as (_ & Hidle & Hnone & _). split; [by apply Hidle|by apply Hnone].
    + by destruct H as (_ & H & _).
    + destruct H.
Defined.

End Connecting.

(* ================================================================== *)
(** * Properties of the conversation                                   *)
(* ================================================================== *)

Section ReceiveLoop.
Import Py Hardware Controller Spec.

Lemma handle_message_fields now msg c pb :
  let '(c', pb', h) := _handle_message now msg c pb in
  running c' = running c ∧ state c' = state c
  ∧ (session c' = session c
     ∨ ∃ s s', session c = Some s ∧ session c' = Some s'
               ∧ Session.unusable s' = Session.unusable s).
Proof.
  unfold _handle_message.
  destruct (Session.msg_type msg) eqn:Hty; try (by cbn; auto).
  - destruct (Playback.play_chunk (Session.audio_data msg) (pb, audio_output c)).
    cbn. auto.
  - destruct (Tools.execute_tool (tool_server c) (Session.tool_name msg)
                (Session.tool_args msg)) as [res|e]; [|by auto]. cbn.
    destruct (session c) as [s|] eqn:Hs; [|by auto].
    destruct (Session.is_connected s); [|by auto].
    destruct (Session.send_tool_response (Session.tool_call_id msg) res s)
      as [s'|e] eqn:Hsend; [|by auto].
    cbn. apply send_tool_response_session in Hsend as [Hu _]. eauto 10.
  - cbn [set_last_activity audio_output].
    destruct (Playback.flush_begin (pb, audio_output c)). cbn. auto.
Qed.

Lemma receive_one_ok msg v :
  generator (receive_one msg v) = generator v
  ∧ running (ctl (receive_one msg v)) = running (ctl v)
  ∧ state (ctl (receive_one msg v)) = state (ctl v)
  ∧ (session_usable (ctl v) → session_usable (ctl (receive_one msg v))).
Proof.
  unfold receive_one. destruct (negb (running (ctl v))); [done|].
  pose proof (handle_message_fields (now v) msg (ctl v) (playback v)) as H.
  destruct (_handle_message _ _ _ _) as [[c' pb'] h].
  destruct H as (Hr & Hst & Hs).
  assert (Hu : session_usable (ctl v) → session_usable c').
  { intros (s & Hsome & Hus). destruct Hs as [Heq|(s0 & s' & H0 & H' & Hu')].
    - exists s. by rewrite Heq.
    - exists s'. split; [done|]. rewrite Hu'. congruence. }
  destruct h; [destruct (Session.msg_type msg)| |]; done.
Qed.

(** Every step of a conversation keeps the receive loop on a usable
    session for as long as the controller runs. *)
Lemma step_receiving_ok e v : receiving_ok v → receiving_ok (race (step e v)).
Proof.
  intros Hok.
  assert (Hrace : ∀ v', receiving_ok v' → receiving_ok (race v')).
  { intros v' H'. unfold race. repeat case_match; done. }
  apply Hrace. destruct e as [ms| |ex| |frame|]; cbn [step].
  - done.
  - unfold receive_step. destruct (receive_task v); try done.
    + destruct (session (ctl v)) as [s|] eqn:Hs; [|done].
      destruct (Session.anext (generator v) s (stream v))
        as [next [[g' s'] rest]] eqn:Hn.
      set (v' := set_source g' rest (set_ctl (set_session (Some s') (ctl v)) v)).
      assert (Hv' : receiving_ok v').
      { intros Hst Hex Hrun. cbn in Hst, Hex, Hrun.
        destruct (anext_session _ _ _ _ _ _ _ Hn Hex) as (Hex0 & Hor & _ & Hu & _).
        exists s'. split; [done|]. rewrite Hu.
        destruct Hor as [Hst0|]; [|done].
        destruct (Hok Hst0 Hex0 Hrun) as (s0 & Hs0 & Hu0). congruence. }
      destruct next; try done.
      destruct (receive_one_ok m v') as (Hg & Hr & _ & Hu).
      intros Hst Hex Hrun. rewrite Hg in Hst, Hex. rewrite Hr in Hrun. auto.
    + by destruct (Playback.flush_waits (playback v)).
  - unfold drain_step. destruct (Playback.drain_step _ _). done.
  - unfold monitor_step. repeat case_match; done.
  - unfold capture_step. destruct (session (ctl v)) as [s|] eqn:Hs.
    + destruct (Capture.capture_step _ _) as [[cap mic] s'] eqn:Hc.
      apply capture_step_session in Hc.
      intros Hst Hex Hrun. cbn in *. destruct (Hok Hst Hex Hrun) as (s0 & Hs0 & Hu0).
      exists s'. split; [done|]. congruence.
    + repeat case_match; done.
  - intros _ _ Hrun. cbn in Hrun. by rewrite stop_running in Hrun.
Qed.

Lemma advance_receiving_ok sched v : receiving_ok v → receiving_ok (advance sched v).
Proof.
  revert v. induction sched as [|e sched IH]; intros v Hok; [done|].
  apply IH. by apply step_receiving_ok.
Qed.

Lemma enter_receiving_ok t0 source c : receiving_ok (conversation_enter t0 source c).
Proof.
  unfold conversation_enter. destruct (Capture.start _). by intros Hst.
Qed.

(** The receive loop answers a call to an unregistered tool. *)
Lemma unknown_tool_call_answered v s msg g' s' rest :
  receiving_ok v →
  receive_task v = Receiving →
  running (ctl v) = true →
  session (ctl v) = Some s →
  Session.anext (generator v) s (stream v) = (Session.Yields msg, (g', s', rest)) →
  Session.msg_type msg = Session.ToolCall →
  Tools.tools (tool_server (ctl v)) !! Session.tool_name msg = None →
  ∃ s'', session (ctl (receive_step v)) = Some s''
    ∧ Session.sent_tool_responses s'' =
        Session.sent_tool_responses s ++
        [{| Session.fr_id := Session.tool_call_id msg;
            Session.fr_name :=
              default "" (Session.tool_call_names s' !! Session.tool_call_id msg);
            Session.fr_response :=
              {[ "error" := PStr ("Unknown tool: " +:+ Session.tool_name msg) ]} |}]
    ∧ receive_task (receive_step v) = Receiving.
Proof.
  intros Hok Hrecv Hrun Hs Hn Hty Hunk.
  pose proof (anext_yields _ _ _ _ _ _ _ Hn) as Hg'.
  destruct (anext_session _ _ _ _ _ _ _ Hn Hg') as (Hex0 & Hor & _ & Hu & Hsent).
  assert (Hus : Session.unusable s' = false).
  { rewrite Hu. destruct Hor as [Hst0|]; [|done].
    destruct (Hok Hst0 Hex0 Hrun) as (s0 & Hs0 & Hu0). congruence. }
  assert (Hconn : Session.is_connected s' = true).
  { unfold Session.unusable, Session.is_connected in *.
    by destruct (Session.connected s'). }
  unfold receive_step. rewrite Hrecv, Hs, Hn.
  unfold receive_one. cbn [ctl set_source set_ctl running set_session now playback].
  rewrite Hrun. cbn [negb].
  unfold _handle_message. rewrite Hty.
  cbn [tool_server set_session]. unfold Tools.execute_tool. rewrite Hunk.
  cbn [session set_last_activity set_session]. rewrite Hconn.
  unfold Session.send_tool_response. rewrite Hus. cbn.
  eexists. split; [reflexivity|]. cbn. rewrite Hsent. done.
Qed.

(** C7.  At any point of a conversation at which the receive loop is
    waiting for a message and the controller runs, let the provider's
    next message be a tool call whose name is not in the registry.
    Then [execute_tool] returns, for whatever arguments, the map with
    the single entry error: "Unknown tool: <name>", and the receive
    loop's step appends to what the session has sent one function
    response that carries the call's id and that map, and goes on
    receiving.  For a registered tool, an [Exception] out of the handler
    becomes a map with the single key "error", and a result that is not
    a dict becomes a map with the single key "result". *)
Theorem unknown_tool_error_result_is_sent
    (t0 : Z) (source : list Session.StreamItem) (sched : list Event)
    (c : RobotController) (s : Session.GeminiSession) (msg : Session.ServerMessage)
    (g' : Session.Receiver) (s' : Session.GeminiSession)
    (rest : list Session.StreamItem) :
  let v := advance sched (conversation_enter t0 source c) in
  receive_task v = Receiving →
  running (ctl v) = true →
  session (ctl v) = Some s →
  Session.anext (generator v) s (stream v) = (Session.Yields msg, (g', s', rest)) →
  Session.msg_type msg = Session.ToolCall →
  Tools.tools (tool_server (ctl v)) !! Session.tool_name msg = None →
  (∀ args, Tools.execute_tool (tool_server (ctl v)) (Session.tool_name msg) args
           = Ok {[ "error" := PStr ("Unknown tool: " +:+ Session.tool_name msg) ]})
  ∧ (∃ s'', session (ctl (receive_step v)) = Some s''
       ∧ Session.sent_tool_responses s'' =
           Session.sent_tool_responses s ++
           [{| Session.fr_id := Session.tool_call_id msg;
               Session.fr_name :=
                 default "" (Session.tool_call_names s' !! Session.tool_call_id msg);
               Session.fr_response :=
                 {[ "error" := PStr ("Unknown tool: " +:+ Session.tool_name msg) ]} |}]
       ∧ receive_task (receive_step v) = Receiving)
  ∧ (∀ srv nm args tool e,
       Tools.tools srv !! nm = Some tool → Tools.handler tool args = Tools.Raises e →
       is_Exception e = true →
       Tools.execute_tool srv nm args
       = Ok {[ "error" := PStr ("Tool execution failed: " +:+ exn_str e) ]})
  ∧ (∀ srv nm args tool x,
       Tools.tools srv !! nm = Some tool → Tools.handler tool args = Tools.ReturnsOther x →
       Tools.execute_tool srv nm args = Ok {[ "result" := PStr (py_str x) ]}).
Proof.
  intros v Hrecv Hrun Hs Hn Hty Hunk.
  split; [intros args; by apply execute_unknown|].
  split; [|split; [apply execute_raising|apply execute_non_dict]].
  apply (unknown_tool_call_answered v s msg g' s' rest); try done.
  apply advance_receiving_ok, enter_receiving_ok.
Qed.

Lemma unknown_tool_error_result_is_sent_witness :
  ∃ s'', session (ctl (receive_step Samples.call_conversation)) = Some s''
    ∧ Session.sent_tool_responses s'' =
        [{| Session.fr_id := "c1"; Session.fr_name := "nonexistent_tool";
            Session.fr_response :=
              {[ "error" := PStr "Unknown tool: nonexistent_tool" ]} |}].
Proof.
  destruct (unknown_tool_error_result_is_sent 0 [Session.SdkMessage Samples.unknown_call]
              [] (Samples.conversing_controller "professional")
              (Samples.conversing_session "professional")
              (Session.tool_call_message "c1" "nonexistent_tool" {[ "text" := PStr "hi" ]})
              Samples.call_pull.2.1.1 Samples.call_pull.2.1.2 Samples.call_pull.2.2
              ltac:(vm_compute; reflexivity) ltac:(vm_compute; reflexivity)
              ltac:(vm_compute; reflexivity) ltac:(vm_compute; reflexivity)
              ltac:(vm_compute; reflexivity) ltac:(vm_compute; reflexivity))
    as (_ & (s'' & Hs & Hsent & _) & _).
  exists s''. split; [exact Hs|]. rewrite Hsent. vm_compute. reflexivity.
Defined.

End ReceiveLoop.

Section SilenceTimeout.
Import Py Hardware Controller Spec.

Lemma stop_fields c :
  state (stop c) = state c ∧ (is_Some (session c) → is_Some (session (stop c))).
Proof. unfold stop, close_session, stop_detector; cbn; by repeat case_match. Qed.

(** A stuck conversation stays stuck, whatever the event loop does. *)
Lemma step_stuck e v : stuck v → stuck (race (step e v)).
Proof.
  intros (Hr & Hrecv & Hst & Hg1 & Hg2 & Hg3 & Hg4 & [s Hs] & Hstate).
  assert (Hrace : ∀ v', raced v' = true → race v' = v').
  { intros v' H'. unfold race. by rewrite H'. }
  destruct e as [ms| |ex| |frame|]; cbn [step].
  - rewrite Hrace by done. done.
  - unfold receive_step. rewrite Hrecv, Hs. unfold Session.anext.
    rewrite Hg4, Hg1, Hg3, Hg2, Hst. cbn. rewrite Hrace by done. cbn.
    repeat split; eauto.
  - unfold drain_step. destruct (Playback.drain_step _ _). rewrite Hrace by done.
    cbn. repeat split; eauto.
  - assert (Hm : raced (monitor_step v) = true ∧ stuck (monitor_step v)).
    { unfold monitor_step. repeat case_match; cbn; repeat split; eauto. }
    destruct Hm as [Hm1 Hm2]. by rewrite Hrace.
  - unfold capture_step. rewrite Hs.
    destruct (Capture.capture_step _ _) as [[cap mic] s']. rewrite Hrace by done.
    cbn. repeat split; eauto.
  - rewrite Hrace by done. destruct (stop_fields (ctl v)) as [H1 H2].
    unfold stuck. cbn [raced receive_task stream generator ctl set_ctl].
    repeat split; try done; [apply H2; eauto|by rewrite H1].
Qed.

Lemma stuck_not_joined v : stuck v → joined v = false.
Proof.
  intros (_ & Hrecv & _). unfold joined, receive_done. rewrite Hrecv.
  by destruct (raced v).
Qed.

Lemma converse_stuck sched v :
  stuck v → ∃ c, converse sched v = Suspended c ∧ state c = CONVERSATION.
Proof.
  revert v. induction sched as [|e sched IH]; intros v Hv; cbn;
    rewrite (stuck_not_joined v Hv).
  - exists (ctl v). split; [done|]. apply Hv.
  - apply IH. by apply step_stuck.
Qed.

Lemma converse_app s1 s2 v c :
  converse s1 v = Suspended c → converse (s1 ++ s2) v = converse s2 (advance s1 v).
Proof.
  revert v. induction s1 as [|e s1 IH]; intros v; cbn.
  - destruct (joined v) eqn:Hj; [done|]. intros _. destruct s2; cbn; by rewrite Hj.
  - destruct (joined v); [done|]. apply IH.
Qed.

(** A timeout found while the receive loop waits for a message ends the
    conversation at once: the controller is back in IDLE without a
    session. *)
Lemma timeout_while_receiving_ends v until sched :
  raced v = false →
  receive_task v = Receiving →
  timeout_task v = Sleeping until →
  (until ≤ now v)%Z →
  timed_out (now v) (ctl v) = true →
  ∃ c, converse (RunMonitor :: sched) v = Returned c
       ∧ state c = IDLE ∧ session c = None.
Proof.
  intros Hr Hrecv Hm Hu Ht. cbn [converse]. unfold joined. rewrite Hr. cbn [andb].
  cbn [step]. unfold monitor_step. rewrite Hm.
  destruct (Z.ltb_spec (now v) until) as [Hlt|_]; [lia|]. rewrite Ht.
  unfold race. cbn [raced set_timeout_task]. rewrite Hr.
  unfold receive_done, monitor_done. cbn [receive_task timeout_task set_timeout_task].
  rewrite Hrecv. cbn.
  eexists. split.
  - destruct sched; cbn; reflexivity.
  - unfold conversation_exit, close_session, Capture.stop, Playback.stop. cbn.
    by repeat case_match.
Qed.

(** C3, where the code departs from it.  The personality's silence
    timeout is one second.  The provider sends one reply of a single
    frame that ends its turn, 40 ms into the conversation, and is silent
    from then on.  The receive loop handles the turn's end by waiting in
    [flush] for the drain task; the monitor's second poll, at 2000 ms,
    finds 1960 ms of silence and returns; the handler cancels the receive
    task, [flush] catches the cancellation, and the receive loop goes
    back to waiting for the provider.  From there on, whatever the event
    loop does and however much time passes, as long as [stop] is not
    called, [_run_conversation] does not return: the controller stays in
    CONVERSATION. *)
Theorem timeout_during_flush_never_ends_conversation (later : list Event) :
  CallStop ∉ later →
  let v := advance Samples.short_reply_schedule
             (conversation_enter 0 Samples.short_reply_source
                (Samples.conversing_controller "terse")) in
  (conversation_timeout (ctl v) = 1%Z ∧ last_activity (ctl v) = 40%Z
   ∧ now v = 2000%Z ∧ timed_out (now v) (ctl v) = true
   ∧ timeout_task v = MonitorDone ∧ receive_task v = Receiving
   ∧ stream v = [] ∧ running (ctl v) = true)
  ∧ ∃ c, _run_conversation 0 Samples.short_reply_source
           (Samples.short_reply_schedule ++ later)
           (Samples.conversing_controller "terse") = Suspended c
         ∧ state c = CONVERSATION.
Proof.
  intros _ v. split; [by vm_compute|].
  unfold _run_conversation.
  assert (Hpre : ∃ c0, converse Samples.short_reply_schedule
                         (conversation_enter 0 Samples.short_reply_source
                            (Samples.conversing_controller "terse")) = Suspended c0).
  { eexists. vm_compute. reflexivity. }
  destruct Hpre as [c0 Hpre]. rewrite (converse_app _ later _ _ Hpre).
  apply converse_stuck. fold v. unfold stuck.
  repeat (apply conj; [vm_compute; reflexivity|]).
  apply conj; [|vm_compute; reflexivity].
  apply is_Some_alt. vm_compute. exact I.
Qed.

Lemma timeout_during_flush_never_ends_conversation_witness :
  ∃ c, _run_conversation 0 Samples.short_reply_source
         (Samples.short_reply_schedule
            ++ [Elapse 60000; RunReceive; RunMonitor; RunDrain true;
                RunCapture [x00; x00]; Elapse 3600000; RunReceive])
         (Samples.conversing_controller "terse") = Suspended c
       ∧ state c = CONVERSATION.
Proof.
  refine (proj2 (timeout_during_flush_never_ends_conversation
                   [Elapse 60000; RunReceive; RunMonitor; RunDrain true;
                    RunCapture [x00; x00]; Elapse 3600000; RunReceive] _)).
  intros H. repeat (apply elem_of_cons in H as [H|H]; [discriminate H|]).
  by apply elem_of_nil in H.
Defined.

End SilenceTimeout.

(* ================================================================== *)
(** * More on the tool dispatcher                                      *)
(* ================================================================== *)

Section ToolRegistry.
Import Py Tools.

Lemma registry_wf_registrations (ts : list ToolDefinition) :
  registry_wf (foldr register_tool new_server ts).
Proof.
  induction ts as [|t ts IH]; [apply registry_wf_new|].
  by apply registry_wf_register.
Qed.

Lemma registered_tools_elem srv nm :
  nm ∈ registered_tools srv ↔ is_Some (tools srv !! nm).
Proof.
  unfold registered_tools. rewrite list_elem_of_fmap. split.
  - intros ([k t] & -> & H). apply elem_of_map_to_list in H. by exists t.
  - intros [t H]. exists (nm, t). split; [done|]. by apply elem_of_map_to_list.
Qed.

(** X1.  The registry lists each name once.  After a registration the
    names are the tool's name and the names there were; a tool
    registered under a name that is taken replaces the tool that had it,
    and the number of names stays; and [execute_tool] on that name runs
    the handler of the tool registered last. *)
Theorem registering_a_name_again_replaces_the_tool
    (t : ToolDefinition) (srv : ToolServer) :
  NoDup (registered_tools (register_tool t srv))
  ∧ (∀ nm, nm ∈ registered_tools (register_tool t srv)
           ↔ nm = name t ∨ nm ∈ registered_tools srv)
  ∧ (∀ t0, name t0 = name t →
       register_tool t (register_tool t0 srv) = register_tool t srv
       ∧ length (registered_tools (register_tool t (register_tool t0 srv)))
         = length (registered_tools (register_tool t0 srv)))
  ∧ (∀ args d, handler t args = ReturnsDict d →
       execute_tool (register_tool t srv) (name t) args = Ok d).
Proof.
  split; [apply NoDup_fst_map_to_list|]. split; [|split].
  - intros nm. rewrite !registered_tools_elem. unfold register_tool. cbn.
    destruct (decide (nm = name t)) as [->|Hne].
    + rewrite lookup_insert_eq. split; [by left|by eauto].
    + rewrite lookup_insert_ne by done. split; [by right|]. by intros [?|?].
  - intros t0 H0. unfold register_tool, registered_tools. cbn. rewrite H0.
    rewrite insert_insert_eq. split; [done|].
    rewrite !length_fmap, !length_map_to_list.
    destruct (tools srv !! name t) as [t'|] eqn:Hl.
    + rewrite !map_size_insert_Some; eauto.
    + by rewrite !map_size_insert_None.
  - intros args d Hd. unfold execute_tool, register_tool. cbn.
    by rewrite lookup_insert_eq, Hd.
Qed.

(** X2.  After any sequence of registrations, [get_tool_declarations]
    returns None exactly when nothing was registered; otherwise it
    returns a single block whose declarations carry, in the order of
    [registered_tools], the registered names, each once, and every
    declaration is that of a tool that was registered. *)
Theorem declarations_follow_the_registry (ts : list ToolDefinition) :
  match get_tool_declarations (foldr register_tool new_server ts) with
  | None => ts = []
  | Some blocks =>
      ts ≠ []
      ∧ ∃ decls,
          blocks = [ {| function_declarations := decls |} ]
          ∧ decl_name <$> decls
            = registered_tools (foldr register_tool new_server ts)
          ∧ NoDup (decl_name <$> decls)
          ∧ (∀ t, t ∈ ts → name t ∈ decl_name <$> decls)
          ∧ (∀ d, d ∈ decls → ∃ t, t ∈ ts ∧ d = declare t)
  end.
Proof.
  pose proof (registry_wf_registrations ts) as Hwf.
  assert (Hin : ∀ k t, tools (foldr register_tool new_server ts) !! k = Some t → t ∈ ts).
  { induction ts as [|t0 ts IH]; cbn; intros k t.
    - by rewrite lookup_empty.
    - destruct (decide (k = name t0)) as [->|Hne].
      + rewrite lookup_insert_eq. intros [= <-]. by left.
      + rewrite lookup_insert_ne by done. intros H. right.
        apply (IH (registry_wf_registrations ts) k t H). }
  assert (Hreg : ∀ t, t ∈ ts →
            is_Some (tools (foldr register_tool new_server ts) !! name t)).
  { clear. induction ts as [|t0 ts IH]; intros t Ht; [by apply elem_of_nil in Ht|].
    cbn. destruct (decide (name t = name t0)) as [->|Hne].
    - rewrite lookup_insert_eq. eauto.
    - rewrite lookup_insert_ne by done. apply elem_of_cons in Ht as [->|Ht]; [done|].
      by apply IH. }
  set (srv := foldr register_tool new_server ts) in *.
  unfold get_tool_declarations. destruct (decide (tools srv = ∅)) as [He|Hne].
  - destruct ts as [|t0 ts]; [done|]. exfalso.
    destruct (Hreg t0) as [t' Ht']; [by left|]. by rewrite He, lookup_empty in Ht'.
  - split; [intros ->; by apply Hne|].
    eexists. split; [reflexivity|].
    assert (Hnames : decl_name <$> (declare <$> (map_to_list (tools srv)).*2)
                     = registered_tools srv).
    { unfold registered_tools. rewrite <- !list_fmap_compose.
      apply list_fmap_ext. intros i [k t] Hl. cbn.
      apply list_elem_of_lookup_2, elem_of_map_to_list in Hl. by apply Hwf. }
    split; [exact Hnames|]. rewrite Hnames.
    split; [apply NoDup_fst_map_to_list|]. split.
    + intros t Ht. by apply registered_tools_elem, Hreg.
    + intros d Hd. apply list_elem_of_fmap in Hd as (t & -> & Ht).
      apply list_elem_of_fmap in Ht as ([k t'] & -> & Hkt).
      apply elem_of_map_to_list in Hkt. exists t'. split; [by eapply Hin|done].
Qed.

(** X3.  [execute_tool] lets nothing through but what is no
    [Exception]: when it raises, the tool is registered and its handler
    raised that very exception, which is not an [Exception]; and a dict
    the handler returns comes back unchanged. *)
Theorem execute_tool_raises_only_what_is_no_exception
    (srv : ToolServer) (nm : string) (args : dict) :
  match execute_tool srv nm args with
  | Raise e =>
      is_Exception e = false
      ∧ ∃ tool, tools srv !! nm = Some tool ∧ handler tool args = Raises e
  | Ok res =>
      ∀ tool, tools srv !! nm = Some tool →
        match handler tool args with
        | ReturnsDict d => res = d
        | ReturnsOther _ => dom res = {[ "result" ]}
        | Raises _ => dom res = {[ "error" ]}
        end
  end.
Proof.
  unfold execute_tool. destruct (tools srv !! nm) as [tool|] eqn:Hl; [|done].
  destruct (handler tool args) as [d|x|e] eqn:Hh.
  - intros tool' [= <-]. by rewrite Hh.
  - intros tool' [= <-]. rewrite Hh. by rewrite dom_singleton_L.
  - destruct (is_Exception e) eqn:He.
    + intros tool' [= <-]. rewrite Hh. by rewrite dom_singleton_L.
    + eauto.
Qed.

End ToolRegistry.

(* ================================================================== *)
(** * More on the remote session client                                *)
(* ================================================================== *)

Section ParsedMessages.
Import Py Session Iteration Spec2.

Lemma parse_function_calls_messages fcs names :
  (parse_function_calls fcs names).1
  = (fun fc => tool_call_message (default "" (fc_id fc)) (default "" (fc_name fc))
                                 (default ∅ (fc_args fc))) <$> fcs.
Proof.
  revert names. induction fcs as [|fc fcs IH]; intros names; [done|].
  cbn. specialize (IH (<[default "" (fc_id fc) := default "" (fc_name fc)]> names)).
  destruct (parse_function_calls fcs _) as [msgs names']. cbn in *. by rewrite IH.
Qed.

Lemma parse_function_calls_other fcs names k :
  k ∉ (fun fc => default "" (fc_id fc)) <$> fcs →
  (parse_function_calls fcs names).2 !! k = names !! k.
Proof.
  revert names. induction fcs as [|fc fcs IH]; intros names Hk; [done|].
  cbn in *. apply not_elem_of_cons in Hk as [Hne Hk].
  specialize (IH (<[default "" (fc_id fc) := default "" (fc_name fc)]> names) Hk).
  destruct (parse_function_calls fcs _) as [msgs names']. cbn in *.
  rewrite IH. by rewrite lookup_insert_ne.
Qed.

Lemma parse_function_calls_recorded fcs names fc :
  NoDup ((fun fc => default "" (fc_id fc)) <$> fcs) →
  fc ∈ fcs →
  (parse_function_calls fcs names).2 !! default "" (fc_id fc)
  = Some (default "" (fc_name fc)).
Proof.
  revert names. induction fcs as [|fc0 fcs IH]; intros names Hnd Hin.
  { by apply elem_of_nil in Hin. }
  cbn in Hnd. apply NoDup_cons in Hnd as [Hfresh Hnd].
  pose proof (parse_function_calls_other fcs
                (<[default "" (fc_id fc0) := default "" (fc_name fc0)]> names)) as Hother.
  specialize (IH (<[default "" (fc_id fc0) := default "" (fc_name fc0)]> names) Hnd).
  cbn. destruct (parse_function_calls fcs _) as [msgs names']. cbn in *.
  apply elem_of_cons in Hin as [->|Hin]; [|by apply IH].
  rewrite Hother by done. by rewrite lookup_insert_eq.
Qed.

(** The kinds of message each piece of [_parse_message] produces. *)
Lemma elem_of_concat {A} (x : A) (ls : list (list A)) :
  x ∈ concat ls → ∃ l, x ∈ l ∧ l ∈ ls.
Proof.
  induction ls as [|l ls IH]; cbn; [by intros H%elem_of_nil|].
  intros [H|H]%elem_of_app.
  - exists l. split; [done|by left].
  - destruct (IH H) as (l' & Hx & Hl). exists l'. split; [done|by right].
Qed.

Lemma parse_part_kinds p x :
  x ∈ parse_part p → msg_type x = Audio ∨ msg_type x = Transcription.
Proof.
  unfold parse_part. intros [H|H]%elem_of_app.
  - destruct (nonempty_bytes (inline_data p)); [|by apply elem_of_nil in H].
    apply list_elem_of_singleton in H as ->. by left.
  - destruct (nonempty_text (part_text p)); [|by apply elem_of_nil in H].
    apply list_elem_of_singleton in H as ->. by right.
Qed.

Lemma parse_server_content_kinds sc x :
  x ∈ parse_server_content sc → msg_type x ≠ ToolCall.
Proof.
  unfold parse_server_content. rewrite !elem_of_app. intros [H|[H|[H|[H|H]]]].
  - destruct (model_turn sc) as [parts|]; [|set_solver].
    apply elem_of_concat in H as (l & Hx & Hl).
    apply list_elem_of_fmap in Hl as (p & -> & _).
    by destruct (parse_part_kinds p x Hx) as [-> | ->].
  - case_match; [apply list_elem_of_singleton in H as ->; done|set_solver].
  - case_match; [apply list_elem_of_singleton in H as ->; done|set_solver].
  - case_match; [apply list_elem_of_singleton in H as ->; done|set_solver].
  - case_match; [apply list_elem_of_singleton in H as ->; done|set_solver].
Qed.

Lemma parse_message_tool_calls m names x :
  x ∈ (_parse_message m names).1 → msg_type x = ToolCall →
  ∃ fcs fc, lsm_tool_call m = Some fcs ∧ fc ∈ fcs
    ∧ x = tool_call_message (default "" (fc_id fc)) (default "" (fc_name fc))
                            (default ∅ (fc_args fc))
    ∧ (_parse_message m names).2 = (parse_function_calls fcs names).2.
Proof.
  assert (Hother : ∀ (l : list ServerMessage),
            Forall (fun y => msg_type y ≠ ToolCall) l →
            x ∈ l → msg_type x = ToolCall → False).
  { intros l Hl Hx Hty. by apply (proj1 (Forall_forall _ _) Hl x Hx). }
  assert (Hsetup : Forall (fun y => msg_type y ≠ ToolCall)
                     (if lsm_setup_complete m then [message SetupComplete] else [])).
  { destruct (lsm_setup_complete m); repeat constructor; done. }
  assert (Hcontent : Forall (fun y => msg_type y ≠ ToolCall)
                       (match server_content m with
                        | Some sc => parse_server_content sc
                        | None => []
                        end)).
  { destruct (server_content m) as [sc|]; [|constructor].
    apply Forall_forall. intros y. apply parse_server_content_kinds. }
  assert (Hcancel : Forall (fun y => msg_type y ≠ ToolCall)
                      (match lsm_tool_call_cancellation m with
                       | Some ids => [text_message ToolCallCancellation (join "," ids)]
                       | None => []
                       end)).
  { destruct (lsm_tool_call_cancellation m); repeat constructor; done. }
  assert (Haway : Forall (fun y => msg_type y ≠ ToolCall)
                    (if lsm_go_away m then [message GoAway] else [])).
  { destruct (lsm_go_away m); repeat constructor; done. }
  unfold _parse_message.
  destruct (lsm_tool_call m) as [fcs|] eqn:Hfcs.
  - pose proof (parse_function_calls_messages fcs names) as Hmsgs.
    destruct (parse_function_calls fcs names) as [calls names'] eqn:Hp. cbn in *.
    rewrite !elem_of_app.
    intros [H|[H|[H|[H|H]]]] Hty;
      [by destruct (Hother _ Hsetup)|by destruct (Hother _ Hcontent)|
       |by destruct (Hother _ Hcancel)|by destruct (Hother _ Haway)].
    subst calls. apply list_elem_of_fmap in H as (fc & -> & Hfc).
    exists fcs, fc. by rewrite Hp.
  - cbn [fst]. rewrite !elem_of_app.
    intros [H|[H|[H|[H|H]]]] Hty;
      [by destruct (Hother _ Hsetup)|by destruct (Hother _ Hcontent)|
       |by destruct (Hother _ Hcancel)|by destruct (Hother _ Haway)].
    by apply elem_of_nil in H.
Qed.

(** X4.  A provider message whose function calls have pairwise distinct
    ids is parsed on a session that can send.  For every tool call among
    the parsed messages, the response sent under the call's id carries
    the call's name; the id is then forgotten, so that a second response
    under the same id carries the empty name. *)
Theorem tool_response_carries_the_call_name
    (m : LiveServerMessage) (s : GeminiSession) (x : ServerMessage) (res res2 : dict) :
  NoDup (call_ids m) →
  unusable s = false →
  x ∈ (_parse_message m (tool_call_names s)).1 →
  msg_type x = ToolCall →
  ∃ s1 s2,
    send_tool_response (tool_call_id x) res
      (set_tool_call_names (_parse_message m (tool_call_names s)).2 s) = Ok s1
    ∧ sent_tool_responses s1
      = sent_tool_responses s
          ++ [{| fr_id := tool_call_id x; fr_name := tool_name x; fr_response := res |}]
    ∧ tool_call_names s1 !! tool_call_id x = None
    ∧ send_tool_response (tool_call_id x) res2 s1 = Ok s2
    ∧ sent_tool_responses s2
      = sent_tool_responses s1
          ++ [{| fr_id := tool_call_id x; fr_name := ""; fr_response := res2 |}].
Proof.
  intros Hnd Hus Hx Hty.
  destruct (parse_message_tool_calls _ _ _ Hx Hty) as (fcs & fc & Hfcs & Hfc & -> & Hnames).
  unfold call_ids in Hnd. rewrite Hfcs in Hnd.
  pose proof (parse_function_calls_recorded fcs (tool_call_names s) fc Hnd Hfc) as Hrec.
  rewrite <- Hnames in Hrec.
  unfold send_tool_response at 1.
  replace (unusable (set_tool_call_names _ s)) with (unusable s) by reflexivity.
  rewrite Hus. eexists _, _. split; [reflexivity|]. cbn.
  rewrite Hrec. cbn. split; [done|]. split; [by rewrite lookup_delete_eq|].
  unfold send_tool_response, unusable in *. cbn. rewrite Hus. cbn.
  by rewrite lookup_delete_eq.
Qed.

Lemma tool_response_carries_the_call_name_witness :
  ∃ s1 s2,
    send_tool_response "c1" {[ "error" := PStr "Unknown tool: nonexistent_tool" ]}
      (set_tool_call_names
         (_parse_message Samples.unknown_call (tool_call_names Samples.open_session)).2
         Samples.open_session) = Ok s1
    ∧ sent_tool_responses s1
      = [{| fr_id := "c1"; fr_name := "nonexistent_tool";
            fr_response := {[ "error" := PStr "Unknown tool: nonexistent_tool" ]} |}]
    ∧ send_tool_response "c1" ∅ s1 = Ok s2
    ∧ sent_tool_responses s2
      = sent_tool_responses s1 ++ [{| fr_id := "c1"; fr_name := ""; fr_response := ∅ |}].
Proof.
  assert (Hids : NoDup (call_ids Samples.unknown_call))
    by (vm_compute; apply NoDup_singleton).
  assert (Hin : Session.tool_call_message "c1" "nonexistent_tool" {[ "text" := PStr "hi" ]}
                ∈ (_parse_message Samples.unknown_call
                     (tool_call_names Samples.open_session)).1)
    by (vm_compute; apply list_elem_of_here).
  destruct (tool_response_carries_the_call_name Samples.unknown_call Samples.open_session
              (Session.tool_call_message "c1" "nonexistent_tool" {[ "text" := PStr "hi" ]})
              {[ "error" := PStr "Unknown tool: nonexistent_tool" ]} ∅
              Hids ltac:(vm_compute; reflexivity) Hin ltac:(vm_compute; reflexivity))
    as (s1 & s2 & H1 & H2 & _ & H3 & H4).
  exists s1, s2.
  apply conj; [exact H1|]. apply conj; [rewrite H2; vm_compute; reflexivity|].
  apply conj; [exact H3|exact H4].
Defined.

Lemma filter_audio_parse_part p :
  audio_data <$> filter (fun x => msg_type x = Audio) (parse_part p)
  = option_list (nonempty_bytes (inline_data p)).
Proof.
  unfold parse_part.
  destruct (nonempty_bytes (inline_data p)), (nonempty_text (part_text p)); done.
Qed.

Lemma filter_audio_join parts :
  audio_data <$> filter (fun x => msg_type x = Audio) (concat (parse_part <$> parts))
  = omap (fun p => nonempty_bytes (inline_data p)) parts.
Proof.
  induction parts as [|p parts IH]; [done|].
  cbn [fmap list_fmap concat]. rewrite filter_app, fmap_app, IH, filter_audio_parse_part.
  cbn. by destruct (nonempty_bytes (inline_data p)).
Qed.

(** X5.  The audio messages a provider message parses to carry, in the
    order of the parts, the payloads of the parts that have one; parts
    without data or with empty data give no audio message, and nothing
    else in the provider message does. *)
Theorem parsed_audio_follows_the_parts
    (m : LiveServerMessage) (names : gmap string string) :
  audio_data <$> filter (fun x => msg_type x = Audio) (_parse_message m names).1
  = audio_parts m
  ∧ Forall (fun d => d ≠ []) (audio_parts m).
Proof.
  split.
  - unfold _parse_message, audio_parts.
    assert (Hcalls : ∀ fcs ns,
              filter (fun x => msg_type x = Audio) (parse_function_calls fcs ns).1 = []).
    { intros fcs ns. rewrite parse_function_calls_messages.
      induction fcs as [|fc fcs IH]; [done|].
      rewrite fmap_cons, filter_cons_False by done. exact IH. }
    destruct (lsm_tool_call m) as [fcs|].
    + specialize (Hcalls fcs names).
      destruct (parse_function_calls fcs names) as [calls names']. cbn in *.
      rewrite !filter_app, Hcalls. rewrite !fmap_app.
      destruct (lsm_setup_complete m), (lsm_tool_call_cancellation m), (lsm_go_away m);
        cbn; rewrite ?app_nil_r;
        (destruct (server_content m) as [sc|]; [|done]);
        unfold parse_server_content; rewrite !filter_app, !fmap_app;
        (destruct (model_turn sc) as [parts|]; [rewrite filter_audio_join|]);
        repeat case_match; cbn; by rewrite ?app_nil_r.
    + cbn. rewrite !filter_app, !fmap_app.
      destruct (lsm_setup_complete m), (lsm_tool_call_cancellation m), (lsm_go_away m);
        cbn; rewrite ?app_nil_r;
        (destruct (server_content m) as [sc|]; [|done]);
        unfold parse_server_content; rewrite !filter_app, !fmap_app;
        (destruct (model_turn sc) as [parts|]; [rewrite filter_audio_join|]);
        repeat case_match; cbn; by rewrite ?app_nil_r.
  - unfold audio_parts. destruct (server_content m) as [sc|]; [|done].
    destruct (model_turn sc) as [parts|]; [|done].
    apply Forall_forall. intros d Hd. apply list_elem_of_omap in Hd as (p & _ & Hp).
    unfold nonempty_bytes in Hp. by repeat case_match; simplify_eq.
Qed.

End ParsedMessages.

Section ReceiveIteration.
Import Py Session Iteration Spec2.

Lemma set_tool_call_names_same s : set_tool_call_names (tool_call_names s) s = s.
Proof. by destruct s. Qed.

Lemma set_tool_call_names_twice n1 n2 s :
  set_tool_call_names n2 (set_tool_call_names n1 s) = set_tool_call_names n2 s.
Proof. done. Qed.

Lemma collect_buffered buf fuel s stream :
  collect (length buf + fuel)
          {| started := true; buffered := buf; at_error_yield := false;
             exhausted := false |} s stream
  = (buf ++ (collect fuel waiting_receiver s stream).1,
     (collect fuel waiting_receiver s stream).2).
Proof.
  induction buf as [|x buf IH]; cbn [length Nat.add app].
  - unfold waiting_receiver. by destruct (collect fuel _ s stream).
  - cbn [collect]. unfold anext at 1. cbn. fold waiting_receiver.
    rewrite IH. done.
Qed.

Lemma collect_stream ms s fuel :
  length (parse_all ms (tool_call_names s)).1 < fuel →
  collect fuel waiting_receiver s ((SdkMessage <$> ms) ++ [SdkEnds])
  = ((parse_all ms (tool_call_names s)).1,
     Some (StopAsyncIteration,
           (finished_receiver,
            set_tool_call_names (parse_all ms (tool_call_names s)).2 s, []))).
Proof.
  revert s fuel. induction ms as [|m ms IH]; intros s fuel Hfuel.
  - cbn in *. destruct fuel as [|fuel]; [lia|]. cbn.
    by rewrite set_tool_call_names_same.
  - cbn [parse_all] in *. cbn [fmap list_fmap app].
    destruct (_parse_message m (tool_call_names s)) as [msgs names'] eqn:Hm.
    specialize (IH (set_tool_call_names names' s)).
    cbn [tool_call_names set_tool_call_names] in IH.
    destruct (parse_all ms names') as [more names''] eqn:Hall. cbn [fst snd] in *.
    rewrite length_app in Hfuel.
    destruct fuel as [|fuel]; [lia|].
    destruct msgs as [|x msgs].
    + cbn [collect]. unfold anext at 1. cbn [exhausted started at_error_yield buffered
        waiting_receiver negb andb]. cbn [pull]. rewrite Hm.
      specialize (IH (S fuel) ltac:(cbn in *; lia)).
      cbn [collect] in IH. unfold anext at 1 in IH.
      cbn [exhausted started at_error_yield buffered waiting_receiver negb andb] in IH.
      exact IH.
    + cbn [collect]. unfold anext at 1. cbn [exhausted started at_error_yield buffered
        waiting_receiver negb andb]. cbn [pull]. rewrite Hm.
      cbn [length] in Hfuel.
      replace fuel with (length msgs + (fuel - length msgs)) by lia.
      rewrite collect_buffered.
      rewrite (IH (fuel - length msgs)) by lia. done.
Qed.

(** X6.  Iterating [receive] on a session that can send, over a
    provider that delivers the messages [ms] and then ends, yields every
    message [ms] parses to, in order, and then stops: nothing is lost,
    repeated or reordered, provider messages that parse to nothing are
    passed over, and the session ends up holding the call names of the
    whole run. *)
Theorem receive_yields_every_parsed_message_in_order
    (ms : list LiveServerMessage) (s : GeminiSession) (fuel : nat) :
  unusable s = false →
  length (parse_all ms (tool_call_names s)).1 < fuel →
  collect fuel new_receiver s ((SdkMessage <$> ms) ++ [SdkEnds])
  = ((parse_all ms (tool_call_names s)).1,
     Some (StopAsyncIteration,
           (finished_receiver,
            set_tool_call_names (parse_all ms (tool_call_names s)).2 s, []))).
Proof.
  intros Hus Hfuel. rewrite <- (collect_stream ms s fuel Hfuel).
  destruct fuel as [|fuel]; [done|].
  cbn [collect]. unfold anext.
  cbn [exhausted started at_error_yield buffered waiting_receiver new_receiver
       negb andb]. by rewrite Hus.
Qed.

Lemma receive_yields_every_parsed_message_in_order_witness :
  let ms := [Samples2.audio_only; Samples.unknown_call; Samples.reply [x01; x02]] in
  let got := collect 10 new_receiver Samples.open_session ((SdkMessage <$> ms) ++ [SdkEnds]) in
  msg_type <$> got.1 = [Audio; Transcription; ToolCall; Audio; TurnComplete]
  ∧ got.1 = (parse_all ms (tool_call_names Samples.open_session)).1
  ∧ fst <$> got.2 = Some StopAsyncIteration.
Proof.
  cbv zeta.
  rewrite (receive_yields_every_parsed_message_in_order
             [Samples2.audio_only; Samples.unknown_call; Samples.reply [x01; x02]]
             Samples.open_session 10
             ltac:(vm_compute; reflexivity) ltac:(vm_compute; lia)).
  apply conj; [vm_compute; reflexivity|].
  apply conj; [vm_compute; reflexivity|]. vm_compute; reflexivity.
Defined.

(** X7.  The provider's stream raises while the generator waits.  An
    [Exception] is turned into one error message that carries its text;
    the step after that ends the generator and marks the session as not
    connected, and nothing more is read from the provider.  Anything
    else (a cancellation) leaves through the generator at once, and the
    session stays as it was. *)
Theorem provider_exception_ends_receive_with_one_error
    (g : Receiver) (s : GeminiSession) (e : exn) (rest : list StreamItem) :
  exhausted g = false → started g = true →
  at_error_yield g = false → buffered g = [] →
  let r1 := anext g s (SdkRaises e :: rest) in
  let r2 := anext r1.2.1.1 r1.2.1.2 r1.2.2 in
  let r3 := anext r2.2.1.1 r2.2.1.2 r2.2.2 in
  r1.2.1.2 = s ∧ r2.1 = StopAsyncIteration ∧ r3.1 = StopAsyncIteration
  ∧ r2.2.2 = rest ∧ r3.2.2 = rest
  ∧ if is_Exception e
    then r1.1 = Yields (text_message Error (exn_str e))
         ∧ is_connected r2.2.1.2 = false ∧ is_connected r3.2.1.2 = false
    else r1.1 = Throws e ∧ r2.2.1.2 = s ∧ r3.2.1.2 = s.
Proof.
  intros Hex Hst Herr Hbuf.
  assert (H1 : anext g s (SdkRaises e :: rest) = pull (SdkRaises e :: rest) s).
  { unfold anext. by rewrite Hex, Hst, Herr, Hbuf. }
  rewrite H1. cbn [pull]. destruct (is_Exception e); cbn; done.
Qed.

Lemma provider_exception_ends_receive_with_one_error_witness :
  let r1 := anext waiting_receiver Samples.open_session
              [SdkRaises (OtherError "connection lost"); SdkMessage Samples2.audio_only] in
  let r2 := anext r1.2.1.1 r1.2.1.2 r1.2.2 in
  r1.1 = Yields (text_message Error "connection lost")
  ∧ r2.1 = StopAsyncIteration
  ∧ r2.2.2 = [SdkMessage Samples2.audio_only]
  ∧ is_connected r2.2.1.2 = false.
Proof.
  pose proof (provider_exception_ends_receive_with_one_error waiting_receiver
                Samples.open_session (OtherError "connection lost")
                [SdkMessage Samples2.audio_only]
                ltac:(vm_compute; reflexivity) ltac:(vm_compute; reflexivity)
                ltac:(vm_compute; reflexivity) ltac:(vm_compute; reflexivity)) as H.
  cbv zeta in H. vm_compute in H. vm_compute.
  destruct H as (_ & H2 & _ & H4 & _ & H6 & H7 & _).
  apply conj; [exact H6|]. apply conj; [exact H2|]. apply conj; [exact H4|exact H7].
Defined.

Lemma call_keeps_usable s c :
  (connected s = true → session_cm s = true ∧ sdk_session s = true) →
  connected (call s c) = true →
  session_cm (call s c) = true ∧ sdk_session (call s c) = true.
Proof.
  intros Hs. destruct c as [o|chunk|id res|g stream|]; cbn [call].
  - destruct o; cbn; intuition.
  - unfold send_audio. destruct (unusable s); cbn; intuition.
  - unfold send_tool_response. destruct (unusable s); cbn; intuition.
  - assert (Hpull : ∀ st s0, connected (pull st s0).2.1.2 = connected s0
                     ∧ session_cm (pull st s0).2.1.2 = session_cm s0
                     ∧ sdk_session (pull st s0).2.1.2 = sdk_session s0).
    { induction st as [|[m|e|] st IH]; intros s0; cbn; try done.
      - destruct (_parse_message m (tool_call_names s0)) as [[|x msgs] names]; [|done].
        destruct (IH (set_tool_call_names names s0)) as (-> & -> & ->). done.
      - by destruct (is_Exception e). }
    unfold anext. destruct (exhausted g); [done|].
    destruct (negb (started g) && unusable s); [done|].
    destruct (at_error_yield g); [done|].
    destruct (buffered g); [|done].
    destruct (Hpull stream s) as (-> & -> & ->). done.
  - unfold close. destruct (session_cm s) eqn:Hcm; cbn; [done|]. by rewrite Hcm.
Qed.

(** X8.  However a session is used (connection attempts that succeed or
    fail, sends, steps of [receive], closes), it is connected only while
    it holds the provider's session: the guard of the sending operations
    fails exactly when [is_connected] is false, so a send on a session
    that reports itself connected goes through.  [close] always leaves
    the session not connected, a second [close] changes nothing, and a
    closed session can be connected again. *)
Theorem session_is_connected_exactly_when_usable
    (key : string) (cfg : GeminiSessionConfig) (cs : list Call) :
  let s := calls cs (new_session key cfg) in
  unusable s = negb (is_connected s)
  ∧ (∀ chunk, is_connected s = true →
       ∃ s', send_audio chunk s = Ok s' ∧ sent_audio s' = sent_audio s ++ [chunk])
  ∧ is_connected (close s) = false
  ∧ close (close s) = close s
  ∧ is_connected (connect Connects (close s)).1 = true.
Proof.
  cbv zeta.
  assert (Hinv : connected (calls cs (new_session key cfg)) = true →
                 session_cm (calls cs (new_session key cfg)) = true
                 ∧ sdk_session (calls cs (new_session key cfg)) = true).
  { unfold calls. induction cs as [|c cs IH] using rev_ind; [done|].
    rewrite foldl_app. cbn [foldl]. by apply call_keeps_usable. }
  set (s := calls cs (new_session key cfg)) in *. clearbody s.
  assert (Hus : unusable s = negb (is_connected s)).
  { unfold unusable, is_connected. destruct (connected s); [|done].
    by destruct Hinv as [_ ->]. }
  split; [done|]. split; [|split; [|split]].
  - intros chunk Hc. unfold send_audio. rewrite Hus, Hc. cbn. eauto.
  - unfold close, is_connected. destruct (session_cm s) eqn:Hcm; [done|].
    destruct (connected s); [|done]. destruct Hinv as [Hcm' _]; congruence.
  - unfold close. destruct (session_cm s) eqn:Hcm; cbn; [done|]. by rewrite Hcm.
  - done.
Qed.

End ReceiveIteration.

(* ================================================================== *)
(** * More on the capture pipeline                                     *)
(* ================================================================== *)

Section CaptureLoop.
Import Py Hardware Capture Spec2.

Lemma capture_step_forwards frame cap mic s :
  task cap = Some Running → streaming cap = true →
  in_is_open mic = true → Session.unusable s = false →
  ∃ s', capture_step frame (cap, mic, s) = (cap, mic, s')
        ∧ Session.sent_audio s' = Session.sent_audio s ++ [frame]
        ∧ Session.sent_tool_responses s' = Session.sent_tool_responses s
        ∧ Session.unusable s' = false.
Proof.
  intros Ht Hs Hm Hu. unfold capture_step, read_chunk, in_is_open in *.
  rewrite Ht, Hs, Hm. cbn.
  assert (Hc : Session.is_connected s = true).
  { unfold Session.unusable, Session.is_connected in *. by destruct (Session.connected s). }
  rewrite Hc. unfold Session.send_audio. rewrite Hu. eauto.
Qed.

(** X9.  While the pipeline streams from an open microphone into a
    session that can send, every frame the microphone delivers is sent
    to the provider, in order, without loss or repetition; the pipeline
    and the microphone stay as they are, and nothing else is sent. *)
Theorem capture_forwards_every_frame_in_order
    (frames : list bytes) (cap : AudioCaptureStream) (mic : AudioInput)
    (s : Session.GeminiSession) :
  task cap = Some Running → streaming cap = true →
  in_is_open mic = true → Session.unusable s = false →
  (capture_rounds frames (cap, mic, s)).1 = (cap, mic)
  ∧ Session.sent_audio (capture_rounds frames (cap, mic, s)).2 = Session.sent_audio s ++ frames
  ∧ Session.sent_tool_responses (capture_rounds frames (cap, mic, s)).2
    = Session.sent_tool_responses s.
Proof.
  intros Ht Hs Hm. revert s. induction frames as [|f frames IH]; intros s Hu.
  - cbn. by rewrite app_nil_r.
  - unfold capture_rounds in *. cbn [foldl].
    destruct (capture_step_forwards f cap mic s Ht Hs Hm Hu) as (s' & -> & Ha & Hr & Hu').
    destruct (IH s' Hu') as (-> & -> & ->). rewrite Ha, Hr, <- app_assoc. done.
Qed.

Lemma capture_forwards_every_frame_in_order_witness :
  Session.sent_audio
    (capture_rounds Samples2.frames (Samples2.capturing, Samples.open_session)).2
  = Samples2.frames
  ∧ (capture_rounds Samples2.frames (Samples2.capturing, Samples.open_session)).1
    = Samples2.capturing.
Proof.
  destruct (capture_forwards_every_frame_in_order Samples2.frames
              Samples2.capturing.1 Samples2.capturing.2 Samples.open_session
              ltac:(vm_compute; reflexivity) ltac:(vm_compute; reflexivity)
              ltac:(vm_compute; reflexivity) ltac:(vm_compute; reflexivity))
    as (H1 & H2 & _).
  vm_compute in H1, H2. vm_compute. exact (conj H2 H1).
Defined.

(** X10.  Two ways the loop sends nothing.  While the session reports
    itself not connected, the loop reads the microphone and drops every
    frame, and goes on streaming.  When the microphone is closed, the
    first read fails: the loop logs the error, stops streaming and ends,
    whatever frames would have followed. *)
Theorem capture_drops_frames_or_ends_on_a_closed_microphone
    (frames : list bytes) (cap : AudioCaptureStream) (mic : AudioInput)
    (s : Session.GeminiSession) :
  task cap = Some Running → streaming cap = true →
  (in_is_open mic = true → Session.is_connected s = false →
     capture_rounds frames (cap, mic, s) = (cap, mic, s))
  ∧ (in_is_open mic = false → frames ≠ [] →
     capture_rounds frames (cap, mic, s)
     = (set_task (Some Finished) (set_streaming false cap), mic, s)).
Proof.
  intros Ht Hs. split.
  - intros Hm Hc. unfold capture_rounds.
    assert (Hstep : ∀ f, capture_step f (cap, mic, s) = (cap, mic, s)).
    { intros f. unfold capture_step, read_chunk, in_is_open in *.
      by rewrite Ht, Hs, Hm, Hc. }
    induction frames as [|f frames IH]; [done|]. cbn [foldl]. by rewrite Hstep.
  - intros Hm Hne. unfold capture_rounds.
    destruct frames as [|f frames]; [done|]. clear Hne. cbn [foldl].
    assert (Hstep : capture_step f (cap, mic, s)
                    = (set_task (Some Finished) (set_streaming false cap), mic, s)).
    { unfold capture_step, read_chunk, in_is_open in *. by rewrite Ht, Hs, Hm. }
    rewrite Hstep. induction frames as [|f' frames IH]; [done|]. cbn [foldl]. exact IH.
Qed.

Lemma capture_drops_frames_or_ends_on_a_closed_microphone_witness :
  capture_rounds Samples2.frames (Samples2.capturing, Samples.closed_session)
  = (Samples2.capturing, Samples.closed_session)
  ∧ capture_rounds Samples2.frames
      (Samples2.capturing.1, {| in_open := false |}, Samples.open_session)
    = (set_task (Some Finished) (set_streaming false Samples2.capturing.1),
       {| in_open := false |}, Samples.open_session).
Proof.
  destruct (capture_drops_frames_or_ends_on_a_closed_microphone Samples2.frames
              Samples2.capturing.1 Samples2.capturing.2 Samples.closed_session
              ltac:(vm_compute; reflexivity) ltac:(vm_compute; reflexivity))
    as [H1 _].
  destruct (capture_drops_frames_or_ends_on_a_closed_microphone Samples2.frames
              Samples2.capturing.1 {| in_open := false |} Samples.open_session
              ltac:(vm_compute; reflexivity) ltac:(vm_compute; reflexivity))
    as [_ H2].
  pose proof (H1 ltac:(vm_compute; reflexivity) ltac:(vm_compute; reflexivity)) as H3.
  pose proof (H2 ltac:(vm_compute; reflexivity) ltac:(discriminate)) as H4.
  vm_compute in H3, H4. vm_compute. exact (conj H3 H4).
Defined.

End CaptureLoop.

(* ================================================================== *)
(** * More on the conversation                                         *)
(* ================================================================== *)

Section ConversationEnds.
Import Py Hardware Controller Spec Spec2.

Lemma conversation_exit_fields v :
  state (conversation_exit v) = IDLE
  ∧ session (conversation_exit v) = None
  ∧ in_is_open (audio_input (conversation_exit v)) = false
  ∧ out_is_open (audio_output (conversation_exit v)) = false
  ∧ running (conversation_exit v) = running (ctl v)
  ∧ written (audio_output (conversation_exit v)) = written (audio_output (ctl v)).
Proof.
  unfold conversation_exit, Capture.stop, Playback.stop, close_session,
    in_is_open, out_is_open.
  destruct (audio_input (ctl v)) as [[]], (audio_output (ctl v)) as [[] w];
    cbn; by repeat case_match.
Qed.

Lemma converse_returned sched v c :
  converse sched v = Returned c → ∃ v', c = conversation_exit v'.
Proof.
  revert v. induction sched as [|e sched IH]; intros v; cbn;
    destruct (joined v); try done; try (intros [= <-]; eauto). apply IH.
Qed.

(** X11.  Whenever [_run_conversation] returns, whatever happened in
    the conversation, the controller is in IDLE and holds no session,
    and the microphone and the speaker are closed. *)
Theorem conversation_returns_with_everything_closed
    (t0 : Z) (source : list Session.StreamItem) (sched : list Event)
    (c c' : RobotController) :
  _run_conversation t0 source sched c = Returned c' →
  state c' = IDLE ∧ session c' = None
  ∧ in_is_open (audio_input c') = false
  ∧ out_is_open (audio_output c') = false.
Proof.
  unfold _run_conversation. intros (v' & ->)%converse_returned.
  destruct (conversation_exit_fields v') as (? & ? & ? & ? & _). done.
Qed.

Lemma conversation_returns_with_everything_closed_witness :
  Samples2.ended_by_provider = Returned (Samples2.reached Samples2.ended_by_provider)
  ∧ state (Samples2.reached Samples2.ended_by_provider) = IDLE
  ∧ session (Samples2.reached Samples2.ended_by_provider) = None
  ∧ in_is_open (audio_input (Samples2.reached Samples2.ended_by_provider)) = false
  ∧ out_is_open (audio_output (Samples2.reached Samples2.ended_by_provider)) = false.
Proof.
  assert (H : _run_conversation 0 [Session.SdkEnds] [RunReceive]
                (Samples.conversing_controller "professional")
              = Returned (Samples2.reached Samples2.ended_by_provider))
    by (vm_compute; reflexivity).
  apply conj; [exact H|].
  exact (conversation_returns_with_everything_closed 0 [Session.SdkEnds] [RunReceive]
           (Samples.conversing_controller "professional")
           (Samples2.reached Samples2.ended_by_provider) H).
Defined.

(** X12.  The receive loop waits for a message, the monitor has not
    fired, and the provider's next item is a go_away message, an error
    message, the end of its stream or an exception.  Then the receive
    task ends at its next step, the monitor is cancelled, and
    [_run_conversation] returns with the controller in IDLE and without
    a session, whatever else was scheduled. *)
Theorem provider_end_returns_the_controller_to_idle
    (v : Conversation) (s : Session.GeminiSession) (next : Session.Next)
    (g' : Session.Receiver) (s' : Session.GeminiSession)
    (rest : list Session.StreamItem) (sched : list Event) :
  raced v = false →
  receive_task v = Receiving →
  session (ctl v) = Some s →
  Session.anext (generator v) s (stream v) = (next, (g', s', rest)) →
  ends_the_loop next →
  ∃ c, converse (RunReceive :: sched) v = Returned c
       ∧ state c = IDLE ∧ session c = None.
Proof.
  intros Hr Hrecv Hs Hn Hend.
  assert (Hraced : raced (receive_step v) = raced v).
  { unfold receive_step, receive_one. repeat case_match; done. }
  assert (Hdone : receive_task (receive_step v) = ReceiveDone
                  ∧ raced (receive_step v) = false).
  { split; [|by rewrite Hraced].
    unfold receive_step. rewrite Hrecv, Hs, Hn.
    destruct next as [msg| |e|]; unfold ends_the_loop in Hend; [|done|done|done].
    unfold receive_one. cbn [ctl set_source set_ctl].
    destruct (negb (running (set_session (Some s') (ctl v)))); [done|].
    destruct (_handle_message _ _ _ _) as [[c1 pb1] h] eqn:Hh.
    assert (Hhandled : h = Handled).
    { unfold _handle_message in Hh. destruct Hend as [Hty|Hty]; rewrite Hty in Hh;
        by injection Hh as <- <- <-. }
    subst h. by destruct Hend as [-> | ->]. }
  destruct Hdone as [Hd Hr'].
  cbn [converse]. unfold joined at 1. rewrite Hr. cbn [andb step].
  assert (Hj : joined (race (receive_step v)) = true).
  { unfold race. rewrite Hr'. unfold receive_done at 1. rewrite Hd. cbn [orb].
    unfold joined, receive_done, monitor_done.
    destruct (timeout_task (receive_step v)) eqn:Ht; cbn; rewrite ?Hd; cbn;
      rewrite ?Ht, ?Hd; done. }
  assert (Hret : converse sched (race (receive_step v))
                 = Returned (conversation_exit (race (receive_step v)))).
  { destruct sched; cbn; by rewrite Hj. }
  rewrite Hret. eexists. split; [done|].
  destruct (conversation_exit_fields (race (receive_step v))) as (? & ? & _). done.
Qed.

Lemma provider_end_returns_the_controller_to_idle_witness :
  ∃ c, converse [RunReceive; RunCapture [x01; x02]] Samples2.leaving = Returned c
       ∧ state c = IDLE ∧ session c = None.
Proof.
  pose (r := Session.anext (generator Samples2.leaving)
               (Samples.conversing_session "professional") (stream Samples2.leaving)).
  assert (Hend : ends_the_loop r.1) by (vm_compute; left; reflexivity).
  exact (provider_end_returns_the_controller_to_idle Samples2.leaving
           (Samples.conversing_session "professional") r.1 r.2.1.1 r.2.1.2 r.2.2
           [RunCapture [x01; x02]]
           ltac:(vm_compute; reflexivity) ltac:(vm_compute; reflexivity)
           ltac:(vm_compute; reflexivity) ltac:(vm_compute; reflexivity) Hend).
Defined.

End ConversationEnds.

Section ConversationInvariants.
Import Py Hardware Controller Spec Spec2.

(** What a step of the generator can do to the session. *)
Lemma pull_flags stream s :
  Session.session_cm (Session.pull stream s).2.1.2 = Session.session_cm s
  ∧ Session.sdk_session (Session.pull stream s).2.1.2 = Session.sdk_session s
  ∧ Session.connected (Session.pull stream s).2.1.2 = Session.connected s
  ∧ Session.sent_audio (Session.pull stream s).2.1.2 = Session.sent_audio s.
Proof.
  revert s. induction stream as [|[m|e|] stream IH]; intros s; cbn; try done.
  - destruct (Session._parse_message m (Session.tool_call_names s))
      as [[|x msgs] names]; [|done].
    destruct (IH (Session.set_tool_call_names names s)) as (-> & -> & -> & ->). done.
  - by destruct (is_Exception e).
Qed.

Lemma anext_flags g s stream :
  Session.session_cm (Session.anext g s stream).2.1.2 = Session.session_cm s
  ∧ Session.sdk_session (Session.anext g s stream).2.1.2 = Session.sdk_session s
  ∧ (Session.connected (Session.anext g s stream).2.1.2 = Session.connected s
     ∨ Session.connected (Session.anext g s stream).2.1.2 = false)
  ∧ Session.sent_audio (Session.anext g s stream).2.1.2 = Session.sent_audio s.
Proof.
  unfold Session.anext. destruct (Session.exhausted g); [by auto|].
  destruct (negb (Session.started g) && Session.unusable s); [by auto|].
  destruct (Session.at_error_yield g); [by auto|].
  destruct (Session.buffered g); [|by auto].
  destruct (pull_flags stream s) as (-> & -> & -> & ->). auto.
Qed.

Lemma stop_session c :
  session (stop c)
  = (fun s => if Session.is_connected s then Session.close s else s) <$> session c.
Proof.
  unfold stop. cbv zeta.
  set (c2 := match stop_event (set_running false c) with
             | Some _ => set_stop_event (Some true) (set_running false c)
             | None => set_running false c
             end).
  assert (H : session (stop_detector c2) = session c).
  { rewrite (proj2 (proj2 (proj2 (stop_detector_fields c2)))). subst c2. cbn.
    by destruct (stop_event c). }
  rewrite <- H. unfold close_session.
  destruct (session (stop_detector c2)) as [s|] eqn:Hs; [|by rewrite Hs].
  unfold fmap, option_fmap, option_map.
  destruct (Session.is_connected s); [reflexivity|exact Hs].
Qed.

Lemma close_fields s :
  Session.sent_audio (Session.close s) = Session.sent_audio s
  ∧ (Session.session_cm s = true ∨ Session.unusable s = true →
     Session.unusable (Session.close s) = true).
Proof.
  unfold Session.close. destruct (Session.session_cm s); [done|].
  split; [done|]. by intros [?|?].
Qed.

Lemma stop_stopped c :
  session_wf c → stopped (Session.sent_audio <$> session c) (stop c).
Proof.
  intros Hwf. split; [apply stop_running|]. rewrite stop_session.
  destruct (session c) as [s|] eqn:Hs; [|done]. cbn.
  specialize (Hwf s Hs). destruct (close_fields s) as [Ha Hu].
  unfold Session.is_connected. destruct (Session.connected s) eqn:Hcon.
  - rewrite Ha. split; [done|]. intros s0 [= <-]. apply Hu. left. by apply Hwf.
  - split; [done|]. intros s0 [= <-]. unfold Session.unusable. by rewrite Hcon.
Qed.

Lemma stop_keeps_stopped sent c : stopped sent c → stopped sent (stop c).
Proof.
  intros (_ & Hsent & Hus). split; [apply stop_running|]. rewrite stop_session.
  destruct (session c) as [s|]; [|done]. cbn in *.
  specialize (Hus s eq_refl). destruct (close_fields s) as [Ha Hu].
  destruct (Session.is_connected s).
  - rewrite Ha. split; [done|]. intros s0 [= <-]. apply Hu. by right.
  - split; [done|]. by intros s0 [= <-].
Qed.

Lemma step_stopped sent e v : stopped sent (ctl v) → stopped sent (ctl (race (step e v))).
Proof.
  intros H. pose proof H as (Hrun & Hsent & Hus).
  assert (Hrace : ∀ v', ctl (race v') = ctl v').
  { intros v'. unfold race. by repeat case_match. }
  rewrite Hrace. destruct e as [ms| |ex| |frame|]; cbn [step].
  - exact H.
  - unfold receive_step. destruct (receive_task v); try exact H.
    + destruct (session (ctl v)) as [s|] eqn:Hs; [|exact H].
      pose proof (anext_flags (generator v) s (stream v)) as (Hcm & Hsdk & Hcon & Haud).
      destruct (Session.anext (generator v) s (stream v)) as [next [[g' s'] rest]].
      cbn in Hcm, Hsdk, Hcon, Haud.
      assert (Hst : stopped sent (set_session (Some s') (ctl v))).
      { split; [done|]. cbn. split; [by rewrite Haud, <- Hsent|].
        intros s0 [= <-]. specialize (Hus s eq_refl).
        unfold Session.unusable in *. rewrite Hsdk.
        destruct Hcon as [-> | ->]; done. }
      destruct next; try exact Hst.
      pose proof Hst as (Hrun' & _ & _).
      unfold receive_one. cbn [ctl set_source set_ctl]. rewrite Hrun'. exact Hst.
    + destruct (Playback.flush_waits (playback v)); exact H.
  - unfold drain_step. destruct (Playback.drain_step _ _). exact H.
  - unfold monitor_step. repeat case_match; exact H.
  - unfold capture_step. destruct (session (ctl v)) as [s|] eqn:Hs.
    + specialize (Hus s eq_refl).
      assert (Hc : ∀ cap mic, (Capture.capture_step frame (cap, mic, s)).2 = s).
      { intros cap mic. unfold Capture.capture_step, Session.send_audio.
        rewrite Hus. by repeat case_match. }
      specialize (Hc (capture v) (audio_input (ctl v))).
      destruct (Capture.capture_step _ _) as [[cap mic] s']. cbn in Hc. subst s'.
      split; [done|]. cbn. split; [done|]. by intros s0 [= <-].
    + repeat case_match; exact H.
  - by apply stop_keeps_stopped.
Qed.

Lemma advance_stopped sent sched v :
  stopped sent (ctl v) → stopped sent (ctl (advance sched v)).
Proof.
  revert v. induction sched as [|e sched IH]; intros v Hv; [done|].
  apply IH. by apply step_stopped.
Qed.

(** X13.  [stop] has run in the middle of a conversation whose session
    is one that [connect] made.  From then on, whatever is scheduled,
    nothing more of what the microphone delivers reaches the provider:
    the session has sent exactly the audio it had sent before [stop],
    the controller does not run, and the session cannot send.  [stop]
    is one step here: its only await, the closing of the provider
    session, is taken without another task running in between. *)
Theorem no_audio_reaches_the_provider_after_stop
    (v : Conversation) (later : list Event) :
  session_wf (ctl v) →
  Session.sent_audio <$> session (ctl (advance (CallStop :: later) v))
  = Session.sent_audio <$> session (ctl v)
  ∧ running (ctl (advance (CallStop :: later) v)) = false
  ∧ ∀ s, session (ctl (advance (CallStop :: later) v)) = Some s →
         Session.unusable s = true.
Proof.
  intros Hwf.
  assert (Hrace : ∀ v', ctl (race v') = ctl v').
  { intros v'. unfold race. by repeat case_match. }
  assert (H : stopped (Session.sent_audio <$> session (ctl v))
                (ctl (advance (CallStop :: later) v))).
  { change (advance (CallStop :: later) v)
      with (advance later (race (step CallStop v))).
    apply advance_stopped. rewrite Hrace. cbn [step ctl set_ctl].
    by apply stop_stopped. }
  destruct H as (? & ? & ?). done.
Qed.

Lemma no_audio_reaches_the_provider_after_stop_witness :
  Session.sent_audio <$> session (ctl Samples2.talking) = Some [[x01; x02]; [x03; x04]]
  ∧ Session.sent_audio
      <$> session (ctl (advance [CallStop; RunCapture [x05; x06]; RunReceive] Samples2.talking))
    = Some [[x01; x02]; [x03; x04]]
  ∧ running (ctl (advance [CallStop; RunCapture [x05; x06]; RunReceive] Samples2.talking))
    = false.
Proof.
  assert (Hwf : session_wf (ctl Samples2.talking)).
  { intros s Hs _. vm_compute in Hs. injection Hs as <-. vm_compute. reflexivity. }
  destruct (no_audio_reaches_the_provider_after_stop Samples2.talking
              [RunCapture [x05; x06]; RunReceive] Hwf) as (H1 & H2 & _).
  apply conj; [vm_compute; reflexivity|].
  apply conj; [rewrite H1; vm_compute; reflexivity|exact H2].
Defined.

End ConversationInvariants.

Section SilenceMonitor.
Import Py Hardware Controller Spec Spec2.

Lemma race_ctl v : ctl (race v) = ctl v.
Proof. unfold race. by repeat case_match. Qed.

Lemma race_now v : now (race v) = now v.
Proof. unfold race. by repeat case_match. Qed.

(** Apart from [stop], nothing that happens in a conversation changes
    whether the controller runs or the state it is in. *)
Lemma step_keeps_running e v :
  e ≠ CallStop →
  running (ctl (race (step e v))) = running (ctl v)
  ∧ state (ctl (race (step e v))) = state (ctl v).
Proof.
  intros He. rewrite race_ctl. destruct e as [ms| |ex| |frame|]; cbn [step]; try done.
  - unfold receive_step. destruct (receive_task v); try done.
    + destruct (session (ctl v)) as [s|]; [|done].
      destruct (Session.anext (generator v) s (stream v)) as [next [[g' s'] rest]].
      destruct next; try done.
      destruct (receive_one_ok m
                  (set_source g' rest (set_ctl (set_session (Some s') (ctl v)) v)))
        as (_ & -> & -> & _). done.
    + by destruct (Playback.flush_waits (playback v)).
  - unfold drain_step. by destruct (Playback.drain_step _ _).
  - unfold monitor_step. by repeat case_match.
  - unfold capture_step. destruct (session (ctl v)) as [s|].
    + by destruct (Capture.capture_step _ _) as [[cap mic] s'].
    + by repeat case_match.
Qed.

(** The monitor ends by returning only at one of its own polls, and,
    while the controller runs a conversation, only when that poll finds
    the silence to have reached the timeout. *)
Lemma monitor_done_only_by_timeout e v :
  running (ctl v) = true → state (ctl v) = CONVERSATION →
  timeout_task v ≠ MonitorDone →
  timeout_task (race (step e v)) = MonitorDone →
  e = RunMonitor ∧ timed_out (now v) (ctl v) = true.
Proof.
  intros Hrun Hst Hnot Hdone.
  assert (Hrace : ∀ v', timeout_task v' ≠ MonitorDone →
                        timeout_task (race v') ≠ MonitorDone).
  { intros v' H'. unfold race. destruct (raced v'); [done|].
    destruct (receive_done v' || monitor_done v'); [|done].
    destruct (timeout_task v') eqn:Ht; cbn; repeat case_match; cbn; congruence. }
  assert (Hmon : monitoring (ctl v) = true).
  { unfold monitoring. rewrite Hrun, Hst. done. }
  destruct e as [ms| |ex| |frame|]; cbn [step] in Hdone.
  - by apply Hrace in Hdone.
  - exfalso. revert Hdone. apply Hrace.
    unfold receive_step, receive_one. repeat case_match; done.
  - exfalso. revert Hdone. apply Hrace.
    unfold drain_step. by destruct (Playback.drain_step _ _).
  - split; [done|].
    destruct (timed_out (now v) (ctl v)) eqn:Hto; [done|]. exfalso.
    revert Hdone. apply Hrace. unfold monitor_step.
    destruct (timeout_task v) eqn:Ht; try done.
    + by rewrite Hmon.
    + destruct (now v <? until)%Z; [by rewrite Ht|]. by rewrite Hto, Hmon.
    + by rewrite Ht.
  - exfalso. revert Hdone. apply Hrace.
    unfold capture_step. repeat case_match; done.
  - exfalso. revert Hdone. by apply Hrace.
Qed.

Lemma monitor_done_after_timeout sched v :
  running (ctl v) = true → state (ctl v) = CONVERSATION →
  timeout_task v ≠ MonitorDone →
  CallStop ∉ sched →
  timeout_task (advance sched v) = MonitorDone →
  ∃ s1 s2, sched = s1 ++ RunMonitor :: s2
    ∧ timed_out (now (advance s1 v)) (ctl (advance s1 v)) = true.
Proof.
  revert v. induction sched as [|e sched IH]; intros v Hrun Hst Hnot Hstop Hdone.
  { done. }
  apply not_elem_of_cons in Hstop as [He Hstop].
  change (advance (e :: sched) v) with (advance sched (race (step e v))) in Hdone.
  assert (Hcases : timeout_task (race (step e v)) = MonitorDone
                   ∨ timeout_task (race (step e v)) ≠ MonitorDone).
  { destruct (timeout_task (race (step e v))); (by left) || (by right). }
  destruct Hcases as [Hd|Hd].
  - destruct (monitor_done_only_by_timeout e v Hrun Hst Hnot Hd) as [-> Hto].
    by exists [], sched.
  - destruct (step_keeps_running e v) as [Hr' Hs']; [done|].
    destruct (IH (race (step e v))) as (s1 & s2 & -> & Hto);
      [congruence|congruence|done|done|done|].
    by exists (e :: s1), s2.
Qed.

(** X14.  In a conversation of a running controller in which [stop] is
    not called, the silence monitor returns only at one of its own
    polls, and only when, at that poll, the time since the last activity
    has reached the conversation timeout. *)
Theorem silence_monitor_returns_only_after_the_timeout
    (t0 : Z) (source : list Session.StreamItem) (sched : list Event)
    (c : RobotController) :
  running c = true → state c = CONVERSATION → CallStop ∉ sched →
  timeout_task (advance sched (conversation_enter t0 source c)) = MonitorDone →
  ∃ s1 s2, sched = s1 ++ RunMonitor :: s2
    ∧ (1000 * conversation_timeout (ctl (advance s1 (conversation_enter t0 source c)))
       ≤ now (advance s1 (conversation_enter t0 source c))
         - last_activity (ctl (advance s1 (conversation_enter t0 source c))))%Z.
Proof.
  intros Hrun Hst Hstop Hdone.
  assert (Henter : running (ctl (conversation_enter t0 source c)) = true
                   ∧ state (ctl (conversation_enter t0 source c)) = CONVERSATION
                   ∧ timeout_task (conversation_enter t0 source c) ≠ MonitorDone).
  { unfold conversation_enter. destruct (Capture.start _). cbn. done. }
  destruct Henter as (Hr & Hs & Ht).
  destruct (monitor_done_after_timeout sched (conversation_enter t0 source c)
              Hr Hs Ht Hstop Hdone) as (s1 & s2 & -> & Hto).
  exists s1, s2. split; [done|]. unfold timed_out in Hto. by apply Z.leb_le.
Qed.

Lemma silence_monitor_returns_only_after_the_timeout_witness :
  timeout_task
    (advance [RunMonitor; Elapse 600000; RunMonitor]
       (conversation_enter 0 [] (Samples.conversing_controller "professional")))
  = MonitorDone
  ∧ ∃ s1 s2,
      [RunMonitor; Elapse 600000; RunMonitor] = s1 ++ RunMonitor :: s2
      ∧ (1000 * conversation_timeout
                  (ctl (advance s1 (conversation_enter 0 []
                                      (Samples.conversing_controller "professional"))))
         ≤ now (advance s1 (conversation_enter 0 []
                              (Samples.conversing_controller "professional")))
           - last_activity
               (ctl (advance s1 (conversation_enter 0 []
                                   (Samples.conversing_controller "professional")))))%Z.
Proof.
  assert (Hd : timeout_task
                 (advance [RunMonitor; Elapse 600000; RunMonitor]
                    (conversation_enter 0 [] (Samples.conversing_controller "professional")))
               = MonitorDone) by (vm_compute; reflexivity).
  assert (Hs : CallStop ∉ [RunMonitor; Elapse 600000; RunMonitor]).
  { intros H. repeat (inversion H as [|? ? ? H']; clear H; subst; rename H' into H). }
  apply conj; [exact Hd|].
  exact (silence_monitor_returns_only_after_the_timeout 0 []
           [RunMonitor; Elapse 600000; RunMonitor]
           (Samples.conversing_controller "professional")
           ltac:(vm_compute; reflexivity) ltac:(vm_compute; reflexivity) Hs Hd).
Defined.

End SilenceMonitor.

Section PersonalityChoice.
Import Py Hardware Controller Spec Spec2.

(** X15.  [_run_connecting] takes the personality configured as the
    default, looked up by its lower-case name; when there is none of
    that name it takes "friendly"; when that is missing too it returns
    to IDLE without making a session.  With a personality, a connection
    that succeeds leaves a connected session configured with the
    personality's voice, prompt and sensitivity, the model and key of
    the settings and the declarations of the tool server, and the
    conversation timeout becomes the personality's. *)
Theorem connecting_takes_the_configured_personality_or_friendly
    (o : Session.ConnectOutcome) (c : RobotController) :
  resolve_personality c
  = match Personality.personalities (personality_manager c)
            !! lower (default_personality (settings c)) with
    | Some p => Some p
    | None => Personality.personalities (personality_manager c) !! "friendly"
    end
  ∧ (resolve_personality c = None →
     ∃ c', _run_connecting o c = Returned c'
           ∧ state c' = IDLE ∧ session c' = session c)
  ∧ (∀ p, resolve_personality c = Some p →
     ∃ c' s, _run_connecting Session.Connects c = Returned c'
       ∧ state c' = CONVERSATION
       ∧ conversation_timeout c' = Personality.conversation_timeout_seconds p
       ∧ session c' = Some s ∧ Session.is_connected s = true
       ∧ Session.api_key s = gemini_api_key (settings c)
       ∧ Session.model (Session.config s) = gemini_model (settings c)
       ∧ Session.voice (Session.config s) = Personality.voice p
       ∧ Session.system_prompt (Session.config s) = Personality.system_prompt p
       ∧ Session.vad_sensitivity (Session.config s) = Personality.vad_sensitivity p
       ∧ Session.config_tools (Session.config s)
         = default [] (Tools.get_tool_declarations (tool_server c))).
Proof.
  split; [|split].
  - unfold resolve_personality, Personality.get_default, Personality.get_personality.
    change (lower "friendly") with "friendly".
    destruct (Personality.personalities (personality_manager c)
                !! lower (default_personality (settings c))); [done|].
    by destruct (Personality.personalities (personality_manager c) !! "friendly").
  - intros Hnone. unfold _run_connecting.
    replace (resolve_personality (on_display (show_status "connecting") c))
      with (resolve_personality c) by reflexivity.
    rewrite Hnone. eauto.
  - intros p Hp. unfold _run_connecting.
    replace (resolve_personality (on_display (show_status "connecting") c))
      with (resolve_personality c) by reflexivity.
    rewrite Hp. cbn. eexists _, _. split; [reflexivity|]. cbn. done.
Qed.

End PersonalityChoice.

Section Shutdown2.
Import Py Hardware Controller Spec Spec2.

Lemma stop_wf c : session_wf c → session_wf (stop c).
Proof.
  intros Hwf s. rewrite stop_session.
  destruct (session c) as [s0|] eqn:Hs; [|done]. cbn. intros [= <-].
  unfold Session.is_connected. destruct (Session.connected s0) eqn:Hc; [|congruence].
  unfold Session.close. rewrite (Hwf s0 Hs Hc). done.
Qed.

Lemma wait_first_wf woke sched c :
  session_wf c →
  match wait_first woke sched c with
  | Returned (_, c') | Raised _ (_, c') | Suspended (_, c') => session_wf c'
  end.
Proof.
  revert woke c. induction sched as [|t sched IH]; intros woke c Hwf; cbn.
  - by destruct (woke || stop_is_set c).
  - destruct (woke || stop_is_set c); [done|].
    apply IH. destruct (stop_called t); [by apply stop_wf|done].
Qed.

Lemma run_idle_wf sched c :
  session_wf c →
  match _run_idle sched c with
  | Returned c' | Raised _ c' | Suspended c' => session_wf c'
  end.
Proof.
  intros Hwf. unfold _run_idle, _wait_for_event_or_stop.
  set (c1 := start_detector (on_display (show_status "listening") c)).
  assert (Hwf1 : session_wf c1).
  { subst c1. unfold start_detector, WakeWord.start. by repeat case_match. }
  clearbody c1. destruct (stop_event c1); [|done].
  pose proof (wait_first_wf false sched c1 Hwf1) as H.
  destruct (wait_first false sched c1) as [[w c2]|e [w c2]|[w c2]]; try done.
  unfold idle_exit. intros s.
  assert (Hs : session (if w && running (stop_detector c2)
                        then set_state CONNECTING (stop_detector c2)
                        else stop_detector c2) = session c2).
  { destruct (w && running (stop_detector c2)); cbn [session set_state];
      apply (proj2 (proj2 (proj2 (stop_detector_fields c2)))). }
  rewrite Hs. apply H.
Qed.

Lemma run_connecting_wf o c :
  session_wf c →
  match _run_connecting o c with
  | Returned c' | Raised _ c' | Suspended c' => session_wf c'
  end.
Proof.
  intros Hwf. unfold _run_connecting.
  destruct (resolve_personality _) as [p|]; [|done].
  destruct o as [|e|e]; cbn.
  - by intros s [= <-].
  - destruct (is_Exception e); [done|]. by intros s [= <-].
  - destruct (is_Exception e); [done|]. by intros s [= <-].
Qed.

Lemma run_conversation_wf t0 source sched c :
  match _run_conversation t0 source sched c with
  | Returned c' => session_wf c'
  | Raised _ _ => False
  | Suspended _ => True
  end.
Proof.
  unfold _run_conversation.
  generalize (conversation_enter t0 source c). clear.
  induction sched as [|e sched IH]; intros v; cbn [converse].
  - destruct (joined v); [|done].
    destruct (conversation_exit_fields v) as (_ & Hs & _). intros s. by rewrite Hs.
  - destruct (joined v); [|apply IH].
    destruct (conversation_exit_fields v) as (_ & Hs & _). intros s. by rewrite Hs.
Qed.

Lemma main_loop_wf rounds c :
  session_wf c →
  match main_loop rounds c with
  | Returned c' | Raised _ c' => session_wf c'
  | Suspended _ => True
  end.
Proof.
  revert c. induction rounds as [|r rounds IH]; intros c Hwf; cbn.
  - destruct (negb (running c)); [done|]. by destruct (state c).
  - destruct (negb (running c)); [done|].
    destruct (state c); try done.
    + pose proof (run_idle_wf (idle_sched r) c Hwf) as H.
      destruct (_run_idle (idle_sched r) c); try done. by apply IH.
    + pose proof (run_connecting_wf (connect_outcome r) c Hwf) as H.
      destruct (_run_connecting (connect_outcome r) c); try done. by apply IH.
    + pose proof (run_conversation_wf (conversation_t0 r) (conversation_source r)
                    (conversation_sched r) c) as H.
      destruct (_run_conversation _ _ _ c); try done. by apply IH.
Qed.

Lemma shut_down_released c :
  session_wf c →
  state (shut_down c) = SHUTTING_DOWN
  ∧ in_is_open (audio_input (shut_down c)) = false
  ∧ out_is_open (audio_output (shut_down c)) = false
  ∧ WakeWord.listening (wake_detector (shut_down c)) = false
  ∧ (∀ s, session (shut_down c) = Some s → Session.is_connected s = false)
  ∧ (∀ d, display (shut_down c) = Some d → d = {| last_text := ""; last_status := "" |}).
Proof.
  intros Hwf. split; [apply shut_down_state|].
  unfold shut_down, _cleanup.
  set (c1 := close_session (stop_detector (set_state SHUTTING_DOWN c))).
  assert (Hs1 : ∀ s, session c1 = Some s → Session.is_connected s = false).
  { subst c1. unfold close_session.
    rewrite (proj2 (proj2 (proj2 (stop_detector_fields _)))). cbn [session set_state].
    destruct (session c) as [s0|] eqn:Hs.
    - unfold Session.is_connected. destruct (Session.connected s0) eqn:Hc.
      + cbn. intros s [= <-]. unfold Session.close. by rewrite (Hwf s0 Hs Hc).
      + rewrite (proj2 (proj2 (proj2 (stop_detector_fields _)))). cbn.
        rewrite Hs. by intros s [= <-].
    - rewrite (proj2 (proj2 (proj2 (stop_detector_fields _)))). cbn. by rewrite Hs. }
  assert (Hd1 : WakeWord.listening (wake_detector c1) = false).
  { subst c1. unfold close_session, stop_detector, WakeWord.stop. cbn.
    by repeat case_match. }
  clearbody c1.
  set (c2 := if in_is_open (audio_input c1)
             then set_audio_input (in_close_stream (audio_input c1)) c1 else c1).
  assert (H2 : in_is_open (audio_input c2) = false ∧ session c2 = session c1
               ∧ wake_detector c2 = wake_detector c1).
  { subst c2. unfold in_is_open.
    destruct (in_open (audio_input c1)) eqn:Hi; cbn; by rewrite ?Hi. }
  clearbody c2. destruct H2 as (Hmic & Hs2 & Hd2).
  set (c3 := if out_is_open (audio_output c2)
             then set_audio_output (out_stop (audio_output c2)) c2 else c2).
  assert (H3 : out_is_open (audio_output c3) = false
               ∧ audio_input c3 = audio_input c2 ∧ session c3 = session c2
               ∧ wake_detector c3 = wake_detector c2).
  { subst c3. unfold out_is_open.
    destruct (out_open (audio_output c2)) eqn:Ho; cbn; by rewrite ?Ho. }
  clearbody c3. destruct H3 as (Hspk & Hi3 & Hs3 & Hd3).
  unfold on_display. cbn. rewrite Hi3, Hs3, Hs2, Hd3, Hd2.
  do 4 (split; [done|]). intros d Hd.
  destruct (display c3) as [d0|]; [|done]. by injection Hd as <-.
Qed.

(** X16.  A controller that holds no session is started.  Whenever
    [start] leaves, by returning or by raising, the state is
    SHUTTING_DOWN, the microphone and the speaker are closed, the wake
    word detector does not listen, the session, if one is left, is not
    connected, and the display, if there is one, is blank. *)
Theorem start_leaves_with_everything_released
    (rounds : list Round) (c : RobotController) :
  session c = None →
  match start rounds c with
  | Returned c' | Raised _ c' =>
      state c' = SHUTTING_DOWN
      ∧ in_is_open (audio_input c') = false
      ∧ out_is_open (audio_output c') = false
      ∧ WakeWord.listening (wake_detector c') = false
      ∧ (∀ s, session c' = Some s → Session.is_connected s = false)
      ∧ (∀ d, display c' = Some d → d = {| last_text := ""; last_status := "" |})
  | Suspended _ => True
  end.
Proof.
  intros Hnone. unfold start.
  assert (Hwf : session_wf (start_enter c)).
  { intros s. cbn. by rewrite Hnone. }
  pose proof (main_loop_wf rounds (start_enter c) Hwf) as H.
  destruct (main_loop rounds (start_enter c)) as [c'|e c'|c']; [| |done].
  - by apply shut_down_released.
  - destruct (is_Exception e); by apply shut_down_released.
Qed.

Lemma start_leaves_with_everything_released_witness :
  ∃ c', start Samples2.whole_run (Samples.controller "professional") = Returned c'
    ∧ state c' = SHUTTING_DOWN
    ∧ in_is_open (audio_input c') = false
    ∧ out_is_open (audio_output c') = false
    ∧ WakeWord.listening (wake_detector c') = false
    ∧ session c' = None.
Proof.
  assert (Hr : start Samples2.whole_run (Samples.controller "professional")
               = Returned (Samples2.reached
                             (start Samples2.whole_run (Samples.controller "professional"))))
    by (vm_compute; reflexivity).
  pose proof (start_leaves_with_everything_released Samples2.whole_run
                (Samples.controller "professional")
                ltac:(vm_compute; reflexivity)) as H.
  rewrite Hr in H. destruct H as (H1 & H2 & H3 & H4 & _).
  exists (Samples2.reached (start Samples2.whole_run (Samples.controller "professional"))).
  apply conj; [exact Hr|]. apply conj; [exact H1|]. apply conj; [exact H2|].
  apply conj; [exact H3|]. apply conj; [exact H4|]. vm_compute. reflexivity.
Defined.

End Shutdown2.

(* ================================================================== *)
(** * More on the playback pipeline                                    *)
(* ================================================================== *)

Section PlaybackTurn.
Import Py Hardware Playback Spec Spec2.













End PlaybackTurn.

(* ================================================================== *)
(** * The detection loop                                               *)
(* ================================================================== *)

Section DetectionLoop.
Import Py Hardware Detection.

Lemma round_fed r det lp mic :
  ∃ new, fed (round r (det, lp, mic)).1.2 = fed lp ++ new
    ∧ Forall (fun f => length f = _OWW_FRAME_BYTES) new
    ∧ length new ≤ 1
    ∧ detections lp ≤ detections (round r (det, lp, mic)).1.2
    ∧ detections (round r (det, lp, mic)).1.2 ≤ detections lp + 1
    ∧ (length (audio_buffer lp) < _OWW_FRAME_BYTES →
       length (chunk r) ≤ _OWW_FRAME_BYTES →
       length (audio_buffer (round r (det, lp, mic)).1.2) < _OWW_FRAME_BYTES).
Proof.
  assert (Hnone : ∀ (l : list bytes), l = l ++ []) by (intros; by rewrite app_nil_r).
  unfold round, read_chunk.
  destruct (ended lp); [exists []; cbn; repeat split; auto; lia|].
  destruct (negb (WakeWord.listening det)); [exists []; cbn; repeat split; auto; lia|].
  destruct (in_open mic); [|exists []; cbn; repeat split; auto; lia].
  destruct (WakeWord.paused det); [exists []; cbn; repeat split; auto; lia|].
  cbv zeta.
  destruct (Nat.ltb_spec (length (audio_buffer lp ++ chunk r)) _OWW_FRAME_BYTES)
    as [Hlt|Hge].
  { exists []. cbn. repeat split; auto; lia. }
  assert (Hframe : length (take _OWW_FRAME_BYTES (audio_buffer lp ++ chunk r))
                   = _OWW_FRAME_BYTES).
  { rewrite length_take. lia. }
  assert (Hrest : length (audio_buffer lp) < _OWW_FRAME_BYTES →
                  length (chunk r) ≤ _OWW_FRAME_BYTES →
                  length (drop _OWW_FRAME_BYTES (audio_buffer lp ++ chunk r))
                  < _OWW_FRAME_BYTES).
  { rewrite length_drop, length_app. lia. }
  exists [take _OWW_FRAME_BYTES (audio_buffer lp ++ chunk r)].
  destruct (prediction r) as [[]|e]; cbn [fst snd fed detections audio_buffer finish];
    (split; [done|]); (split; [by repeat constructor|]);
    repeat split; auto; cbn; lia.
Qed.

(** X18.  Every frame the loop hands to the model has exactly 2560
    bytes, and a round hands over at most one; the callback fires at
    most once per round; and as long as no chunk is longer than a frame,
    the loop's buffer stays shorter than a frame. *)
Theorem detection_loop_feeds_whole_frames
    (rs : list Round) (det : WakeWord.WakeWordDetector) (lp : Loop) (mic : AudioInput) :
  ∃ new,
    fed (rounds rs (det, lp, mic)).1.2 = fed lp ++ new
    ∧ Forall (fun f => length f = _OWW_FRAME_BYTES) new
    ∧ length new ≤ length rs
    ∧ detections lp ≤ detections (rounds rs (det, lp, mic)).1.2
    ∧ detections (rounds rs (det, lp, mic)).1.2 ≤ detections lp + length rs
    ∧ (length (audio_buffer lp) < _OWW_FRAME_BYTES →
       Forall (fun r => length (chunk r) ≤ _OWW_FRAME_BYTES) rs →
       length (audio_buffer (rounds rs (det, lp, mic)).1.2) < _OWW_FRAME_BYTES).
Proof.
  revert det lp mic. induction rs as [|r rs IH]; intros det lp mic.
  - exists []. unfold rounds. cbn [foldl fst snd length]. rewrite app_nil_r.
    repeat split; auto; lia.
  - unfold rounds. cbn [foldl]. fold (rounds rs (round r (det, lp, mic))).
    destruct (round_fed r det lp mic) as (n1 & Hf1 & Hl1 & Hc1 & Hd1 & Hd1' & Hb1).
    destruct (round r (det, lp, mic)) as [[det1 lp1] mic1]. cbn [fst snd] in *.
    destruct (IH det1 lp1 mic1) as (n2 & Hf2 & Hl2 & Hc2 & Hd2 & Hd2' & Hb2).
    exists (n1 ++ n2). rewrite Hf2, Hf1, <- app_assoc. split; [done|].
    split; [by apply Forall_app|]. rewrite length_app. cbn [length].
    split; [lia|]. split; [lia|]. split; [lia|].
    intros Hb Hrs. apply Forall_cons in Hrs as [Hr Hrs]. auto.
Qed.

Lemma round_conserves r det lp mic :
  ended lp = false → WakeWord.listening det = true → WakeWord.paused det = false →
  in_is_open mic = true → prediction r = Scores false →
  ∃ lp', round r (det, lp, mic) = (det, lp', mic)
    ∧ ended lp' = false ∧ detections lp' = detections lp
    ∧ concat (fed lp') ++ audio_buffer lp'
      = concat (fed lp) ++ audio_buffer lp ++ chunk r.
Proof.
  intros He Hl Hp Hm Hr. unfold round, read_chunk, in_is_open in *.
  rewrite He, Hl, Hm, Hp, Hr. cbn [negb]. cbv zeta.
  destruct (length (audio_buffer lp ++ chunk r) <? _OWW_FRAME_BYTES).
  - eexists. split; [reflexivity|]. cbn. by rewrite app_assoc.
  - eexists. split; [reflexivity|]. cbn. split; [done|]. split; [done|].
    rewrite concat_app. cbn. rewrite app_nil_r, <- !app_assoc.
    by rewrite take_drop.
Qed.

(** X19.  While the detector listens without pause on an open
    microphone and the model finds no wake word, no audio is lost or
    reordered: the frames handed to the model, followed by what is left
    in the buffer, are what was there before followed by the chunks
    read, byte for byte. *)
Theorem detection_loop_loses_no_audio_between_detections
    (rs : list Round) (det : WakeWord.WakeWordDetector) (lp : Loop) (mic : AudioInput) :
  ended lp = false → WakeWord.listening det = true → WakeWord.paused det = false →
  in_is_open mic = true →
  Forall (fun r => prediction r = Scores false) rs →
  ∃ lp', rounds rs (det, lp, mic) = (det, lp', mic)
    ∧ ended lp' = false ∧ detections lp' = detections lp
    ∧ concat (fed lp') ++ audio_buffer lp'
      = concat (fed lp) ++ audio_buffer lp ++ concat (chunk <$> rs).
Proof.
  intros He Hl Hp Hm Hrs. revert lp He.
  induction Hrs as [|r rs Hr _ IH]; intros lp He.
  - exists lp. cbn. by rewrite app_nil_r.
  - unfold rounds. cbn [foldl]. fold (rounds rs (round r (det, lp, mic))).
    destruct (round_conserves r det lp mic He Hl Hp Hm Hr) as (lp1 & -> & He1 & Hd1 & Hc1).
    destruct (IH lp1 He1) as (lp2 & -> & He2 & Hd2 & Hc2).
    exists lp2. split; [done|]. split; [done|]. split; [congruence|].
    rewrite Hc2. cbn [fmap list_fmap concat].
    by rewrite (app_assoc (concat (fed lp1))), Hc1, <- !app_assoc.
Qed.

Lemma detection_loop_loses_no_audio_between_detections_witness :
  ∃ lp', rounds Samples2.uneventful (Samples2.listening.1, new_loop, Samples2.listening.2)
         = (Samples2.listening.1, lp', Samples2.listening.2)
    ∧ ended lp' = false ∧ detections lp' = 0
    ∧ concat (fed lp') ++ audio_buffer lp' = concat (chunk <$> Samples2.uneventful).
Proof.
  destruct (detection_loop_loses_no_audio_between_detections Samples2.uneventful
              Samples2.listening.1 new_loop Samples2.listening.2
              ltac:(vm_compute; reflexivity) ltac:(vm_compute; reflexivity)
              ltac:(vm_compute; reflexivity) ltac:(vm_compute; reflexivity)
              ltac:(repeat (constructor; [reflexivity|]); constructor))
    as (lp' & Hr & He & Hd & Hc).
  exists lp'. apply conj; [exact Hr|]. apply conj; [exact He|].
  apply conj; [exact Hd|]. rewrite Hc. reflexivity.
Defined.

(** X20.  A paused detector reads the microphone and throws away what
    it reads: whatever the rounds, nothing is handed to the model, the
    callback does not fire, and the buffer keeps the bytes it held when
    the pause began, so the first frame after [resume] starts with them.
    [is_listening] is false during the pause and true again after
    [resume]. *)
Theorem paused_detector_discards_what_it_reads
    (rs : list Round) (det : WakeWord.WakeWordDetector) (lp : Loop) (mic : AudioInput) :
  WakeWord.listening det = true → in_is_open mic = true →
  rounds rs (pause det, lp, mic) = (pause det, lp, mic)
  ∧ WakeWord.is_listening (pause det) = false
  ∧ WakeWord.is_listening (resume (pause det)) = true
  ∧ ∀ r, ended lp = false → prediction r = Scores false →
      concat (fed (round r (resume (pause det), lp, mic)).1.2)
      ++ audio_buffer (round r (resume (pause det), lp, mic)).1.2
      = concat (fed lp) ++ audio_buffer lp ++ chunk r.
Proof.
  intros Hl Hm. split; [|split; [|split]].
  - assert (Hstep : ∀ r, round r (pause det, lp, mic) = (pause det, lp, mic)).
    { intros r. unfold round, read_chunk, in_is_open in *. cbn.
      rewrite Hl, Hm. cbn. by destruct (ended lp). }
    unfold rounds. induction rs as [|r rs IH]; [done|]. cbn [foldl]. by rewrite Hstep.
  - unfold WakeWord.is_listening. cbn. by rewrite andb_false_r.
  - unfold WakeWord.is_listening. cbn. by rewrite Hl.
  - intros r He Hr.
    destruct (round_conserves r (resume (pause det)) lp mic He Hl eq_refl Hm Hr)
      as (lp' & -> & _ & _ & Hc). done.
Qed.

Lemma paused_detector_discards_what_it_reads_witness :
  rounds Samples2.uneventful (pause Samples2.listening.1, new_loop, Samples2.listening.2)
  = (pause Samples2.listening.1, new_loop, Samples2.listening.2)
  ∧ WakeWord.is_listening (pause Samples2.listening.1) = false
  ∧ WakeWord.is_listening (resume (pause Samples2.listening.1)) = true.
Proof.
  destruct (paused_detector_discards_what_it_reads Samples2.uneventful
              Samples2.listening.1 new_loop Samples2.listening.2
              ltac:(vm_compute; reflexivity) ltac:(vm_compute; reflexivity))
    as (H1 & H2 & H3 & _).
  exact (conj H1 (conj H2 H3)).
Defined.

End DetectionLoop.

(* ================================================================== *)
(** * Playing a file                                                   *)
(* ================================================================== *)

Section FilePlayback.
Import Py Hardware Playback PlayFile.












End FilePlayback.

(* ================================================================== *)
(** * The desktop microphone                                           *)
(* ================================================================== *)

Section StubMicrophone.
Import Py Stubs.

Lemma bound_inside (i : Z) (n : nat) :
  (0 ≤ i ≤ Z.of_nat n)%Z → bound i n = Z.to_nat i.
Proof. unfold bound. intros H. destruct (Z.ltb_spec i 0); lia. Qed.

Lemma read_chunk_wraps (a : StubAudioInput) :
  stream_open a = true →
  (0 < chunk_size a ≤ Z.of_nat (length (pcm_data a)))%Z →
  (0 ≤ read_pos a ≤ Z.of_nat (length (pcm_data a)))%Z →
  ∃ chunk a',
    read_chunk a = Ok (chunk, a')
    ∧ length chunk = Z.to_nat (chunk_size a)
    ∧ chunk = take (Z.to_nat (chunk_size a))
                (drop (Z.to_nat (read_pos a)) (pcm_data a ++ pcm_data a))
    ∧ read_pos a'
      = (if (read_pos a + chunk_size a <=? Z.of_nat (length (pcm_data a)))%Z
         then read_pos a + chunk_size a
         else read_pos a + chunk_size a - Z.of_nat (length (pcm_data a)))%Z
    ∧ (0 ≤ read_pos a' ≤ Z.of_nat (length (pcm_data a')))%Z
    ∧ pcm_data a' = pcm_data a ∧ chunk_size a' = chunk_size a
    ∧ stream_open a' = true.
Proof.
  intros Ho Hcs Hpos. unfold read_chunk. rewrite Ho. cbn [negb]. cbv zeta.
  destruct (Z.leb_spec (read_pos a + chunk_size a) (Z.of_nat (length (pcm_data a))))
    as [Hle|Hgt].
  - eexists _, _. split; [reflexivity|]. cbn [read_pos pcm_data chunk_size
      stream_open set_read_pos].
    unfold slice. rewrite !bound_inside by lia.
    replace (Z.to_nat (read_pos a + chunk_size a) - Z.to_nat (read_pos a))
      with (Z.to_nat (chunk_size a)) by lia.
    split; [rewrite length_take, length_drop; lia|].
    split; [|repeat split; (done || lia)].
    rewrite drop_app_le by lia. rewrite take_app_le; [done|].
    rewrite length_drop. lia.
  - eexists _, _. split; [reflexivity|]. cbn [read_pos pcm_data chunk_size
      stream_open set_read_pos].
    unfold slice_from, slice_to. rewrite bound_inside by lia.
    rewrite length_drop.
    rewrite bound_inside by lia.
    split; [rewrite length_app, length_take, length_drop; lia|].
    split; [|repeat split; (done || lia)].
    rewrite drop_app_le by lia. rewrite take_app_ge by (rewrite length_drop; lia).
    rewrite length_drop. f_equal. f_equal. lia.
Qed.


(** X23.  A read from an open stub whose data holds at least one chunk
    returns exactly [chunk_size] bytes: the bytes that follow the read
    position in the data, continued from the start of the data when the
    end is reached.  The read position moves on by [chunk_size], wraps
    around with the data, and stays inside it; nothing else changes. *)
Theorem stub_microphone_reads_whole_chunks_and_wraps (a : StubAudioInput) :
  stream_open a = true →
  (0 < chunk_size a ≤ Z.of_nat (length (pcm_data a)))%Z →
  (0 ≤ read_pos a ≤ Z.of_nat (length (pcm_data a)))%Z →
  ∃ chunk a',
    read_chunk a = Ok (chunk, a')
    ∧ length chunk = Z.to_nat (chunk_size a)
    ∧ chunk = take (Z.to_nat (chunk_size a))
                (drop (Z.to_nat (read_pos a)) (pcm_data a ++ pcm_data a))
    ∧ read_pos a'
      = (if (read_pos a + chunk_size a <=? Z.of_nat (length (pcm_data a)))%Z
         then read_pos a + chunk_size a
         else read_pos a + chunk_size a - Z.of_nat (length (pcm_data a)))%Z
    ∧ (0 ≤ read_pos a' ≤ Z.of_nat (length (pcm_data a')))%Z
    ∧ pcm_data a' = pcm_data a ∧ chunk_size a' = chunk_size a
    ∧ stream_open a' = true.
Proof. apply read_chunk_wraps. Qed.

(** A stub opened without a WAV file holds a second of silence. *)
Lemma open_stream_silence rate chans size a :
  (0 ≤ rate)%Z →
  open_stream rate chans size NoWav a
  = ({| stream_open := true; sample_rate := rate; channels := chans;
        chunk_size := size; pcm_data := replicate (2 * Z.to_nat rate) x00;
        read_pos := 0 |}, None).
Proof.
  intros Hr. unfold open_stream. destruct (Z.ltb_spec rate 0); [lia|done].
Qed.

Lemma stub_microphone_reads_whole_chunks_and_wraps_witness :
  ∃ chunk a',
    read_chunk (set_read_pos 8 Samples2.stub) = Ok (chunk, a')
    ∧ chunk = [x08; x09; x00; x01]
    ∧ read_pos a' = 2%Z.
Proof.
  destruct (stub_microphone_reads_whole_chunks_and_wraps (set_read_pos 8 Samples2.stub)
              ltac:(vm_compute; reflexivity) ltac:(by vm_compute) ltac:(by vm_compute))
    as (chunk & a' & Hr & _ & Hc & Hp & _).
  exists chunk, a'. apply conj; [exact Hr|].
  apply conj; [rewrite Hc|rewrite Hp]; vm_compute; reflexivity.
Defined.

Lemma constant_list {A} (x : A) (l : list A) :
  Forall (fun b => b = x) l → l = replicate (length l) x.
Proof. induction 1 as [|b l -> _ IH]; cbn; [done|]. by rewrite <- IH. Qed.

(** X24.  A stub opened without a WAV file at a rate that is not
    negative holds two zero bytes per sample of one second.  When a
    chunk fits into that second, every read, however many have gone
    before, returns exactly [chunk_size] bytes, all of them zero: the
    stream never runs dry.  Opened at a negative rate, a closed stub
    raises and stays closed. *)
Theorem stub_microphone_without_a_file_delivers_silence
    (rate chans size : Z) (a : StubAudioInput) (n : nat) :
  (0 < size ≤ 2 * rate)%Z →
  (∃ chunks a',
     read_chunks n (open_stream rate chans size NoWav a).1 = Ok (chunks, a')
     ∧ length chunks = n
     ∧ Forall (fun c => c = replicate (Z.to_nat size) x00) chunks
     ∧ is_open a' = true)
  ∧ ∀ rate', (rate' < 0)%Z → is_open a = false →
      ∃ e, (open_stream rate' chans size NoWav a).2 = Some e
           ∧ is_open (open_stream rate' chans size NoWav a).1 = false.
Proof.
  intros Hsize. split.
  - rewrite open_stream_silence by lia. cbn [fst].
    set (zeros := replicate (2 * Z.to_nat rate) x00).
    assert (Hlen : length zeros = 2 * Z.to_nat rate)
      by (subst zeros; by rewrite length_replicate).
    assert (Hinv : ∀ a0,
              stream_open a0 = true → chunk_size a0 = size → pcm_data a0 = zeros →
              (0 ≤ read_pos a0 ≤ Z.of_nat (length zeros))%Z →
              ∃ chunks a', read_chunks n a0 = Ok (chunks, a')
                ∧ length chunks = n
                ∧ Forall (fun c => c = replicate (Z.to_nat size) x00) chunks
                ∧ is_open a' = true).
    { induction n as [|n IH]; intros a0 Ho Hc Hd Hp.
      { exists [], a0. cbn. by repeat split. }
      destruct (read_chunk_wraps a0 Ho)
        as (chunk & a1 & Hread & Hl & Hchunk & _ & Hp1 & Hd1 & Hc1 & Ho1);
        [rewrite Hc, Hd; lia|rewrite Hd; lia|].
      destruct (IH a1 Ho1) as (chunks & a2 & Hreads & Hn & Hall & Ho2);
        [congruence|congruence|rewrite <- Hd, <- Hd1; lia|].
      exists (chunk :: chunks), a2. cbn [read_chunks]. rewrite Hread, Hreads.
      split; [done|]. split; [cbn; lia|]. split; [|done].
      apply Forall_cons. split; [|done].
      assert (Hz : Forall (fun b => b = x00) chunk).
      { rewrite Hchunk. apply Forall_take, Forall_drop. rewrite Hd.
        apply Forall_app. split; subst zeros; by apply Forall_replicate. }
      rewrite (constant_list _ _ Hz). by rewrite Hl, Hc. }
    apply Hinv; cbn; (done || lia).
  - intros rate' Hneg Hclosed. unfold open_stream.
    destruct (Z.ltb_spec rate' 0); [|lia]. cbn. eauto.
Qed.

Lemma stub_microphone_without_a_file_delivers_silence_witness :
  ∃ chunks a',
    read_chunks 3 (open_stream 16000 1 1024 NoWav new_input).1 = Ok (chunks, a')
    ∧ length chunks = 3
    ∧ Forall (fun c => c = replicate (Z.to_nat 1024) x00) chunks
    ∧ is_open a' = true.
Proof.
  exact (proj1 (stub_microphone_without_a_file_delivers_silence 16000 1 1024 new_input 3
                  ltac:(lia))).
Defined.

End StubMicrophone.

(* ================================================================== *)
(** * The voice catalog                                                *)
(* ================================================================== *)

Section VoiceCatalog.
Import Py Voices.

Lemma first_voice_found p v :
  first_voice p = Some v → ∃ k, (k, v) ∈ VOICE_CATALOG ∧ p k = true.
Proof.
  unfold first_voice. destruct (find _ VOICE_CATALOG) as [[k v']|] eqn:Hf; [|done].
  intros [= <-]. apply find_some in Hf as [Hin Hp]. exists k.
  split; [by apply list_elem_of_In|done].
Qed.

Lemma first_voice_none p :
  first_voice p = None → ∀ k v, (k, v) ∈ VOICE_CATALOG → p k = false.
Proof.
  unfold first_voice. destruct (find _ VOICE_CATALOG) as [kv|] eqn:Hf; [done|].
  intros _ k v Hin. apply list_elem_of_In in Hin.
  apply (find_none _ _ Hf (k, v) Hin).
Qed.

(** X25.  The catalog holds thirty voices under thirty names that
    differ even when letter case is ignored, each filed under its own
    name.  [get_voice] finds every voice under its name as written, in
    upper case and in lower case.  For any ASCII name, a voice it
    returns is in the catalog and has that name up to letter case, and
    it raises KeyError exactly when no name of the catalog equals the
    given one up to letter case. *)
Theorem get_voice_ignores_letter_case :
  length list_voices = 30
  ∧ NoDup (lower <$> VOICE_CATALOG.*1)
  ∧ Forall (fun kv => voice_name kv.2 = kv.1
                      ∧ get_voice kv.1 = Ok kv.2
                      ∧ get_voice (upper kv.1) = Ok kv.2
                      ∧ get_voice (lower kv.1) = Ok kv.2) VOICE_CATALOG
  ∧ ∀ nm, ascii_text nm = true →
      match get_voice nm with
      | Ok v => (voice_name v, v) ∈ VOICE_CATALOG ∧ lower (voice_name v) = lower nm
      | Raise e =>
          (∃ msg, e = KeyError msg)
          ∧ ∀ k, k ∈ VOICE_CATALOG.*1 → lower k ≠ lower nm
      end.
Proof.
  assert (Hnames : Forall (fun kv => voice_name kv.2 = kv.1) VOICE_CATALOG).
  { unfold VOICE_CATALOG. repeat constructor. }
  split; [done|]. split; [|split].
  - apply (bool_decide_unpack (NoDup (lower <$> VOICE_CATALOG.*1))). by vm_compute.
  - unfold VOICE_CATALOG. repeat (apply Forall_cons; split; [by vm_compute|]).
    apply Forall_nil_2.
  - intros nm _. unfold get_voice.
    destruct (first_voice (fun k => bool_decide (k = nm))) as [v|] eqn:H1.
    { apply first_voice_found in H1 as (k & Hin & Hk).
      apply bool_decide_eq_true in Hk. subst k.
      pose proof (proj1 (Forall_forall _ _) Hnames _ Hin) as Hn. cbn in Hn.
      rewrite Hn. done. }
    destruct (first_voice (fun k => bool_decide (lower k = lower nm))) as [v|] eqn:H2.
    { apply first_voice_found in H2 as (k & Hin & Hk).
      apply bool_decide_eq_true in Hk.
      pose proof (proj1 (Forall_forall _ _) Hnames _ Hin) as Hn. cbn in Hn.
      rewrite Hn. done. }
    split; [eauto|]. intros k Hk. apply list_elem_of_fmap in Hk as ([k' v] & -> & Hin).
    pose proof (first_voice_none _ H2 k' v Hin) as Hf. cbn in Hf.
    by apply bool_decide_eq_false in Hf.
Qed.

End VoiceCatalog.

Section IdleMicrophone.
Import Py Hardware Controller Spec Spec2.



End IdleMicrophone.

Section QuietConversation.
Import Py Hardware Controller Spec Spec2.

Lemma pull_quiet stream s :
  Forall quiet_item stream →
  Forall quiet_item (Session.pull stream s).2.2
  ∧ Forall (fun x => refreshes (Session.msg_type x) = false)
           (Session.buffered (Session.pull stream s).2.1.1)
  ∧ match (Session.pull stream s).1 with
    | Session.Yields msg => refreshes (Session.msg_type msg) = false
    | _ => True
    end.
Proof.
  intros Hq. revert s. induction Hq as [|i stream Hi Hq IH]; intros s; [done|].
  destruct i as [m|e|]; cbn.
  - specialize (Hi (Session.tool_call_names s)).
    destruct (Session._parse_message m (Session.tool_call_names s)) as [[|x msgs] names].
    + apply IH.
    + cbn in *. apply Forall_cons in Hi as [Hx Hmsgs]. done.
  - destruct (is_Exception e); cbn; done.
  - done.
Qed.

Lemma anext_quiet g s stream :
  Forall quiet_item stream →
  Forall (fun x => refreshes (Session.msg_type x) = false) (Session.buffered g) →
  Forall quiet_item (Session.anext g s stream).2.2
  ∧ Forall (fun x => refreshes (Session.msg_type x) = false)
           (Session.buffered (Session.anext g s stream).2.1.1)
  ∧ match (Session.anext g s stream).1 with
    | Session.Yields msg => refreshes (Session.msg_type msg) = false
    | _ => True
    end.
Proof.
  intros Hq Hb. unfold Session.anext.
  destruct (Session.exhausted g); [done|].
  destruct (negb (Session.started g) && Session.unusable s); [done|].
  destruct (Session.at_error_yield g); [done|].
  destruct (Session.buffered g) as [|x more]; [by apply pull_quiet|].
  apply Forall_cons in Hb as [Hx Hmore]. done.
Qed.

Lemma handle_quiet_message now msg c pb :
  refreshes (Session.msg_type msg) = false →
  last_activity (_handle_message now msg c pb).1.1 = last_activity c.
Proof.
  unfold _handle_message. destruct (Session.msg_type msg); try done.
  intros _. by destruct (Playback.play_chunk _ _).
Qed.

Lemma stop_last_activity c : last_activity (stop c) = last_activity c.
Proof. unfold stop, close_session, stop_detector; cbn; by repeat case_match. Qed.

Lemma step_quiet e v :
  Forall quiet_item (stream v) →
  Forall (fun x => refreshes (Session.msg_type x) = false) (Session.buffered (generator v)) →
  Forall quiet_item (stream (race (step e v)))
  ∧ Forall (fun x => refreshes (Session.msg_type x) = false)
           (Session.buffered (generator (race (step e v))))
  ∧ last_activity (ctl (race (step e v))) = last_activity (ctl v).
Proof.
  intros Hq Hb.
  assert (Hrace : ∀ v', stream (race v') = stream v' ∧ generator (race v') = generator v'
                        ∧ ctl (race v') = ctl v').
  { intros v'. unfold race. by repeat case_match. }
  destruct (Hrace (step e v)) as (-> & -> & ->).
  destruct e as [ms| |ex| |frame|]; cbn [step]; try done.
  - unfold receive_step. destruct (receive_task v); try done.
    + destruct (session (ctl v)) as [s|]; [|done].
      pose proof (anext_quiet (generator v) s (stream v) Hq Hb) as (Hq' & Hb' & Hmsg).
      destruct (Session.anext (generator v) s (stream v)) as [next [[g' s'] rest]].
      cbn [fst snd] in *. destruct next as [msg| |e|]; try done.
      unfold receive_one. cbn [ctl set_source set_ctl now playback].
      destruct (negb (running (set_session (Some s') (ctl v)))); [done|].
      pose proof (handle_quiet_message (now v) msg (set_session (Some s') (ctl v))
                    (playback v) Hmsg) as Hla.
      destruct (_handle_message _ _ _ _) as [[c1 pb1] h]. cbn in Hla.
      destruct h; [destruct (Session.msg_type msg)| |]; done.
    + by destruct (Playback.flush_waits (playback v)).
  - unfold drain_step. by destruct (Playback.drain_step _ _).
  - unfold monitor_step. by repeat case_match.
  - unfold capture_step. destruct (session (ctl v)) as [s|].
    + by destruct (Capture.capture_step _ _) as [[cap mic] s'].
    + by repeat case_match.
  - cbn. by rewrite stop_last_activity.
Qed.

(** X27.  Audio does not count as activity.  As long as the provider
    delivers only items without an input transcription, a turn end, an
    interruption or a tool call (audio and output transcriptions, for
    one), the time of the last activity stays what it was when the
    conversation began, whatever is scheduled: the silence timeout runs
    on through a reply, and the first poll that comes the timeout after
    the beginning of the conversation finds it reached. *)
Theorem audio_alone_does_not_refresh_the_silence_timer
    (t0 : Z) (source : list Session.StreamItem) (sched : list Event)
    (c : RobotController) :
  Forall quiet_item source →
  last_activity (ctl (advance sched (conversation_enter t0 source c))) = t0
  ∧ ((1000 * conversation_timeout (ctl (advance sched (conversation_enter t0 source c)))
      ≤ now (advance sched (conversation_enter t0 source c)) - t0)%Z →
     timed_out (now (advance sched (conversation_enter t0 source c)))
               (ctl (advance sched (conversation_enter t0 source c))) = true).
Proof.
  intros Hq.
  assert (Hinv : ∀ v,
            Forall quiet_item (stream v) →
            Forall (fun x => refreshes (Session.msg_type x) = false)
                   (Session.buffered (generator v)) →
            last_activity (ctl (advance sched v)) = last_activity (ctl v)).
  { induction sched as [|e sched IH]; intros v Hs Hb; [done|].
    destruct (step_quiet e v Hs Hb) as (Hs' & Hb' & Hla).
    change (advance (e :: sched) v) with (advance sched (race (step e v))).
    rewrite IH by done. exact Hla. }
  assert (Hla : last_activity (ctl (advance sched (conversation_enter t0 source c))) = t0).
  { rewrite Hinv.
    - unfold conversation_enter. by destruct (Capture.start _).
    - unfold conversation_enter. by destruct (Capture.start _).
    - unfold conversation_enter. destruct (Capture.start _). cbn. constructor. }
  split; [exact Hla|]. intros Hto. unfold timed_out. rewrite Hla. by apply Z.leb_le.
Qed.

Lemma audio_alone_does_not_refresh_the_silence_timer_witness :
  let source := [Session.SdkMessage Samples2.audio_only;
                 Session.SdkMessage Samples2.audio_only] in
  let sched := [RunReceive; Elapse 600000; RunReceive; RunCapture [x01; x02]] in
  let v := advance sched
             (conversation_enter 5 source (Samples.conversing_controller "professional")) in
  last_activity (ctl v) = 5%Z ∧ timed_out (now v) (ctl v) = true.
Proof.
  cbv zeta.
  assert (Hq : Forall quiet_item [Session.SdkMessage Samples2.audio_only;
                                  Session.SdkMessage Samples2.audio_only]).
  { repeat (constructor; [intros names; cbn;
                          repeat (constructor; [reflexivity|]); constructor|]).
    constructor. }
  destruct (audio_alone_does_not_refresh_the_silence_timer 5
              [Session.SdkMessage Samples2.audio_only; Session.SdkMessage Samples2.audio_only]
              [RunReceive; Elapse 600000; RunReceive; RunCapture [x01; x02]]
              (Samples.conversing_controller "professional") Hq) as [Ha Ht].
  apply conj; [exact Ha|]. apply Ht. vm_compute. discriminate.
Defined.

End QuietConversation.
